(** * SeekrBoard: the lost-and-found routes, embedded and verified

    A shallow embedding of [routes.js] (the Express router of the
    SeekrBoard backend) and of the helpers it takes from [firebase.js].

    - JavaScript strings are modelled as [string]: sequences of code
      units below 256 (the characters U+0000 to U+00FF). On these
      [toLowerCase] maps the letters A-Z and the capital letters U+00C0 to
      U+00DE (the multiplication sign U+00D7 apart), and leaves every
      other character as it is.
    - A field of a document that may be absent ([undefined]) is an
      [option string].
    - The Firestore collections are finite maps from document ids to
      records; document ids are opaque and modelled as natural numbers.
    - Asynchronous code that talks to Firestore or to the storage bucket is
      a state-and-exception monad over a [World]; a rejected promise is a
      thrown exception, and the writes made before it stay in the world.
    - Whether a call to the remote services rejects is decided by the
      world's [outages] schedule, one flag per call. *)

From stdpp Require Import gmap list fin_maps.
From Stdlib Require Import String Ascii DecimalString Lia Sorted.

Open Scope string_scope.
Open Scope list_scope.

Infix "^^" := String.append (at level 60, right associativity).

(** ** JavaScript strings *)

(** The code units below 256 that [toLowerCase] changes: A-Z, and the
    capital letters from U+00C0 to U+00DE, of which U+00D7, the
    multiplication sign, is not one. The lower-case letter is 32 further
    in each case. *)
Definition isUpper (c : ascii) : bool :=
  let n := nat_of_ascii c in
  (((65 <=? n) && (n <=? 90)) ||
   ((192 <=? n) && (n <=? 222) && negb (n =? 215)))%nat.

Definition lowerChar (c : ascii) : ascii :=
  if isUpper c then ascii_of_nat (nat_of_ascii c + 32) else c.

(** [String.prototype.toLowerCase] *)
Fixpoint toLowerCase (s : string) : string :=
  match s with
  | EmptyString => EmptyString
  | String c s' => String (lowerChar c) (toLowerCase s')
  end.

(** [String.prototype.includes]: [sub] occurs somewhere in [s]. *)
Fixpoint includes (s sub : string) : bool :=
  String.prefix sub s ||
  match s with
  | EmptyString => false
  | String _ s' => includes s' sub
  end.

(** [String.prototype.split] with a one-character separator. *)
Fixpoint split (sep : ascii) (s : string) : list string :=
  match s with
  | EmptyString => [EmptyString]
  | String c s' =>
      if Ascii.eqb c sep then EmptyString :: split sep s'
      else match split sep s' with
           | w :: ws => String c w :: ws
           | [] => [String c EmptyString]
           end
  end.

(** [Array.prototype.includes] on an array of strings. *)
Definition arrayIncludes (l : list string) (w : string) : bool :=
  existsb (String.eqb w) l.

(** White space as [String.prototype.trim] sees it (within ASCII, plus the
    no-break space): TAB, LF, VT, FF, CR, SP, NBSP. *)
Definition isWhiteSpace (c : ascii) : bool :=
  let n := nat_of_ascii c in
  (((9 <=? n) && (n <=? 13)) || (n =? 32) || (n =? 160))%nat.

Fixpoint trimStart (s : string) : string :=
  match s with
  | EmptyString => EmptyString
  | String c s' => if isWhiteSpace c then trimStart s' else s
  end.

(** [trimEnd] drops the white space at the end: a character is kept when
    it is not white space or when something is kept after it. *)
Fixpoint trimEnd (s : string) : string :=
  match s with
  | EmptyString => EmptyString
  | String c s' =>
      match trimEnd s' with
      | EmptyString => if isWhiteSpace c then EmptyString else String c EmptyString
      | r => String c r
      end
  end.

(** [String.prototype.trim] *)
Definition trim (s : string) : string := trimEnd (trimStart s).

(** JavaScript truthiness of a value that is [undefined] or a string: only
    a non-empty string is truthy. *)
Definition truthy (v : option string) : bool :=
  match v with
  | Some s => negb (String.eqb s "")
  | None => false
  end.

(** [v?.trim() || ''] *)
Definition trimOrEmpty (v : option string) : string :=
  match v with
  | Some s => trim s
  | None => ""
  end.

Definition doubleQuote : string := String (ascii_of_nat 34) EmptyString.

(** ** Documents *)

Definition DocId := nat.

(** A timestamp field holds the [FieldValue.serverTimestamp()] sentinel
    until the store writes the document, and the server time afterwards. *)
Inductive Timestamp :=
| ServerTimestamp
| At (t : nat).

Definition resolveTimestamp (now : nat) (ts : Timestamp) : Timestamp :=
  match ts with
  | ServerTimestamp => At now
  | At t => At t
  end.

Module Item.
Record t := mk {
  title : option string;
  description : option string;
  category : string;
  contact_info : string;
  location : option string;
  image_url : string;
  posted_by : string;
  status : string;
  date : Timestamp
}.
Definition setStatus (s : string) (i : t) : t :=
  mk (title i) (description i) (category i) (contact_info i) (location i)
     (image_url i) (posted_by i) s (date i).
Definition resolve (now : nat) (i : t) : t :=
  mk (title i) (description i) (category i) (contact_info i) (location i)
     (image_url i) (posted_by i) (status i) (resolveTimestamp now (date i)).
End Item.

Module Match.
Record t := mk {
  lost_item_id : DocId;
  found_item_id : DocId;
  confidence_score : nat;
  status : string;
  created_at : Timestamp;
  updated_at : option Timestamp
}.
Definition setStatus (s : string) (ts : Timestamp) (m : t) : t :=
  mk (lost_item_id m) (found_item_id m) (confidence_score m) s
     (created_at m) (Some ts).
Definition resolve (now : nat) (m : t) : t :=
  mk (lost_item_id m) (found_item_id m) (confidence_score m) (status m)
     (resolveTimestamp now (created_at m))
     (resolveTimestamp now <$> updated_at m).
(** The sentinel of an [update], which writes [updated_at]. *)
Definition resolvePatch (now : nat) (m : t) : t :=
  mk (lost_item_id m) (found_item_id m) (confidence_score m) (status m)
     (created_at m) (resolveTimestamp now <$> updated_at m).
End Match.

Module Notification.
Record t := mk {
  user_id : string;
  message : string;
  is_read : bool;
  created_at : Timestamp;
  match_id : DocId;
  read_at : option Timestamp
}.
Definition setRead (ts : Timestamp) (n : t) : t :=
  mk (user_id n) (message n) true (created_at n) (match_id n) (Some ts).
Definition resolve (now : nat) (n : t) : t :=
  mk (user_id n) (message n) (is_read n)
     (resolveTimestamp now (created_at n)) (match_id n)
     (resolveTimestamp now <$> read_at n).
(** The sentinel of an [update], which writes [read_at]. *)
Definition resolvePatch (now : nat) (n : t) : t :=
  mk (user_id n) (message n) (is_read n) (created_at n) (match_id n)
     (resolveTimestamp now <$> read_at n).
End Notification.

(** What [generateMatches] returns for each match it made. *)
Module MatchInfo.
Record t := mk {
  match_id : DocId;
  confidence_score : nat;
  matched_item_id : DocId;
  matched_item_title : option string;
  matched_item_description : option string
}.
End MatchInfo.

(** The file multer hands to the route ([req.file]). *)
Record UploadedFile := {
  originalname : string;
  mimetype : string;
  buffer : string
}.

(** An object in the storage bucket. *)
Record StoredObject := {
  object_name : string;
  object_contentType : string;
  object_content : string;
  object_public : bool
}.

(** ** The world: Firestore, the bucket, the clock *)

Record World := {
  items : gmap DocId Item.t;
  matches : gmap DocId Match.t;
  notifications : gmap DocId Notification.t;
  bucket : list StoredObject;
  clock : nat;
  entropy : list nat;
  outages : list bool
}.

Definition withItems (f : gmap DocId Item.t -> gmap DocId Item.t) (w : World) : World :=
  Build_World (f (items w)) (matches w) (notifications w) (bucket w)
              (clock w) (entropy w) (outages w).
Definition withMatches (f : gmap DocId Match.t -> gmap DocId Match.t) (w : World) : World :=
  Build_World (items w) (f (matches w)) (notifications w) (bucket w)
              (clock w) (entropy w) (outages w).
Definition withNotifications
  (f : gmap DocId Notification.t -> gmap DocId Notification.t) (w : World) : World :=
  Build_World (items w) (matches w) (f (notifications w)) (bucket w)
              (clock w) (entropy w) (outages w).
Definition withBucket (f : list StoredObject -> list StoredObject) (w : World) : World :=
  Build_World (items w) (matches w) (notifications w) (f (bucket w))
              (clock w) (entropy w) (outages w).
Definition withEntropy (l : list nat) (w : World) : World :=
  Build_World (items w) (matches w) (notifications w) (bucket w)
              (clock w) l (outages w).
Definition withOutages (l : list bool) (w : World) : World :=
  Build_World (items w) (matches w) (notifications w) (bucket w)
              (clock w) (entropy w) l.
(** The server clock moves on with every write it commits. *)
Definition tick (w : World) : World :=
  Build_World (items w) (matches w) (notifications w) (bucket w)
              (S (clock w)) (entropy w) (outages w).

(** ** Asynchronous computations *)

Inductive Exn :=
| TypeError      (* a method called on [undefined] *)
| ServiceError   (* the remote service rejected the call *)
| NotFound.      (* [update] of a document that does not exist *)

Inductive Outcome (A : Type) :=
| Return (a : A)
| Throw (e : Exn).
Arguments Return {A} a.
Arguments Throw {A} e.

Definition Async (A : Type) : Type := World -> Outcome A * World.

Definition ret {A} (a : A) : Async A := fun w => (Return a, w).
Definition throw {A} (e : Exn) : Async A := fun w => (Throw e, w).
Definition bind {A B} (m : Async A) (k : A -> Async B) : Async B :=
  fun w =>
    match m w with
    | (Return a, w') => k a w'
    | (Throw e, w') => (Throw e, w')
    end.
(** [try { m } catch (error) { h error }] *)
Definition tryCatch {A} (m : Async A) (h : Exn -> Async A) : Async A :=
  fun w =>
    match m w with
    | (Return a, w') => (Return a, w')
    | (Throw e, w') => h e w'
    end.
(** A synchronous expression that may throw. *)
Definition lift {A} (o : Outcome A) : Async A := fun w => (o, w).

Notation "x <- m ;; k" := (bind m (fun x => k))
  (at level 100, m at next level, right associativity).
Notation "m ;;; k" := (bind m (fun _ => k))
  (at level 100, right associativity).

(** [await Promise.all([a, b])]: both calls are started, and the writes of
    the second happen whether or not the first rejects; the result is
    rejected when either is. *)
Definition promiseAll2 {A B} (a : Async A) (b : Async B) : Async (A * B) :=
  fun w =>
    let (ra, w1) := a w in
    let (rb, w2) := b w1 in
    match ra, rb with
    | Return x, Return y => (Return (x, y), w2)
    | Throw e, _ => (Throw e, w2)
    | _, Throw e => (Throw e, w2)
    end.

(** Every call to Firestore or to the bucket takes the next flag of the
    outage schedule; the call rejects when the flag is set. An exhausted
    schedule means the services are up. *)
Definition remoteCall : Async unit :=
  fun w =>
    match outages w with
    | [] => (Return tt, w)
    | false :: rest => (Return tt, withOutages rest w)
    | true :: rest => (Throw ServiceError, withOutages rest w)
    end.

(** ** firebase.js: document references *)

(** [createDocRef(collection)] is [db.collection(collection).doc()]: a
    reference with an automatically generated id, one that no document of
    the collection has. Nothing is sent to the store. *)
Definition createItemRef : Async DocId :=
  fun w => (Return (fresh (dom (items w))), w).
Definition createMatchRef : Async DocId :=
  fun w => (Return (fresh (dom (matches w))), w).
Definition createNotificationRef : Async DocId :=
  fun w => (Return (fresh (dom (notifications w))), w).

(** [ref.set(data)]: creates the document (or replaces it); the store
    resolves the timestamp sentinels to its clock. *)
Definition setItem (id : DocId) (data : Item.t) : Async unit :=
  remoteCall ;;;
  fun w => (Return tt, tick (withItems <[id := Item.resolve (clock w) data]> w)).
Definition setMatch (id : DocId) (data : Match.t) : Async unit :=
  remoteCall ;;;
  fun w => (Return tt, tick (withMatches <[id := Match.resolve (clock w) data]> w)).
Definition setNotification (id : DocId) (data : Notification.t) : Async unit :=
  remoteCall ;;;
  fun w => (Return tt,
            tick (withNotifications <[id := Notification.resolve (clock w) data]> w)).

(** [ref.get()]: a snapshot; [None] is a snapshot whose [exists] is false
    and whose [data()] is [undefined]. *)
Definition getItem (id : DocId) : Async (option Item.t) :=
  remoteCall ;;; fun w => (Return (items w !! id), w).
Definition getMatch (id : DocId) : Async (option Match.t) :=
  remoteCall ;;; fun w => (Return (matches w !! id), w).
Definition getNotification (id : DocId) : Async (option Notification.t) :=
  remoteCall ;;; fun w => (Return (notifications w !! id), w).

(** [ref.update(fields)]: merges the fields into the document; rejects
    when the document does not exist. The fields written to an item
    (line 515: the status) hold no timestamp, so the other fields of the
    item, its date among them, stay as they are; the fields written to a
    match or to a notification hold a sentinel, which the store
    resolves. *)
Definition updateItem (id : DocId) (patch : Item.t -> Item.t) : Async unit :=
  remoteCall ;;;
  fun w =>
    match items w !! id with
    | None => (Throw NotFound, w)
    | Some i => (Return tt, tick (withItems <[id := patch i]> w))
    end.
Definition updateMatch (id : DocId) (patch : Match.t -> Match.t) : Async unit :=
  remoteCall ;;;
  fun w =>
    match matches w !! id with
    | None => (Throw NotFound, w)
    | Some m => (Return tt, tick (withMatches <[id := Match.resolvePatch (clock w) (patch m)]> w))
    end.
Definition updateNotification (id : DocId) (patch : Notification.t -> Notification.t)
  : Async unit :=
  remoteCall ;;;
  fun w =>
    match notifications w !! id with
    | None => (Throw NotFound, w)
    | Some n =>
        (Return tt,
         tick (withNotifications <[id := Notification.resolvePatch (clock w) (patch n)]> w))
    end.

(** [db.collection('items').where('category', '==', category)
      .where('status', '==', status).get()]: the documents of the snapshot,
    each with its id and its data. *)
Definition queryItems (category status : string) : Async (list (DocId * Item.t)) :=
  remoteCall ;;;
  fun w =>
    (Return (filter (fun d => Item.category d.2 = category /\ Item.status d.2 = status)
                    (map_to_list (items w))), w).

(** ** routes.js: uploadImageToStorage *)

Definition bucketName : string := "seekr-board-4b3c7.firebasestorage.app".

Definition decimal (n : nat) : string := NilZero.string_of_uint (Nat.to_uint n).

(** [Math.round(Math.random() * 1E9)]: the next draw of the entropy. *)
Definition random1E9 : Async nat :=
  fun w =>
    match entropy w with
    | [] => (Return 0, w)
    | r :: rest => (Return r, withEntropy rest w)
    end.

Definition uploadImageToStorage (file : UploadedFile) (folder : string) : Async string :=
  now <- (fun w => (Return (clock w), w)) ;;
  rnd <- random1E9 ;;
  let fileName := folder ^^ "/" ^^ decimal now ^^ "_" ^^ decimal rnd ^^ "_" ^^ originalname file in
  (* the write stream: 'error' rejects, 'finish' goes on *)
  remoteCall ;;;
  (fun w => (Return tt,
             withBucket (fun b => b ++ [Build_StoredObject fileName (mimetype file)
                                                            (buffer file) false]) w)) ;;;
  (* fileUpload.makePublic() *)
  remoteCall ;;;
  (fun w => (Return tt,
             withBucket (map (fun o => if String.eqb (object_name o) fileName
                                       then Build_StoredObject (object_name o)
                                              (object_contentType o) (object_content o) true
                                       else o)) w)) ;;;
  ret ("https://storage.googleapis.com/" ^^ bucketName ^^ "/" ^^ fileName).

(** ** routes.js: generateMatches *)

(** The string of a value known to be truthy. *)
Definition str (v : option string) : string := default "" v.

(** Lines 84-87: the title comparison. [x.title.toLowerCase()] throws a
    TypeError when the title is [undefined]. *)
Definition titleFactor (existingTitle title : option string) : Outcome nat :=
  match existingTitle, title with
  | Some et, Some t =>
      Return (if includes (toLowerCase et) (toLowerCase t) ||
                 includes (toLowerCase t) (toLowerCase et)
              then 40 else 0)
  | _, _ => Throw TypeError
  end.

(** Lines 89-94: the words of the new description found among the words of
    the existing one, five points each, thirty at most. *)
Definition descriptionFactor (existingDescription description : option string) : nat :=
  if truthy existingDescription && truthy description then
    let descWords := split " " (toLowerCase (str description)) in
    let existingDescWords := split " " (toLowerCase (str existingDescription)) in
    let commonWords := List.filter (arrayIncludes existingDescWords) descWords in
    Nat.min (List.length commonWords * 5) 30
  else 0.

(** Lines 96-103: the location comparison. *)
Definition locationFactor (existingLocation location : option string) : nat :=
  if truthy existingLocation && truthy location then
    if String.eqb (toLowerCase (str existingLocation)) (toLowerCase (str location)) then 20
    else if includes (toLowerCase (str existingLocation)) (toLowerCase (str location)) ||
            includes (toLowerCase (str location)) (toLowerCase (str existingLocation))
         then 10
         else 0
  else 0.

(** Lines 81-103: [confidenceScore] of a candidate against the new item. *)
Definition confidenceScore (existingItem newItemData : Item.t) : Outcome nat :=
  match titleFactor (Item.title existingItem) (Item.title newItemData) with
  | Throw e => Throw e
  | Return fromTitle =>
      Return (fromTitle
              + descriptionFactor (Item.description existingItem) (Item.description newItemData)
              + locationFactor (Item.location existingItem) (Item.location newItemData))
  end.

(** Lines 80-139: the body of the loop for one document of the snapshot.
    It returns what the iteration pushes on [matches], if anything. *)
Definition scanCandidate (newItemId : DocId) (newItemData : Item.t)
  (doc : DocId * Item.t) : Async (option MatchInfo.t) :=
  let status := Item.status newItemData in
  let existingItem := doc.2 in
  confidence <- lift (confidenceScore existingItem newItemData) ;;
  if (30 <=? confidence)%nat then
    let matchData :=
      Match.mk (if String.eqb status "Lost" then newItemId else doc.1)
               (if String.eqb status "Found" then newItemId else doc.1)
               confidence "Pending" ServerTimestamp None in
    matchRef <- createMatchRef ;;
    setMatch matchRef matchData ;;;
    let notificationData :=
      Notification.mk (Item.posted_by existingItem)
        ("Potential match found for your " ^^ toLowerCase status ^^ " item: "
           ^^ doubleQuote ^^ default "undefined" (Item.title newItemData) ^^ doubleQuote)
        false ServerTimestamp matchRef None in
    notificationRef <- createNotificationRef ;;
    setNotification notificationRef notificationData ;;;
    ret (Some (MatchInfo.mk matchRef confidence doc.1
                 (Item.title existingItem) (Item.description existingItem)))
  else ret None.

(** Lines 79-140: [for (const doc of snapshot.docs)], pushing on [matches]. *)
Fixpoint scanDocs (newItemId : DocId) (newItemData : Item.t)
  (docs : list (DocId * Item.t)) (matches : list MatchInfo.t)
  : Async (list MatchInfo.t) :=
  match docs with
  | [] => ret matches
  | doc :: rest =>
      pushed <- scanCandidate newItemId newItemData doc ;;
      scanDocs newItemId newItemData rest
        (match pushed with Some m => matches ++ [m] | None => matches end)
  end.

(** Lines 69-142: the body of the [try] of [generateMatches]. *)
Definition matchScan (newItemId : DocId) (newItemData : Item.t)
  : Async (list MatchInfo.t) :=
  let category := Item.category newItemData in
  let status := Item.status newItemData in
  docs <- queryItems category (if String.eqb status "Lost" then "Found" else "Lost") ;;
  scanDocs newItemId newItemData docs [].

(** Lines 67-147: an error of the scan is logged and the empty list is
    returned. *)
Definition generateMatches (newItemId : DocId) (newItemData : Item.t)
  : Async (list MatchInfo.t) :=
  tryCatch (matchScan newItemId newItemData) (fun _ => ret []).

(** ** routes.js: the routes *)

Inductive Response :=
| Created (id : DocId) (itemData : Item.t) (matches_generated : nat)
          (matches : list MatchInfo.t)                      (* 201 *)
| Success (message : string)                                (* 200 *)
| Failure (code : nat) (message : string).

Definition statusCode (r : Response) : nat :=
  match r with
  | Created _ _ _ _ => 201
  | Success _ => 200
  | Failure c _ => c
  end.

(** [try { ... } catch (error) { res.status(500).json(...) }] around the
    body of a route. *)
Definition route (body : Async Response) (message : string) (w : World)
  : Response * World :=
  match body w with
  | (Return r, w') => (r, w')
  | (Throw _, w') => (Failure 500 message, w')
  end.

(** [req.body] of POST /items. *)
Record ItemForm := {
  form_title : option string;
  form_description : option string;
  form_category : option string;
  form_contact_info : option string;
  form_location : option string;
  form_status : option string
}.

(** POST /items, lines 189-260; [uid] is [req.user.uid], set by
    [authenticateUser]. *)
Definition createItem (body : ItemForm) (file : option UploadedFile) (uid : string)
  : World -> Response * World :=
  route
    (if negb (truthy (form_title body)) || negb (truthy (form_category body)) ||
        negb (truthy (form_status body))
     then ret (Failure 400 "Title, category, and status are required fields")
     else if negb (arrayIncludes ["Lost"; "Found"] (str (form_status body)))
     then ret (Failure 400 ("Status must be either " ^^ doubleQuote ^^ "Lost" ^^ doubleQuote
                              ^^ " or " ^^ doubleQuote ^^ "Found" ^^ doubleQuote))
     else
       uploaded <-
         match file with
         | Some f =>
             tryCatch (url <- uploadImageToStorage f "items" ;; ret (inr url))
                      (fun _ => ret (inl (Failure 400 "Failed to upload image")))
         | None => ret (inr "")
         end ;;
       match uploaded with
       | inl response => ret response
       | inr image_url =>
           let itemData :=
             Item.mk (Some (trim (str (form_title body))))
                     (Some (trimOrEmpty (form_description body)))
                     (trim (str (form_category body)))
                     (trimOrEmpty (form_contact_info body))
                     (Some (trimOrEmpty (form_location body)))
                     image_url uid (str (form_status body)) ServerTimestamp in
           itemRef <- createItemRef ;;
           setItem itemRef itemData ;;;
           matches <- generateMatches itemRef itemData ;;
           ret (Created itemRef itemData (List.length matches) matches)
       end)
    "Failed to create item".

(** PUT /notifications/:id/read, lines 349-389. *)
Definition markRead (id : DocId) (uid : string) : World -> Response * World :=
  route
    (notificationDoc <- getNotification id ;;
     match notificationDoc with
     | None => ret (Failure 404 "Notification not found")
     | Some notificationData =>
         if negb (String.eqb (Notification.user_id notificationData) uid)
         then ret (Failure 403 "Unauthorized to update this notification")
         else
           updateNotification id (Notification.setRead ServerTimestamp) ;;;
           ret (Success "Notification marked as read")
     end)
    "Failed to update notification".

(** [doc.data()?.posted_by === uid] *)
Definition postedBy (doc : option Item.t) (uid : string) : bool :=
  match doc with
  | Some data => String.eqb (Item.posted_by data) uid
  | None => false
  end.

(** PUT /matches/:id/status, lines 467-532; [status] is [req.body.status]. *)
Definition updateMatchStatus (id : DocId) (status : option string) (uid : string)
  : World -> Response * World :=
  route
    (if negb (match status with
              | Some s => arrayIncludes ["Pending"; "Confirmed"; "Rejected"] s
              | None => false
              end)
     then ret (Failure 400 "Status must be Pending, Confirmed, or Rejected")
     else
       matchDoc <- getMatch id ;;
       match matchDoc with
       | None => ret (Failure 404 "Match not found")
       | Some matchData =>
           docs <- promiseAll2 (getItem (Match.lost_item_id matchData))
                               (getItem (Match.found_item_id matchData)) ;;
           let userOwnsItem := postedBy docs.1 uid || postedBy docs.2 uid in
           if negb userOwnsItem
           then ret (Failure 403 "Unauthorized to update this match")
           else
             updateMatch id (Match.setStatus (str status) ServerTimestamp) ;;;
             (if String.eqb (str status) "Confirmed"
              then
                promiseAll2
                  (updateItem (Match.lost_item_id matchData) (Item.setStatus "Returned"))
                  (updateItem (Match.found_item_id matchData) (Item.setStatus "Returned")) ;;;
                ret tt
              else ret tt) ;;;
             ret (Success "Match status updated successfully")
       end)
    "Failed to update match status".

(** ** routes.js: the reading routes *)

(** [{ success: true, data, count }], or an error answer. *)
Inductive Listing (A : Type) :=
| Listed (data : list A) (count : nat)                      (* 200 *)
| NotListed (code : nat) (message : string).
Arguments Listed {A} data count.
Arguments NotListed {A} code message.

Definition listingCode {A} (r : Listing A) : nat :=
  match r with
  | Listed _ _ => 200
  | NotListed c _ => c
  end.

Definition listedData {A} (r : Listing A) : list A :=
  match r with
  | Listed data _ => data
  | NotListed _ _ => []
  end.

(** The body of a reading route inside its [try]/[catch]. *)
Definition listingRoute {A} (body : Async (Listing A)) (message : string) (w : World)
  : Listing A * World :=
  match body w with
  | (Return r, w') => (r, w')
  | (Throw _, w') => (NotListed 500 message, w')
  end.

Definition timeOf (ts : Timestamp) : nat :=
  match ts with
  | At t => t
  | ServerTimestamp => 0
  end.

(** [orderBy(field, 'desc')]: the latest first; documents of the same time
    come in descending order of their ids, the order the store gives to
    ties. A key is the time and the id of a document. *)
Definition comesBefore (a b : nat * DocId) : bool :=
  ((b.1 <? a.1) || ((b.1 =? a.1) && (b.2 <=? a.2)))%nat.

Fixpoint insertDesc {A} (key : A -> nat * DocId) (x : A) (l : list A) : list A :=
  match l with
  | [] => [x]
  | y :: l' => if comesBefore (key x) (key y) then x :: l else y :: insertDesc key x l'
  end.

Definition orderByDesc {A} (key : A -> nat * DocId) (l : list A) : list A :=
  List.fold_right (insertDesc key) [] l.

(** [if (req.query.p) query = query.where(field, '==', req.query.p)] *)
Definition optionalEquals (param : option string) (field : string) : bool :=
  if truthy param then String.eqb field (str param) else true.

(** GET /items, lines 150-186: [status] and [category] are
    [req.query.status] and [req.query.category]. *)
Definition listItems (status category : option string)
  : World -> Listing (DocId * Item.t) * World :=
  listingRoute
    (items <-
       (remoteCall ;;;
        fun w =>
          (Return (orderByDesc (fun d : DocId * Item.t => (timeOf (Item.date d.2), d.1))
                     (List.filter
                        (fun d => optionalEquals status (Item.status d.2) &&
                                  optionalEquals category (Item.category d.2))
                        (map_to_list (items w)))), w)) ;;
     ret (Listed items (List.length items)))
    "Failed to fetch items".

(** GET /notifications, lines 310-346: [is_read] is [req.query.is_read],
    which is compared with ['true'] when it is given at all. *)
Definition listNotifications (uid : string) (is_read : option string)
  : World -> Listing (DocId * Notification.t) * World :=
  listingRoute
    (notifications <-
       (remoteCall ;;;
        fun w =>
          (Return (orderByDesc
                     (fun d : DocId * Notification.t =>
                        (timeOf (Notification.created_at d.2), d.1))
                     (List.filter
                        (fun d => String.eqb (Notification.user_id d.2) uid &&
                                  match is_read with
                                  | Some s => Bool.eqb (Notification.is_read d.2)
                                                       (String.eqb s "true")
                                  | None => true
                                  end)
                        (map_to_list (notifications w)))), w)) ;;
     ret (Listed notifications (List.length notifications)))
    "Failed to fetch notifications".

(** The fields of an item that GET /matches shows. *)
Record ItemSummary := {
  summary_id : DocId;
  summary_title : option string;
  summary_description : option string;
  summary_image_url : string
}.

Definition summaryOf (id : DocId) (data : Item.t) : ItemSummary :=
  Build_ItemSummary id (Item.title data) (Item.description data) (Item.image_url data).

Module MatchView.
Record t := mk {
  id : DocId;
  matchData : Match.t;
  lost_item : ItemSummary;
  found_item : ItemSummary
}.
End MatchView.

(** [db.collection('items').where('posted_by', '==', uid).get()] *)
Definition queryItemsPostedBy (uid : string) : Async (list (DocId * Item.t)) :=
  remoteCall ;;;
  fun w =>
    (Return (List.filter (fun d => String.eqb (Item.posted_by d.2) uid)
                         (map_to_list (items w))), w).

(** The number of values Firestore takes in an [in] filter: 30 (it was 10
    in the releases before 2023). The properties below hold for any
    bound. *)
Definition inFilterLimit : nat := 30.

(** [db.collection('matches').where(field, 'in', ids).get()]: the store
    rejects the query when [ids] has more values than an [in] filter
    takes. *)
Definition queryMatchesIn (field : Match.t -> DocId) (ids : list DocId)
  : Async (list (DocId * Match.t)) :=
  remoteCall ;;;
  if (inFilterLimit <? List.length ids)%nat then throw ServiceError
  else
    fun w =>
      (Return (List.filter (fun d => existsb (Nat.eqb (field d.2)) ids)
                           (map_to_list (matches w))), w).

(** Lines 421-449: the loop over [allMatches], pushing on [matches] the
    matches both items of which are still in the store. *)
Fixpoint collectMatches (allMatches : list (DocId * Match.t))
  (matches : list MatchView.t) : Async (list MatchView.t) :=
  match allMatches with
  | [] => ret matches
  | matchDoc :: rest =>
      let matchData := matchDoc.2 in
      docs <- promiseAll2 (getItem (Match.lost_item_id matchData))
                          (getItem (Match.found_item_id matchData)) ;;
      collectMatches rest
        (match docs with
         | (Some lostItem, Some foundItem) =>
             matches ++ [MatchView.mk matchDoc.1 matchData
                           (summaryOf (Match.lost_item_id matchData) lostItem)
                           (summaryOf (Match.found_item_id matchData) foundItem)]
         | _ => matches
         end)
  end.

(** GET /matches, lines 392-464. *)
Definition listMatches (uid : string) : World -> Listing MatchView.t * World :=
  listingRoute
    (userItems <- queryItemsPostedBy uid ;;
     let userItemIds := map fst userItems in
     if (List.length userItemIds =? 0)%nat then ret (Listed [] 0)
     else
       matchesSnapshot <- queryMatchesIn Match.lost_item_id userItemIds ;;
       foundMatchesSnapshot <- queryMatchesIn Match.found_item_id userItemIds ;;
       let allMatches := matchesSnapshot ++ foundMatchesSnapshot in
       matches <- collectMatches allMatches [] ;;
       ret (Listed matches (List.length matches)))
    "Failed to fetch matches".

(** GET /users/:id, lines 263-307. The users collection, which no route
    writes, is given with the request: [users id] is the data of the
    document of [id], if there is one. *)
Inductive ProfileAnswer (Profile : Type) :=
| ProfileFound (id : string) (userData : Profile) (items_count : nat)   (* 200 *)
| NoProfile (code : nat) (message : string).
Arguments ProfileFound {Profile} id userData items_count.
Arguments NoProfile {Profile} code message.

Definition getUserProfile {Profile : Type} (users : string -> option Profile)
  (id : string) (w : World) : ProfileAnswer Profile * World :=
  match
    (if String.eqb id "" then ret (NoProfile 400 "User ID is required")
     else
       userDoc <- (remoteCall ;;; ret (users id)) ;;
       match userDoc with
       | None => ret (NoProfile 404 "User not found")
       | Some userData =>
           itemsSnapshot <- queryItemsPostedBy id ;;
           ret (ProfileFound id userData (List.length itemsSnapshot))
       end) w
  with
  | (Return r, w') => (r, w')
  | (Throw _, w') => (NoProfile 500 "Failed to fetch user", w')
  end.

(** ** firebase.js: authenticateUser *)

(** [String.prototype.split] with a separator of one character or more:
    the pieces between the occurrences of the separator, found from left
    to right. [skip] is the number of characters of an occurrence just
    found that are still to be passed over. *)
Fixpoint splitOnFrom (sep : string) (skip : nat) (s : string) : list string :=
  match s with
  | EmptyString => [EmptyString]
  | String c s' =>
      match skip with
      | S k => splitOnFrom sep k s'
      | 0 =>
          if String.prefix sep s
          then EmptyString :: splitOnFrom sep (String.length sep - 1) s'
          else match splitOnFrom sep 0 s' with
               | w :: ws => String c w :: ws
               | [] => [String c EmptyString]
               end
      end
  end.

Definition splitOn (sep s : string) : list string := splitOnFrom sep 0 s.

(** What [admin.auth().verifyIdToken] resolves to. *)
Record DecodedToken := {
  token_uid : string;
  token_email : option string;
  token_email_verified : option bool
}.

(** [req.user] *)
Record User := {
  user_uid : string;
  user_email : option string;
  user_email_verified : option bool
}.

(** The middleware calls [next()] with [req.user] set, or answers 401. *)
Inductive AuthAnswer :=
| Next (user : User)
| Unauthorized (message : string).

(** The message for the [error.code] of a failed verification. *)
Definition authMessage (code : string) : string :=
  if String.eqb code "auth/id-token-expired"
  then "Token has expired. Please login again."
  else if String.eqb code "auth/invalid-id-token"
  then "Invalid token. Please provide a valid authentication token."
  else "Authentication failed. Please provide a valid token.".

(** Lines 36-82 of firebase.js. [verifyIdToken] is the verification of the
    identity service: it gives the decoded token, or the code of its
    error; [authorization] is [req.headers.authorization]. *)
Definition authenticateUser (verifyIdToken : string -> string + DecodedToken)
  (authorization : option string) : AuthAnswer :=
  if negb (truthy authorization) || negb (String.prefix "Bearer " (str authorization))
  then Unauthorized "Access token required. Please provide a valid Bearer token."
  else
    match nth_error (splitOn "Bearer " (str authorization)) 1 with
    | None => Unauthorized (authMessage "auth/argument-error")
    | Some token =>
        match verifyIdToken token with
        | inr decodedToken =>
            Next (Build_User (token_uid decodedToken) (token_email decodedToken)
                             (token_email_verified decodedToken))
        | inl code => Unauthorized (authMessage code)
        end
    end.

(** ** Auxiliary definitions for the statements *)

(** The words of a description, as lines 90-91 compute them. *)
Definition words (v : option string) : list string :=
  split " " (toLowerCase (str v)).

(** A check that no word is repeated. *)
Fixpoint distinct (l : list string) : bool :=
  match l with
  | [] => true
  | w :: rest => negb (arrayIncludes rest w) && distinct rest
  end.

(** An item used in the examples. *)
Definition sampleItem (title description location : option string)
  (status poster : string) : Item.t :=
  Item.mk title description "Bags" "" location "" poster status (At 0).

(** Whether the next remote call is rejected, and the world once a remote
    call has been answered. *)
Definition nextFails (w : World) : bool :=
  match outages w with
  | true :: _ => true
  | _ => false
  end.

Definition answered (w : World) : World := withOutages (tail (outages w)) w.

(** The services accept the next [n] calls. *)
Definition accepts (n : nat) (w : World) : bool :=
  forallb negb (take n (outages w)).

(** Alice has lost a backpack (document 0 of the items). *)
Definition backpackItem : Item.t :=
  Item.mk (Some "Blue Backpack") (Some "blue bag with a zip") "Bags" ""
          (Some "Library") "" "alice" "Lost" (At 0).

Definition boardWithBackpack : World :=
  Build_World {[0 := backpackItem]} ∅ ∅ [] 1 [] [].

(** Bob reports a backpack he found. *)
Definition foundBackpack : Item.t :=
  Item.mk (Some "backpack") (Some "a blue zip bag") "Bags" ""
          (Some "library") "" "bob" "Found" ServerTimestamp.

(** The documents the query of lines 72-76 finds in a world. *)
Definition candidates (newItemData : Item.t) (w : World) : list (DocId * Item.t) :=
  filter (fun d => Item.category d.2 = Item.category newItemData /\
                   Item.status d.2 =
                     (if String.eqb (Item.status newItemData) "Lost" then "Found" else "Lost"))
         (map_to_list (items w)).

(** [w'] has every match and notification of [w], unchanged, and the same
    items. *)
Definition extends (w w' : World) : Prop :=
  matches w ⊆ matches w' /\ notifications w ⊆ notifications w' /\
  items w' = items w.

(** The match that [info] reports and a notification for it are in the
    store. *)
Definition recorded (w : World) (info : MatchInfo.t) : Prop :=
  exists (m : Match.t) (notificationId : DocId) (n : Notification.t),
    matches w !! MatchInfo.match_id info = Some m /\
    Match.status m = "Pending" /\
    Match.confidence_score m = MatchInfo.confidence_score info /\
    notifications w !! notificationId = Some n /\
    Notification.match_id n = MatchInfo.match_id info.

(** Carol has lost a backpack too (document 1), and the store goes down
    after three calls. *)
Definition carolsBackpack : Item.t :=
  Item.mk (Some "Backpack") (Some "zip bag") "Bags" ""
          (Some "Library") "" "carol" "Lost" (At 1).

Definition boardGoingDown : World :=
  Build_World {[0 := backpackItem; 1 := carolsBackpack]} ∅ ∅ [] 2 []
              [false; false; false; true].

(** A set of keys somebody handed in, in another place. *)
Definition foundKeys : Item.t :=
  Item.mk (Some "keys") (Some "three keys on a ring") "Bags" ""
          (Some "Gym") "" "bob" "Found" ServerTimestamp.

(** A form field that is absent or the empty string: what [!field] tests. *)
Definition missing (v : option string) : Prop := v = None \/ v = Some "".

(** A form field that is absent or empty once trimmed. *)
Definition blank (v : option string) : Prop :=
  match v with
  | None => True
  | Some s => trim s = ""
  end.

(** A report whose title is three spaces. *)
Definition blankTitleForm : ItemForm :=
  Build_ItemForm (Some "   ") None (Some "Bags") None None (Some "Found").

(** The number of calls to the bucket and to Firestore that POST /items
    makes before it generates the matches. *)
Definition callsBeforeMatching (file : option UploadedFile) : nat :=
  match file with
  | Some _ => 3
  | None => 1
  end.

(** [itemData] of lines 224-234. *)
Definition itemDataOf (body : ItemForm) (image_url uid : string) : Item.t :=
  Item.mk (Some (trim (str (form_title body))))
          (Some (trimOrEmpty (form_description body)))
          (trim (str (form_category body)))
          (trimOrEmpty (form_contact_info body))
          (Some (trimOrEmpty (form_location body)))
          image_url uid (str (form_status body)) ServerTimestamp.

(** Bob's report as a form, and the board with a store that takes one more
    call and then is down. *)
Definition foundBackpackForm : ItemForm :=
  Build_ItemForm (Some "backpack") (Some "a blue zip bag") (Some "Bags") None
                 (Some "library") (Some "Found").

Definition boardDownAfterOne : World :=
  Build_World {[0 := backpackItem]} ∅ ∅ [] 1 [] [false; true].

(** The board once Bob's report has been matched with Alice's backpack:
    items 0 and 1, match 0, notification 0 for Alice. *)
Definition storedFoundBackpack : Item.t :=
  Item.mk (Some "backpack") (Some "a blue zip bag") "Bags" ""
          (Some "library") "" "bob" "Found" (At 1).

Definition pendingMatch : Match.t := Match.mk 0 1 80 "Pending" (At 2) None.

Definition aliceNotification : Notification.t :=
  Notification.mk "alice" "Potential match found for your found item: backpack"
                  false (At 3) 0 None.

Definition matchedBoard : World :=
  Build_World {[0 := backpackItem; 1 := storedFoundBackpack]}
              {[0 := pendingMatch]} {[0 := aliceNotification]} [] 4 [] [].

(** The statuses PUT /matches/:id/status takes (line 472). *)
Definition matchStatuses : list string := ["Pending"; "Confirmed"; "Rejected"].

(** [userOwnsItem] of lines 497-498, on the items the world has. *)
Definition userOwnsItem (m : Match.t) (uid : string) (w : World) : bool :=
  postedBy (items w !! Match.lost_item_id m) uid ||
  postedBy (items w !! Match.found_item_id m) uid.

(** The world once the store has written the new status of a match
    (lines 507-510), after the three reads. *)
Definition statusWritten (id : DocId) (s : string) (m : Match.t) (w : World) : World :=
  tick (withMatches
          <[id := Match.resolvePatch (clock w) (Match.setStatus s ServerTimestamp m)]>
          (answered (answered (answered (answered w))))).

(** Lines 514-517. *)
Definition returnItems (m : Match.t) : Async (unit * unit) :=
  promiseAll2 (updateItem (Match.lost_item_id m) (Item.setStatus "Returned"))
              (updateItem (Match.found_item_id m) (Item.setStatus "Returned")).

(** The [k]-th remote call from now on is rejected. *)
Definition rejectsCall (k : nat) (w : World) : bool := nth k (outages w) false.

(** The state a confirmation aims at: the match Confirmed, its two items
    Returned. *)
Definition confirmedState (id : DocId) (m : Match.t) (w : World) : Prop :=
  Match.status <$> matches w !! id = Some "Confirmed" /\
  Item.status <$> items w !! Match.lost_item_id m = Some "Returned" /\
  Item.status <$> items w !! Match.found_item_id m = Some "Returned".

(** The board with the match confirmed and both items returned. *)
Definition confirmedBoard : World :=
  Build_World {[0 := Item.setStatus "Returned" backpackItem;
                1 := Item.setStatus "Returned" storedFoundBackpack]}
              {[0 := Match.mk 0 1 80 "Confirmed" (At 2) (Some (At 4))]}
              {[0 := aliceNotification]} [] 7 [] [].

(** The board where Alice's item is gone from the store. *)
Definition boardWithoutLostItem : World :=
  Build_World {[1 := storedFoundBackpack]}
              {[0 := pendingMatch]} {[0 := aliceNotification]} [] 4 [] [].

(** The candidates for which line 106 takes the branch. *)
Definition qualifies (newItemData : Item.t) (doc : DocId * Item.t) : bool :=
  match confidenceScore doc.2 newItemData with
  | Return s => (30 <=? s)%nat
  | Throw _ => false
  end.

(** The store of [w'] is the store of [w]: a reading route may only use up
    the outage schedule. *)
Definition sameStore (w w' : World) : Prop :=
  items w' = items w /\ matches w' = matches w /\
  notifications w' = notifications w /\ bucket w' = bucket w /\
  clock w' = clock w.

(** The match and the notification of lines 107-125, as the store holds
    them when they are written at time [t]. *)
Definition newMatch (newItemId : DocId) (newItemData : Item.t)
  (doc : DocId * Item.t) (s t : nat) : Match.t :=
  Match.mk (if String.eqb (Item.status newItemData) "Lost" then newItemId else doc.1)
           (if String.eqb (Item.status newItemData) "Found" then newItemId else doc.1)
           s "Pending" (At t) None.

Definition newNotification (newItemData : Item.t) (doc : DocId * Item.t)
  (matchRef : DocId) (t : nat) : Notification.t :=
  Notification.mk (Item.posted_by doc.2)
    ("Potential match found for your " ^^ toLowerCase (Item.status newItemData)
       ^^ " item: " ^^ doubleQuote ^^ default "undefined" (Item.title newItemData)
       ^^ doubleQuote)
    false (At t) matchRef None.

(** What a match reported by [generateMatches] is in the store: the match
    pairs the new item with a candidate of the same category and of the
    opposite status, each on its side, and a notification for the match is
    addressed to the poster of the candidate. *)
Definition linked (newItemId : DocId) (newItemData : Item.t) (w : World)
  (info : MatchInfo.t) : Prop :=
  exists (m : Match.t) (candidate : Item.t) (notificationId : DocId)
         (n : Notification.t),
    matches w !! MatchInfo.match_id info = Some m /\
    items w !! MatchInfo.matched_item_id info = Some candidate /\
    Item.category candidate = Item.category newItemData /\
    Item.status candidate =
      (if String.eqb (Item.status newItemData) "Lost" then "Found" else "Lost") /\
    Match.lost_item_id m =
      (if String.eqb (Item.status newItemData) "Lost" then newItemId
       else MatchInfo.matched_item_id info) /\
    Match.found_item_id m =
      (if String.eqb (Item.status newItemData) "Found" then newItemId
       else MatchInfo.matched_item_id info) /\
    Match.status m = "Pending" /\
    Match.confidence_score m = MatchInfo.confidence_score info /\
    30 <= MatchInfo.confidence_score info /\
    notifications w !! notificationId = Some n /\
    Notification.match_id n = MatchInfo.match_id info /\
    Notification.user_id n = Item.posted_by candidate /\
    Notification.is_read n = false.

(** The requests the router serves on the store, and the store after a
    request, and after a sequence of requests. *)
Inductive Request :=
| PostItem (body : ItemForm) (file : option UploadedFile) (uid : string)
| PutNotificationRead (id : DocId) (uid : string)
| PutMatchStatus (id : DocId) (status : option string) (uid : string)
| GetItems (status category : option string)
| GetNotifications (uid : string) (is_read : option string)
| GetMatches (uid : string).

Definition serve (r : Request) (w : World) : World :=
  match r with
  | PostItem body file uid => (createItem body file uid w).2
  | PutNotificationRead id uid => (markRead id uid w).2
  | PutMatchStatus id status uid => (updateMatchStatus id status uid w).2
  | GetItems status category => (listItems status category w).2
  | GetNotifications uid is_read => (listNotifications uid is_read w).2
  | GetMatches uid => (listMatches uid w).2
  end.

Definition serveAll (rs : list Request) (w : World) : World :=
  List.fold_left (fun w r => serve r w) rs w.

(** The statuses an item can have. *)
Definition itemStatuses : list string := ["Lost"; "Found"; "Returned"].

(** A store is consistent when every match has a score from 30 to 90 and a
    status of the list, and pairs two different items that are in the
    store; every notification is for a match that is in the store; every
    item has one of the three statuses. *)
Definition consistent (w : World) : Prop :=
  (forall id m, matches w !! id = Some m ->
     30 <= Match.confidence_score m <= 90 /\
     In (Match.status m) matchStatuses /\
     is_Some (items w !! Match.lost_item_id m) /\
     is_Some (items w !! Match.found_item_id m) /\
     Match.lost_item_id m <> Match.found_item_id m) /\
  (forall id n, notifications w !! id = Some n ->
     is_Some (matches w !! Notification.match_id n)) /\
  (forall id i, items w !! id = Some i -> In (Item.status i) itemStatuses).

(** How a stored item, match or notification may differ later on. *)
Definition itemStep (i i' : Item.t) : Prop :=
  Item.title i' = Item.title i /\ Item.description i' = Item.description i /\
  Item.category i' = Item.category i /\ Item.contact_info i' = Item.contact_info i /\
  Item.location i' = Item.location i /\ Item.image_url i' = Item.image_url i /\
  Item.posted_by i' = Item.posted_by i /\ Item.date i' = Item.date i /\
  (Item.status i' = Item.status i \/ Item.status i' = "Returned").

Definition matchStep (m m' : Match.t) : Prop :=
  Match.lost_item_id m' = Match.lost_item_id m /\
  Match.found_item_id m' = Match.found_item_id m /\
  Match.confidence_score m' = Match.confidence_score m /\
  Match.created_at m' = Match.created_at m /\
  (Match.status m' = Match.status m \/ In (Match.status m') matchStatuses).

Definition notificationStep (n n' : Notification.t) : Prop :=
  Notification.user_id n' = Notification.user_id n /\
  Notification.message n' = Notification.message n /\
  Notification.match_id n' = Notification.match_id n /\
  Notification.created_at n' = Notification.created_at n /\
  (Notification.is_read n = true -> Notification.is_read n' = true).

(** Every document of [w] is still in [w'], changed at most as the steps
    allow. *)
Definition evolves (w w' : World) : Prop :=
  (forall id i, items w !! id = Some i ->
     exists i', items w' !! id = Some i' /\ itemStep i i') /\
  (forall id m, matches w !! id = Some m ->
     exists m', matches w' !! id = Some m' /\ matchStep m m') /\
  (forall id n, notifications w !! id = Some n ->
     exists n', notifications w' !! id = Some n' /\ notificationStep n n').

(** A store without documents. *)
Definition emptyBoard (entropy : list nat) (outages : list bool) : World :=
  Build_World ∅ ∅ ∅ [] 0 entropy outages.

(** The same items, each changed at most as [itemStep] allows. *)
Definition itemsEvolve (its its' : gmap DocId Item.t) : Prop :=
  forall k, option_Forall2 itemStep (its !! k) (its' !! k).

(** What GET /matches shows for a match document, from the items of the
    store: nothing when one of its two items is not there. *)
Definition viewOf (w : World) (matchDoc : DocId * Match.t) : option MatchView.t :=
  match items w !! Match.lost_item_id matchDoc.2,
        items w !! Match.found_item_id matchDoc.2 with
  | Some lostItem, Some foundItem =>
      Some (MatchView.mk matchDoc.1 matchDoc.2
              (summaryOf (Match.lost_item_id matchDoc.2) lostItem)
              (summaryOf (Match.found_item_id matchDoc.2) foundItem))
  | _, _ => None
  end.

(** A view shows a match of the store, with its two items, one of which at
    least was posted by [uid]. *)
Definition visibleTo (uid : string) (w : World) (v : MatchView.t) : Prop :=
  viewOf w (MatchView.id v, MatchView.matchData v) = Some v /\
  matches w !! MatchView.id v = Some (MatchView.matchData v) /\
  exists lostItem foundItem,
    items w !! Match.lost_item_id (MatchView.matchData v) = Some lostItem /\
    items w !! Match.found_item_id (MatchView.matchData v) = Some foundItem /\
    (Item.posted_by lostItem = uid \/ Item.posted_by foundItem = uid).

(** The ids of the items [uid] posted, as line 399 computes them. *)
Definition userItemIds (uid : string) (w : World) : list DocId :=
  map fst (List.filter (fun d => String.eqb (Item.posted_by d.2) uid)
                       (map_to_list (items w))).

(** A board where Alice posted both the lost and the found backpack. *)
Definition alicesFoundBackpack : Item.t :=
  Item.mk (Some "backpack") (Some "a blue zip bag") "Bags" ""
          (Some "library") "" "alice" "Found" (At 1).

Definition ownBoard : World :=
  Build_World {[0 := backpackItem; 1 := alicesFoundBackpack]}
              {[0 := pendingMatch]} {[0 := aliceNotification]} [] 4 [] [].

(** A board where Alice has posted one item more than an [in] filter
    takes values. *)
Definition crowdedBoard : World :=
  Build_World (list_to_map (map (fun k => (k, backpackItem)) (seq 0 (S inFilterLimit))))
              ∅ ∅ [] (S inFilterLimit) [] [].

(** The number of items of the store that [id] posted: the size of the
    snapshot of lines 287-289. *)
Definition itemsPostedBy (id : string) (w : World) : nat :=
  List.length (List.filter (fun d : DocId * Item.t => String.eqb (Item.posted_by d.2) id)
                           (map_to_list (items w))).












(** * Properties *)

(** ** Strings *)

Example toLowerCase_ex : toLowerCase "Blue BackPack 7" = "blue backpack 7".
Proof. reflexivity. Qed.

Example includes_ex :
  includes "blue backpack" "backpack" = true /\
  includes "backpack" "blue backpack" = false /\
  includes "keys" "" = true /\ includes "" "" = true.
Proof. repeat split; reflexivity. Qed.

Example split_ex :
  split " " "red  bag " = ["red"; ""; "bag"; ""] /\ split " " "" = [""].
Proof. split; reflexivity. Qed.

Example trim_ex : trim "  a b  " = "a b" /\ trim "   " = "".
Proof. split; reflexivity. Qed.

Lemma truthy_Some (v : option string) :
  truthy v = true -> exists s, v = Some s /\ s <> "".
Proof.
  destruct v as [s|]; simpl; [|discriminate].
  intros H. exists s. split; [reflexivity|].
  intros ->. discriminate.
Qed.

Lemma truthy_absent : truthy None = false.
Proof. reflexivity. Qed.

Lemma truthy_empty : truthy (Some "") = false.
Proof. reflexivity. Qed.

Lemma arrayIncludes_In (l : list string) (w : string) :
  arrayIncludes l w = true <-> In w l.
Proof.
  unfold arrayIncludes. rewrite existsb_exists. split.
  - intros (x & Hx & Heq). apply String.eqb_eq in Heq. now subst.
  - intros Hw. exists w. split; [assumption|apply String.eqb_refl].
Qed.

(** ** The scoring of lines 81-103 *)

Lemma distinct_NoDup (l : list string) : distinct l = true -> NoDup l.
Proof.
  induction l as [|w rest IH]; simpl; intros H.
  - constructor.
  - apply andb_true_iff in H as [Hw Hrest]. constructor.
    + rewrite list_elem_of_In, <- arrayIncludes_In.
      now destruct (arrayIncludes rest w).
    + now apply IH.
Qed.

(** Two lists without repetition have as many elements of the one in the
    other as of the other in the one. *)
Lemma commonWords_length_sym (l1 l2 : list string) :
  NoDup l1 -> NoDup l2 ->
  List.length (List.filter (arrayIncludes l2) l1) =
  List.length (List.filter (arrayIncludes l1) l2).
Proof.
  intros H1 H2. apply Permutation_length, NoDup_Permutation.
  - apply NoDup_ListNoDup, List.NoDup_filter. now apply NoDup_ListNoDup.
  - apply NoDup_ListNoDup, List.NoDup_filter. now apply NoDup_ListNoDup.
  - intros x. rewrite !list_elem_of_In, !filter_In, !arrayIncludes_In. tauto.
Qed.

Lemma titleFactor_sym (a b : option string) : titleFactor a b = titleFactor b a.
Proof.
  destruct a as [x|], b as [y|]; simpl; try reflexivity.
  now rewrite orb_comm.
Qed.

Lemma locationFactor_sym (a b : option string) :
  locationFactor a b = locationFactor b a.
Proof.
  unfold locationFactor. rewrite (andb_comm (truthy a)).
  destruct (truthy b && truthy a); [|reflexivity].
  rewrite (String.eqb_sym (toLowerCase (str a))).
  rewrite (orb_comm (includes (toLowerCase (str a)) _)).
  reflexivity.
Qed.

Lemma descriptionFactor_sym (a b : option string) :
  NoDup (words a) -> NoDup (words b) ->
  descriptionFactor a b = descriptionFactor b a.
Proof.
  intros Ha Hb. unfold descriptionFactor. rewrite (andb_comm (truthy a)).
  destruct (truthy b && truthy a); [|reflexivity].
  cbv zeta. fold (words a) (words b).
  now rewrite (commonWords_length_sym (words b) (words a)).
Qed.

Lemma descriptionFactor_le (a b : option string) : descriptionFactor a b <= 30.
Proof. unfold descriptionFactor. destruct (truthy a && truthy b); cbv zeta; lia. Qed.

Lemma descriptionFactor_guard (a b : option string) :
  truthy a = false \/ truthy b = false -> descriptionFactor a b = 0.
Proof.
  unfold descriptionFactor. intros [-> | ->]; [reflexivity|].
  now rewrite andb_false_r.
Qed.

Lemma locationFactor_guard (a b : option string) :
  truthy a = false \/ truthy b = false -> locationFactor a b = 0.
Proof.
  unfold locationFactor. intros [-> | ->]; [reflexivity|].
  now rewrite andb_false_r.
Qed.

Lemma includes_empty (s : string) : includes s "" = true.
Proof. destruct s; reflexivity. Qed.

(** The title comparison has no guard: an empty title, on either side, is
    included in every title and earns the forty points; an absent title
    makes the comparison throw. *)
Lemma titleFactor_empty (t : string) :
  titleFactor (Some t) (Some "") = Return 40 /\
  titleFactor (Some "") (Some t) = Return 40.
Proof.
  unfold titleFactor. cbn [toLowerCase]. rewrite includes_empty.
  split; [reflexivity|]. now rewrite orb_true_r.
Qed.

Lemma titleFactor_absent (t : option string) :
  titleFactor None t = Throw TypeError /\ titleFactor t None = Throw TypeError.
Proof. destruct t; split; reflexivity. Qed.

(** C3, the code at the failing input: Bob posts a report whose title is
    three spaces. It is stored with the empty title, and against Alice's
    backpack the title factor is 40, not 0; the description and location
    factors are 0, as the missing-field policy has it, so the score is 40
    and a match and a notification are made for a report without a title. *)
Theorem blank_title_scores_forty :
  let newItem := itemDataOf blankTitleForm "" "bob" in
  Item.title newItem = Some "" /\
  titleFactor (Item.title backpackItem) (Item.title newItem) = Return 40 /\
  descriptionFactor (Item.description backpackItem) (Item.description newItem) = 0 /\
  locationFactor (Item.location backpackItem) (Item.location newItem) = 0 /\
  confidenceScore backpackItem newItem = Return 40 /\
  exists w',
    createItem blankTitleForm None "bob" boardWithBackpack =
      (Created 1 newItem 1 [MatchInfo.mk 0 40 0 (Some "Blue Backpack")
                              (Some "blue bag with a zip")], w') /\
    Match.confidence_score <$> matches w' !! 0 = Some 40 /\
    Notification.user_id <$> notifications w' !! 0 = Some "alice".
Proof.
  repeat split; try reflexivity.
  eexists. repeat split; vm_compute; reflexivity.
Qed.

(** C3, the other side of the same defect: a candidate without a title
    makes the scoring throw, and the scan stops there. *)
Lemma absent_title_throws (newItemId : DocId) (newItemData existingItem : Item.t)
  (id : DocId) (w : World) :
  Item.title existingItem = None ->
  confidenceScore existingItem newItemData = Throw TypeError /\
  scanCandidate newItemId newItemData (id, existingItem) w = (Throw TypeError, w).
Proof.
  intros Ht. unfold scanCandidate, bind, lift, confidenceScore. cbn [snd].
  rewrite Ht. split; reflexivity.
Qed.

(** C4, counterexample: with the same six-fold word on one side only, the
    description factor is 30 one way round and 5 the other, and so is the
    whole score. *)
Lemma confidenceScore_not_symmetric :
  let a := sampleItem (Some "umbrella") (Some "red red red red red red") (Some "")
                      "Lost" "alice" in
  let b := sampleItem (Some "scarf") (Some "red") (Some "") "Found" "bob" in
  descriptionFactor (Item.description a) (Item.description b) = 5 /\
  descriptionFactor (Item.description b) (Item.description a) = 30 /\
  confidenceScore a b = Return 5 /\
  confidenceScore b a = Return 30 /\
  confidenceScore a b <> confidenceScore b a.
Proof. repeat split; try reflexivity. discriminate. Qed.

(** C4, amended: the title factor and the location factor are the same
    whichever item plays the existing role; the description factor counts
    the words of the new description (each occurrence) found in the existing
    one, and is the same both ways round when neither description repeats a
    word, and then so is the confidence score. *)
Theorem confidenceScore_symmetric (a b : Item.t) :
  titleFactor (Item.title a) (Item.title b) =
    titleFactor (Item.title b) (Item.title a) /\
  locationFactor (Item.location a) (Item.location b) =
    locationFactor (Item.location b) (Item.location a) /\
  (NoDup (words (Item.description a)) -> NoDup (words (Item.description b)) ->
   descriptionFactor (Item.description a) (Item.description b) =
     descriptionFactor (Item.description b) (Item.description a) /\
   confidenceScore a b = confidenceScore b a).
Proof.
  split; [apply titleFactor_sym|]. split; [apply locationFactor_sym|].
  intros Ha Hb.
  pose proof (descriptionFactor_sym _ _ Ha Hb) as Hd.
  split; [exact Hd|].
  unfold confidenceScore.
  rewrite (titleFactor_sym (Item.title a)), Hd,
    (locationFactor_sym (Item.location a)).
  reflexivity.
Qed.

Lemma confidenceScore_symmetric_witness :
  let a := sampleItem (Some "Blue Backpack") (Some "blue bag with a zip")
                      (Some "Library") "Lost" "alice" in
  let b := sampleItem (Some "backpack") (Some "a blue zip bag") (Some "library")
                      "Found" "bob" in
  NoDup (words (Item.description a)) /\ NoDup (words (Item.description b)) /\
  confidenceScore a b = confidenceScore b a /\ confidenceScore a b = Return 80.
Proof.
  assert (Ha : NoDup (words (Some "blue bag with a zip"))).
  { now apply distinct_NoDup. }
  assert (Hb : NoDup (words (Some "a blue zip bag"))).
  { now apply distinct_NoDup. }
  split; [exact Ha|]. split; [exact Hb|]. split.
  - exact (proj2 (proj2 (proj2 (confidenceScore_symmetric
             (sampleItem (Some "Blue Backpack") (Some "blue bag with a zip")
                         (Some "Library") "Lost" "alice")
             (sampleItem (Some "backpack") (Some "a blue zip bag") (Some "library")
                         "Found" "bob"))) Ha Hb)).
  - reflexivity.
Defined.

(** ** The world and the remote calls *)

Lemma remoteCall_eq (w : World) :
  remoteCall w =
  (if nextFails w then Throw ServiceError else Return tt, answered w).
Proof.
  destruct w as [its ms ns bk ck en os].
  unfold remoteCall, nextFails, answered, withOutages; simpl.
  destruct os as [|[] os]; reflexivity.
Qed.

Lemma accepts_S (n : nat) (w : World) :
  accepts (S n) w = true <-> nextFails w = false /\ accepts n (answered w) = true.
Proof.
  destruct w as [its ms ns bk ck en os].
  unfold accepts, nextFails, answered, withOutages; simpl.
  destruct os as [|[] os]; simpl.
  - rewrite take_nil. simpl. tauto.
  - split; [discriminate|]. intros [? _]. discriminate.
  - tauto.
Qed.

Create Rewrite HintDb world.

Lemma accepts_tick (n : nat) (w : World) : accepts n (tick w) = accepts n w.
Proof. reflexivity. Qed.
Lemma accepts_withItems n f w : accepts n (withItems f w) = accepts n w.
Proof. reflexivity. Qed.
Lemma accepts_withMatches n f w : accepts n (withMatches f w) = accepts n w.
Proof. reflexivity. Qed.
Lemma accepts_withNotifications n f w :
  accepts n (withNotifications f w) = accepts n w.
Proof. reflexivity. Qed.
Lemma nextFails_tick w : nextFails (tick w) = nextFails w.
Proof. reflexivity. Qed.
Lemma nextFails_withItems f w : nextFails (withItems f w) = nextFails w.
Proof. reflexivity. Qed.
Lemma nextFails_withMatches f w : nextFails (withMatches f w) = nextFails w.
Proof. reflexivity. Qed.
Lemma nextFails_withNotifications f w :
  nextFails (withNotifications f w) = nextFails w.
Proof. reflexivity. Qed.

Ltac world_simpl :=
  cbn [items matches notifications bucket clock entropy outages tick withItems
       withMatches withNotifications withBucket withEntropy withOutages answered] in *.

Lemma accepts_withBucket n f w : accepts n (withBucket f w) = accepts n w.
Proof. reflexivity. Qed.
Lemma accepts_withEntropy n l w : accepts n (withEntropy l w) = accepts n w.
Proof. reflexivity. Qed.
Lemma nextFails_withBucket f w : nextFails (withBucket f w) = nextFails w.
Proof. reflexivity. Qed.
Lemma nextFails_withEntropy l w : nextFails (withEntropy l w) = nextFails w.
Proof. reflexivity. Qed.

#[local] Hint Rewrite accepts_withBucket accepts_withEntropy nextFails_withBucket
  nextFails_withEntropy : world.
#[local] Hint Rewrite accepts_tick accepts_withItems accepts_withMatches
  accepts_withNotifications nextFails_tick nextFails_withItems
  nextFails_withMatches nextFails_withNotifications : world.

(** The equations of the store operations. *)
Lemma setItem_eq id data w :
  setItem id data w =
  if nextFails w then (Throw ServiceError, answered w)
  else (Return tt, tick (withItems <[id := Item.resolve (clock w) data]> (answered w))).
Proof. unfold setItem, bind. rewrite remoteCall_eq. now destruct (nextFails w). Qed.

Lemma setMatch_eq id data w :
  setMatch id data w =
  if nextFails w then (Throw ServiceError, answered w)
  else (Return tt, tick (withMatches <[id := Match.resolve (clock w) data]> (answered w))).
Proof. unfold setMatch, bind. rewrite remoteCall_eq. now destruct (nextFails w). Qed.

Lemma setNotification_eq id data w :
  setNotification id data w =
  if nextFails w then (Throw ServiceError, answered w)
  else (Return tt,
        tick (withNotifications <[id := Notification.resolve (clock w) data]> (answered w))).
Proof. unfold setNotification, bind. rewrite remoteCall_eq. now destruct (nextFails w). Qed.

Lemma getItem_eq id w :
  getItem id w =
  if nextFails w then (Throw ServiceError, answered w)
  else (Return (items w !! id), answered w).
Proof. unfold getItem, bind. rewrite remoteCall_eq. now destruct (nextFails w). Qed.

Lemma getMatch_eq id w :
  getMatch id w =
  if nextFails w then (Throw ServiceError, answered w)
  else (Return (matches w !! id), answered w).
Proof. unfold getMatch, bind. rewrite remoteCall_eq. now destruct (nextFails w). Qed.

Lemma getNotification_eq id w :
  getNotification id w =
  if nextFails w then (Throw ServiceError, answered w)
  else (Return (notifications w !! id), answered w).
Proof. unfold getNotification, bind. rewrite remoteCall_eq. now destruct (nextFails w). Qed.

Lemma updateItem_eq id patch w :
  updateItem id patch w =
  if nextFails w then (Throw ServiceError, answered w)
  else match items w !! id with
       | None => (Throw NotFound, answered w)
       | Some i =>
           (Return tt, tick (withItems <[id := patch i]> (answered w)))
       end.
Proof. unfold updateItem, bind. rewrite remoteCall_eq. now destruct (nextFails w). Qed.

Lemma updateMatch_eq id patch w :
  updateMatch id patch w =
  if nextFails w then (Throw ServiceError, answered w)
  else match matches w !! id with
       | None => (Throw NotFound, answered w)
       | Some m =>
           (Return tt, tick (withMatches <[id := Match.resolvePatch (clock w) (patch m)]> (answered w)))
       end.
Proof. unfold updateMatch, bind. rewrite remoteCall_eq. now destruct (nextFails w). Qed.

Lemma updateNotification_eq id patch w :
  updateNotification id patch w =
  if nextFails w then (Throw ServiceError, answered w)
  else match notifications w !! id with
       | None => (Throw NotFound, answered w)
       | Some n =>
           (Return tt,
            tick (withNotifications <[id := Notification.resolvePatch (clock w) (patch n)]>
                    (answered w)))
       end.
Proof. unfold updateNotification, bind. rewrite remoteCall_eq. now destruct (nextFails w). Qed.

(** ** generateMatches, one candidate (lines 80-139) *)

Lemma fresh_match_id (w : World) : matches w !! fresh (dom (matches w)) = None.
Proof. apply not_elem_of_dom, is_fresh. Qed.

Lemma fresh_notification_id (w : World) :
  notifications w !! fresh (dom (notifications w)) = None.
Proof. apply not_elem_of_dom, is_fresh. Qed.

Lemma fresh_item_id (w : World) : items w !! fresh (dom (items w)) = None.
Proof. apply not_elem_of_dom, is_fresh. Qed.

(** The match and the notification that an iteration writes. *)
Lemma scanCandidate_eq newItemId newItemData doc w s :
  confidenceScore doc.2 newItemData = Return s ->
  30 <= s ->
  let status := Item.status newItemData in
  let matchRef := fresh (dom (matches w)) in
  let notificationRef := fresh (dom (notifications w)) in
  let created :=
    Match.mk (if String.eqb status "Lost" then newItemId else doc.1)
             (if String.eqb status "Found" then newItemId else doc.1)
             s "Pending" (At (clock w)) None in
  let notified :=
    Notification.mk (Item.posted_by doc.2)
      ("Potential match found for your " ^^ toLowerCase status ^^ " item: "
         ^^ doubleQuote ^^ default "undefined" (Item.title newItemData) ^^ doubleQuote)
      false (At (S (clock w))) matchRef None in
  let w1 := tick (withMatches <[matchRef := created]> (answered w)) in
  scanCandidate newItemId newItemData doc w =
  if nextFails w then (Throw ServiceError, answered w)
  else if nextFails w1 then (Throw ServiceError, answered w1)
  else (Return (Some (MatchInfo.mk matchRef s doc.1 (Item.title doc.2)
                        (Item.description doc.2))),
        tick (withNotifications <[notificationRef := notified]> (answered w1))).
Proof.
  intros Hs Hle. cbv zeta.
  unfold scanCandidate, bind, lift. rewrite Hs.
  apply Nat.leb_le in Hle. rewrite Hle.
  unfold createMatchRef. rewrite setMatch_eq.
  destruct (nextFails w); [reflexivity|].
  unfold createNotificationRef. rewrite setNotification_eq.
  unfold Match.resolve.
  cbn [Match.lost_item_id Match.found_item_id Match.confidence_score Match.status
       Match.created_at Match.updated_at resolveTimestamp fmap option_fmap option_map].
  match goal with |- context [nextFails ?x] => destruct (nextFails x) end;
    reflexivity.
Qed.

(** Below the threshold the iteration does nothing. *)
Lemma scanCandidate_below newItemId newItemData (doc : DocId * Item.t)
  (w : World) (s : nat) :
  confidenceScore doc.2 newItemData = Return s -> s < 30 ->
  scanCandidate newItemId newItemData doc w = (Return None, w).
Proof.
  intros Hs Hlt. unfold scanCandidate, bind, lift. rewrite Hs.
  apply Nat.leb_gt in Hlt. now rewrite Hlt.
Qed.

(** One iteration: for a candidate whose confidence score is below 30
    nothing is written at all; for a score of 30 or more, the store taking
    the two writes, exactly one match (Pending, with the score) and exactly
    one notification are added, the notification carrying the id of that
    match and addressed to the poster of the candidate. *)
Lemma scanCandidate_threshold newItemId newItemData (doc : DocId * Item.t)
  (w : World) (s : nat) :
  confidenceScore doc.2 newItemData = Return s ->
  (s < 30 -> scanCandidate newItemId newItemData doc w = (Return None, w)) /\
  (30 <= s -> accepts 2 w = true ->
   let matchRef := fresh (dom (matches w)) in
   let notificationRef := fresh (dom (notifications w)) in
   exists (w' : World) (created : Match.t) (notified : Notification.t),
     scanCandidate newItemId newItemData doc w =
       (Return (Some (MatchInfo.mk matchRef s doc.1 (Item.title doc.2)
                        (Item.description doc.2))), w') /\
     matches w !! matchRef = None /\
     matches w' = <[matchRef := created]> (matches w) /\
     size (matches w') = S (size (matches w)) /\
     Match.status created = "Pending" /\
     Match.confidence_score created = s /\
     notifications w !! notificationRef = None /\
     notifications w' = <[notificationRef := notified]> (notifications w) /\
     size (notifications w') = S (size (notifications w)) /\
     Notification.match_id notified = matchRef /\
     Notification.user_id notified = Item.posted_by doc.2 /\
     items w' = items w).
Proof.
  intros Hs. split.
  - intros Hlt. now apply (scanCandidate_below _ _ _ _ s).
  - intros Hle Hup. cbv zeta.
    rewrite (scanCandidate_eq newItemId newItemData doc w s Hs Hle).
    apply accepts_S in Hup as [-> Hup].
    autorewrite with world. apply accepts_S in Hup as [Hup _].
    autorewrite with world in Hup. rewrite Hup.
    eexists _, _, _. split; [reflexivity|].
    split; [apply fresh_match_id|]. split; [reflexivity|].
    split; [apply map_size_insert_None, fresh_match_id|].
    split; [reflexivity|]. split; [reflexivity|].
    split; [apply fresh_notification_id|]. split; [reflexivity|].
    split; [apply map_size_insert_None, fresh_notification_id|].
    repeat split.
Qed.

Lemma scanCandidate_threshold_witness :
  (confidenceScore backpackItem foundKeys = Return 5 /\
   scanCandidate 2 foundKeys (0, backpackItem) boardWithBackpack =
     (Return None, boardWithBackpack)) /\
  (confidenceScore backpackItem foundBackpack = Return 80 /\
   accepts 2 boardWithBackpack = true /\
   exists (w' : World) (created : Match.t) (notified : Notification.t),
     scanCandidate 2 foundBackpack (0, backpackItem) boardWithBackpack =
       (Return (Some (MatchInfo.mk 0 80 0 (Some "Blue Backpack")
                        (Some "blue bag with a zip"))), w') /\
     matches w' = {[0 := created]} /\
     Match.status created = "Pending" /\
     Match.confidence_score created = 80 /\
     notifications w' = {[0 := notified]} /\
     Notification.match_id notified = 0 /\
     Notification.user_id notified = "alice").
Proof.
  split.
  - split; [reflexivity|].
    apply (scanCandidate_threshold 2 foundKeys (0, backpackItem) boardWithBackpack 5
             eq_refl).
    lia.
  - split; [reflexivity|]. split; [reflexivity|].
    destruct (proj2 (scanCandidate_threshold 2 foundBackpack (0, backpackItem)
                       boardWithBackpack 80 eq_refl)
                ltac:(lia) eq_refl)
      as (w' & created & notified & Hrun & _ & Hm & _ & Hst & Hsc & _ & Hn & _ & Hid & Hu & _).
    exists w', created, notified.
    repeat split; assumption.
Defined.

(** ** generateMatches, the whole scan *)

Lemma extends_refl (w : World) : extends w w.
Proof. unfold extends. auto. Qed.

Lemma extends_trans (w1 w2 w3 : World) :
  extends w1 w2 -> extends w2 w3 -> extends w1 w3.
Proof.
  unfold extends. intros (Hm & Hn & Hi) (Hm' & Hn' & Hi').
  split; [by etrans|]. split; [by etrans|]. congruence.
Qed.

Lemma extends_answered (w : World) : extends w (answered w).
Proof. exact (extends_refl w). Qed.

Lemma recorded_extends (w w' : World) (info : MatchInfo.t) :
  extends w w' -> recorded w info -> recorded w' info.
Proof.
  intros (Hm & Hn & _) (m & nid & n & H1 & H2 & H3 & H4 & H5).
  exists m, nid, n. repeat split; try assumption.
  - eapply lookup_weaken; eassumption.
  - eapply lookup_weaken; eassumption.
Qed.

Lemma extends_new (w w' : World) (id : DocId) :
  extends w w' -> matches w' !! id = None -> matches w !! id = None.
Proof.
  intros (Hm & _) Hnone. destruct (matches w !! id) as [m|] eqn:E; [|reflexivity].
  rewrite (lookup_weaken _ _ _ _ E Hm) in Hnone. discriminate.
Qed.

(** An iteration only adds: whatever it returns or throws, the matches and
    notifications there were are still there. What it reports is in the
    store, under an id that was not in use. *)
Lemma scanCandidate_extends newItemId newItemData doc w r w' :
  scanCandidate newItemId newItemData doc w = (r, w') ->
  extends w w' /\
  (forall info, r = Return (Some info) ->
     recorded w' info /\ matches w !! MatchInfo.match_id info = None).
Proof.
  destruct (confidenceScore doc.2 newItemData) as [s|e] eqn:Hs.
  2:{ unfold scanCandidate, bind, lift. rewrite Hs. intros [= <- <-].
      split; [apply extends_refl|]. intros info [=]. }
  destruct (Nat.lt_ge_cases s 30) as [Hlt|Hle].
  { rewrite (scanCandidate_below newItemId newItemData doc w s Hs Hlt).
    intros [= <- <-]. split; [apply extends_refl|]. intros info [=]. }
  rewrite (scanCandidate_eq _ _ _ _ _ Hs Hle). autorewrite with world.
  assert (Hw1 : extends w (tick (withMatches
            <[fresh (dom (matches w)) :=
                Match.mk (if String.eqb (Item.status newItemData) "Lost" then newItemId else doc.1)
                         (if String.eqb (Item.status newItemData) "Found" then newItemId else doc.1)
                         s "Pending" (At (clock w)) None]> (answered w)))).
  { unfold extends. world_simpl. split; [|done].
    apply insert_subseteq, fresh_match_id. }
  destruct (nextFails w).
  { intros [= <- <-]. split; [apply extends_answered|]. intros info [=]. }
  destruct (nextFails (answered w)).
  { intros [= <- <-]. split; [exact Hw1|]. intros info [=]. }
  intros [= <- <-]. split.
  - eapply extends_trans; [exact Hw1|].
    unfold extends. world_simpl. split; [done|]. split; [|done].
    apply insert_subseteq, fresh_notification_id.
  - intros info [= <-]. split; [|apply fresh_match_id].
    unfold recorded. world_simpl.
    eexists _, _, _. split; [apply lookup_insert_eq|].
    split; [reflexivity|]. split; [reflexivity|].
    split; [apply lookup_insert_eq|]. reflexivity.
Qed.

Lemma scanDocs_app newItemId newItemData pre post acc w :
  scanDocs newItemId newItemData (pre ++ post) acc w =
  match scanDocs newItemId newItemData pre acc w with
  | (Return acc', w1) => scanDocs newItemId newItemData post acc' w1
  | (Throw e, w1) => (Throw e, w1)
  end.
Proof.
  revert acc w. induction pre as [|doc pre IH]; intros acc w; [reflexivity|].
  simpl. unfold bind.
  destruct (scanCandidate newItemId newItemData doc w) as [[pushed|e] w1];
    [apply IH|reflexivity].
Qed.

(** The scan only adds, and what it has pushed on [matches] is in the
    store, under ids that were not in use when the scan began. *)
Lemma scanDocs_extends newItemId newItemData docs acc w r w' (w0 : World) :
  scanDocs newItemId newItemData docs acc w = (r, w') ->
  extends w0 w ->
  Forall (fun info => recorded w info /\ matches w0 !! MatchInfo.match_id info = None) acc ->
  extends w0 w' /\
  (forall ms, r = Return ms ->
     Forall (fun info => recorded w' info /\ matches w0 !! MatchInfo.match_id info = None) ms).
Proof.
  revert acc w. induction docs as [|doc rest IH]; intros acc w Hrun Hext Hacc.
  - simpl in Hrun. injection Hrun as <- <-. split; [assumption|].
    now intros ms [= <-].
  - simpl in Hrun. unfold bind in Hrun.
    destruct (scanCandidate newItemId newItemData doc w) as [[pushed|e] w1] eqn:Hc.
    + apply scanCandidate_extends in Hc as [Hstep Hinfo].
      apply (IH _ _ Hrun); [by eapply extends_trans|].
      assert (Hacc' : Forall (fun info => recorded w1 info /\
                 matches w0 !! MatchInfo.match_id info = None) acc).
      { eapply Forall_impl; [exact Hacc|]. intros info [Hr Hn].
        split; [by eapply recorded_extends|assumption]. }
      destruct pushed as [info|]; [|assumption].
      apply Forall_app. split; [assumption|].
      constructor; [|constructor].
      destruct (Hinfo info eq_refl) as [Hr Hn].
      split; [assumption|]. by eapply extends_new.
    + injection Hrun as <- <-.
      apply scanCandidate_extends in Hc as [Hstep _].
      split; [by eapply extends_trans|]. intros ms [=].
Qed.

Lemma queryItems_eq newItemData w :
  queryItems (Item.category newItemData)
    (if String.eqb (Item.status newItemData) "Lost" then "Found" else "Lost") w =
  if nextFails w then (Throw ServiceError, answered w)
  else (Return (candidates newItemData w), answered w).
Proof. unfold queryItems, bind. rewrite remoteCall_eq. now destruct (nextFails w). Qed.

Lemma generateMatches_eq newItemId newItemData w :
  generateMatches newItemId newItemData w =
  match matchScan newItemId newItemData w with
  | (Return ms, w') => (Return ms, w')
  | (Throw _, w') => (Return [], w')
  end.
Proof. reflexivity. Qed.

(** [generateMatches] never rejects, and it only adds to the store. *)
Lemma generateMatches_total newItemId newItemData w :
  exists ms w', generateMatches newItemId newItemData w = (Return ms, w') /\
                extends w w'.
Proof.
  rewrite generateMatches_eq. unfold matchScan, bind. rewrite queryItems_eq.
  destruct (nextFails w).
  { eexists _, _. split; [reflexivity|apply extends_answered]. }
  destruct (scanDocs newItemId newItemData (candidates newItemData w) [] (answered w))
    as [r w'] eqn:Hrun.
  destruct (scanDocs_extends _ _ _ _ _ _ _ w Hrun (extends_answered _) (List.Forall_nil _))
    as [Hext _].
  destruct r; eexists _, _; (split; [reflexivity|exact Hext]).
Qed.

Lemma scanDocs_only_adds newItemId newItemData docs acc w r w' :
  scanDocs newItemId newItemData docs acc w = (r, w') -> extends w w'.
Proof.
  revert acc w. induction docs as [|doc rest IH]; intros acc w Hrun.
  - injection Hrun as <- <-. apply extends_refl.
  - simpl in Hrun. unfold bind in Hrun.
    destruct (scanCandidate newItemId newItemData doc w) as [[pushed|e] w1] eqn:Hc;
      apply scanCandidate_extends in Hc as [Hstep _].
    + eapply extends_trans; [exact Hstep|]. eapply IH, Hrun.
    + now injection Hrun as <- <-.
Qed.

(** The whole scan, when no title is absent and the store takes every
    write: one match and one notification more for each candidate that
    scores 30 or more, and none for the others; the list returned names
    these candidates, in the order of the snapshot. *)
Lemma scanDocs_counts newItemId newItemData (docs : list (DocId * Item.t))
  (acc : list MatchInfo.t) (w : World) :
  Forall (fun d => exists s, confidenceScore d.2 newItemData = Return s) docs ->
  accepts (2 * List.length (List.filter (qualifies newItemData) docs)) w = true ->
  exists ms w',
    scanDocs newItemId newItemData docs acc w = (Return (acc ++ ms), w') /\
    map MatchInfo.matched_item_id ms =
      map fst (List.filter (qualifies newItemData) docs) /\
    size (matches w') = size (matches w) + List.length ms /\
    size (notifications w') = size (notifications w) + List.length ms.
Proof.
  revert acc w. induction docs as [|doc rest IH]; intros acc w Hscore Hup.
  - exists [], w. rewrite app_nil_r. repeat split; simpl; lia.
  - apply Forall_cons in Hscore as [[s Hs] Hrest].
    cbn [scanDocs List.filter] in *. unfold bind.
    unfold qualifies at 1 in Hup. unfold qualifies at 1. rewrite Hs in *.
    destruct (Nat.lt_ge_cases s 30) as [Hlt|Hle].
    + rewrite (scanCandidate_below _ _ _ _ s Hs Hlt).
      apply Nat.leb_gt in Hlt. rewrite Hlt in *.
      exact (IH acc w Hrest Hup).
    + rewrite (scanCandidate_eq _ _ _ _ s Hs Hle).
      apply Nat.leb_le in Hle. rewrite Hle in *. cbn [List.length] in Hup.
      replace (2 * S (List.length (List.filter (qualifies newItemData) rest)))
        with (S (S (2 * List.length (List.filter (qualifies newItemData) rest))))
        in Hup by lia.
      apply accepts_S in Hup as [-> Hup]. apply accepts_S in Hup as [H2 Hup].
      autorewrite with world. rewrite H2.
      match goal with
      | |- context [scanDocs _ _ rest ?acc' ?w1] =>
          destruct (IH acc' w1 Hrest Hup) as (ms & w' & Hrun & Hids & Hsm & Hsn)
      end.
      rewrite Hrun. eexists (_ :: ms), w'.
      split; [now rewrite <- app_assoc|].
      split; [cbn [map MatchInfo.matched_item_id fst]; now rewrite Hids|].
      world_simpl.
      rewrite map_size_insert_None in Hsm by apply fresh_match_id.
      rewrite map_size_insert_None in Hsn by apply fresh_notification_id.
      cbn [List.length]. lia.
Qed.

(** The documents of the snapshot are documents of the store, of the
    category of the new item and of the opposite status. *)
Lemma candidates_spec (newItemData : Item.t) (w : World) (doc : DocId * Item.t) :
  doc ∈ candidates newItemData w <->
  items w !! doc.1 = Some doc.2 /\
  Item.category doc.2 = Item.category newItemData /\
  Item.status doc.2 =
    (if String.eqb (Item.status newItemData) "Lost" then "Found" else "Lost").
Proof.
  unfold candidates. rewrite list_elem_of_filter.
  destruct doc as [id it]. rewrite elem_of_map_to_list. cbn [fst snd]. tauto.
Qed.

(** ** generateMatches, candidate by candidate *)














(** C9: the scan is not undone when it fails. If the first documents of the
    snapshot have been scanned, pushing at least one match, and the scan of
    the remaining ones throws, then [generateMatches] returns the empty
    list, yet every match pushed so far, with a notification for it, is in
    the store it leaves, under an id the store did not have before: the
    store has more matches than before the call. *)
Theorem generateMatches_not_atomic newItemId newItemData (w : World)
  (pre post : list (DocId * Item.t)) (acc : list MatchInfo.t) (w1 : World)
  (e : Exn) (w2 : World) :
  nextFails w = false ->
  candidates newItemData w = pre ++ post ->
  scanDocs newItemId newItemData pre [] (answered w) = (Return acc, w1) ->
  acc <> [] ->
  scanDocs newItemId newItemData post acc w1 = (Throw e, w2) ->
  generateMatches newItemId newItemData w = (Return [], w2) /\
  Forall (fun info => matches w !! MatchInfo.match_id info = None /\ recorded w2 info) acc /\
  size (matches w) < size (matches w2).
Proof.
  intros Hup Hdocs Hpre Hacc Hpost.
  assert (Hgen : generateMatches newItemId newItemData w = (Return [], w2)).
  { rewrite generateMatches_eq. unfold matchScan, bind.
    rewrite queryItems_eq, Hup, Hdocs, scanDocs_app, Hpre, Hpost. reflexivity. }
  destruct (scanDocs_extends _ _ _ _ _ _ _ w Hpre (extends_answered _)
              (List.Forall_nil _)) as [Hw1 Hrec].
  specialize (Hrec acc eq_refl).
  pose proof (scanDocs_only_adds _ _ _ _ _ _ _ Hpost) as Hw2.
  assert (Hall : Forall (fun info => matches w !! MatchInfo.match_id info = None /\
                                     recorded w2 info) acc).
  { eapply Forall_impl; [exact Hrec|]. intros info [Hr Hn].
    split; [assumption|]. by eapply recorded_extends. }
  split; [exact Hgen|]. split; [exact Hall|].
  destruct acc as [|info acc']; [congruence|].
  apply Forall_cons in Hall as [[Hnew (m & _ & _ & Hm & _)] _].
  apply map_subset_size, map_subset_alt. split.
  - apply (extends_trans _ _ _ Hw1 Hw2).
  - exists (MatchInfo.match_id info). split; [assumption|]. by eexists.
Qed.

Lemma generateMatches_not_atomic_witness :
  exists w2 : World,
    generateMatches 2 foundBackpack boardGoingDown = (Return [], w2) /\
    size (matches boardGoingDown) < size (matches w2).
Proof.
  edestruct (generateMatches_not_atomic 2 foundBackpack boardGoingDown
               [(1, carolsBackpack)] [(0, backpackItem)]) as (Hg & _ & Hsz).
  - reflexivity.
  - vm_compute. reflexivity.
  - vm_compute. reflexivity.
  - discriminate.
  - vm_compute. reflexivity.
  - eexists. split; [exact Hg|exact Hsz].
Defined.

(** ** POST /items *)

Lemma truthy_false (v : option string) : truthy v = false <-> missing v.
Proof.
  unfold missing. destruct v as [s|]; simpl.
  - destruct (String.eqb_spec s ""); simpl.
    + subst. split; auto.
    + split; [discriminate|]. intros [H|H]; congruence.
  - split; auto.
Qed.

Lemma missing_blank (v : option string) : missing v -> blank v.
Proof. intros [-> | ->]; reflexivity. Qed.

(** C6, counterexample: a title of three spaces is empty once trimmed, but
    the request is not rejected: the answer is 201 and the item is stored,
    with an empty title (and it is matched with the backpack of the board,
    see [titleFactor_empty]). *)
Lemma createItem_accepts_blank_title :
  blank (form_title blankTitleForm) /\
  statusCode (createItem blankTitleForm None "bob" boardWithBackpack).1 = 201 /\
  Item.title <$> items (createItem blankTitleForm None "bob" boardWithBackpack).2 !! 1
    = Some (Some "").
Proof. repeat split; vm_compute; reflexivity. Qed.

(** C6, amended: a request whose title, category or status is absent or the
    empty string (as received, before any trimming), or whose status is not
    exactly Lost or Found, is answered 400 and leaves the world as it was:
    nothing is uploaded, no document is written, no remote call is made. *)
Theorem createItem_validation (body : ItemForm) (file : option UploadedFile)
  (uid : string) (w : World) :
  missing (form_title body) \/ missing (form_category body) \/
  missing (form_status body) \/
  (form_status body <> Some "Lost" /\ form_status body <> Some "Found") ->
  exists message, createItem body file uid w = (Failure 400 message, w).
Proof.
  intros H. unfold createItem, route.
  destruct (truthy (form_title body)) eqn:Ht; simpl; [|eexists; reflexivity].
  destruct (truthy (form_category body)) eqn:Hc; simpl; [|eexists; reflexivity].
  destruct (truthy (form_status body)) eqn:Hs; simpl; [|eexists; reflexivity].
  destruct H as [H | [H | [H | [Hl Hf]]]];
    try (apply truthy_false in H; congruence).
  destruct (form_status body) as [s|]; [|discriminate]. simpl.
  destruct (String.eqb_spec s "Lost"); [congruence|].
  destruct (String.eqb_spec s "Found"); [congruence|].
  simpl. eexists; reflexivity.
Qed.

Lemma createItem_validation_witness :
  exists message,
    createItem (Build_ItemForm (Some "Keys") None (Some "Bags") None None (Some "lost"))
      (Some (Build_UploadedFile "keys.png" "image/png" "...")) "bob" boardWithBackpack
    = (Failure 400 message, boardWithBackpack).
Proof.
  apply createItem_validation.
  right. right. right. split; discriminate.
Defined.

Lemma accepts_outages (n : nat) (w w' : World) :
  outages w' = outages w -> accepts n w' = accepts n w.
Proof. unfold accepts. now intros ->. Qed.

Lemma nextFails_outages (w w' : World) :
  outages w' = outages w -> nextFails w' = nextFails w.
Proof. unfold nextFails. now intros ->. Qed.

(** With the bucket taking the two calls, the upload resolves; it touches
    neither the collections nor the clock. *)
Lemma uploadImageToStorage_accepted file folder w :
  accepts 2 w = true ->
  exists url w',
    uploadImageToStorage file folder w = (Return url, w') /\
    items w' = items w /\ matches w' = matches w /\
    notifications w' = notifications w /\ clock w' = clock w /\
    outages w' = outages (answered (answered w)).
Proof.
  intros Hup. apply accepts_S in Hup as [H1 Hup]. apply accepts_S in Hup as [H2 _].
  unfold uploadImageToStorage, bind, random1E9, ret.
  destruct (entropy w) as [|r rest]; rewrite remoteCall_eq;
    autorewrite with world; rewrite H1; cbv beta iota;
    rewrite remoteCall_eq; autorewrite with world;
    change (nextFails (answered _)) with (nextFails (answered w)); rewrite H2;
    eexists _, _; (split; [reflexivity|]); repeat split.
Qed.

(** C7: a request that passes the validation, whose upload (if there is a
    file) and whose item write are taken by the services, is answered 201
    with the created item, whatever happens while the matches are
    generated: [generateMatches] always returns, and when its scan throws
    it returns the empty list, which the answer then carries. *)
Theorem createItem_survives_matching (body : ItemForm) (file : option UploadedFile)
  (uid : string) (w : World) :
  truthy (form_title body) = true ->
  truthy (form_category body) = true ->
  form_status body = Some "Lost" \/ form_status body = Some "Found" ->
  accepts (callsBeforeMatching file) w = true ->
  exists (itemRef : DocId) (image_url : string) (ms : list MatchInfo.t)
         (w1 w' : World) (t : nat),
    createItem body file uid w =
      (Created itemRef (itemDataOf body image_url uid) (List.length ms) ms, w') /\
    items w !! itemRef = None /\
    items w1 !! itemRef = Some (Item.resolve t (itemDataOf body image_url uid)) /\
    items w' = items w1 /\
    generateMatches itemRef (itemDataOf body image_url uid) w1 = (Return ms, w') /\
    (forall e w2, matchScan itemRef (itemDataOf body image_url uid) w1 = (Throw e, w2) ->
                  ms = [] /\ w' = w2).
Proof.
  intros Ht Hc Hs Hup. unfold createItem, route, bind.
  rewrite Ht, Hc.
  assert (Hst : truthy (form_status body) = true /\
                arrayIncludes ["Lost"; "Found"] (str (form_status body)) = true)
    by (destruct Hs as [-> | ->]; split; reflexivity).
  destruct Hst as [-> ->]. cbn [negb orb].
  assert (Hfile : exists image_url w0,
    match file with
    | Some f =>
        tryCatch (fun w => match uploadImageToStorage f "items" w with
                           | (Return url, w') => ret (inr url) w'
                           | (Throw e, w') => (Throw e, w')
                           end)
                 (fun _ => ret (inl (Failure 400 "Failed to upload image")))
    | None => ret (inr "")
    end w = (Return (inr image_url), w0) /\
    items w0 = items w /\ clock w0 = clock w /\ accepts 1 w0 = true).
  { destruct file as [f|]; simpl in Hup.
    - assert (H2 : accepts 2 w = true).
      { apply accepts_S in Hup as [H1 Hup]. apply accepts_S in Hup as [H2 _].
        apply accepts_S. split; [assumption|]. apply accepts_S. split; [assumption|].
        reflexivity. }
      destruct (uploadImageToStorage_accepted f "items" w H2)
        as (url & w0 & Hrun & Hi & _ & _ & Hck & Ho).
      exists url, w0. unfold tryCatch. rewrite Hrun.
      split; [reflexivity|]. split; [assumption|]. split; [assumption|].
      rewrite (accepts_outages 1 (answered (answered w)) w0 Ho).
      apply accepts_S in Hup as [_ Hup]. now apply accepts_S in Hup as [_ Hup].
    - exists "", w. repeat split. exact Hup. }
  destruct Hfile as (image_url & w0 & Hrun & Hi & Hck & Hup0).
  unfold bind in Hrun. rewrite Hrun.
  fold (itemDataOf body image_url uid).
  unfold createItemRef. rewrite setItem_eq.
  apply accepts_S in Hup0 as [-> _].
  set (itemRef := fresh (dom (items w0))).
  set (w1 := tick (withItems _ (answered w0))).
  destruct (generateMatches_total itemRef (itemDataOf body image_url uid) w1)
    as (ms & w' & Hgen & (_ & _ & Hitems)).
  rewrite Hgen. unfold ret.
  exists itemRef, image_url, ms, w1, w', (clock w0).
  split; [reflexivity|].
  split; [rewrite <- Hi; apply fresh_item_id|].
  split; [subst w1; world_simpl; apply lookup_insert_eq|].
  split; [exact Hitems|]. split; [exact Hgen|].
  intros e w2 Hthrow. rewrite generateMatches_eq, Hthrow in Hgen.
  now injection Hgen as <- <-.
Qed.

Lemma createItem_survives_matching_witness :
  accepts (callsBeforeMatching None) boardDownAfterOne = true /\
  exists (itemRef : DocId) (image_url : string) (ms : list MatchInfo.t)
         (w1 w' : World) (t : nat),
    createItem foundBackpackForm None "bob" boardDownAfterOne =
      (Created itemRef (itemDataOf foundBackpackForm image_url "bob")
               (List.length ms) ms, w') /\
    items boardDownAfterOne !! itemRef = None /\
    items w1 !! itemRef =
      Some (Item.resolve t (itemDataOf foundBackpackForm image_url "bob")) /\
    items w' = items w1 /\
    generateMatches itemRef (itemDataOf foundBackpackForm image_url "bob") w1 =
      (Return ms, w') /\
    (forall e w2,
       matchScan itemRef (itemDataOf foundBackpackForm image_url "bob") w1 = (Throw e, w2) ->
       ms = [] /\ w' = w2).
Proof.
  split; [reflexivity|].
  exact (createItem_survives_matching foundBackpackForm None "bob" boardDownAfterOne
           eq_refl eq_refl (or_intror eq_refl) eq_refl).
Defined.

(** In that world the scan does throw (the query is rejected), and the
    answer is 201 with no match. *)
Example createItem_store_down :
  exists (item : Item.t) (w' : World),
    createItem foundBackpackForm None "bob" boardDownAfterOne = (Created 1 item 0 [], w') /\
    matchScan 1 (itemDataOf foundBackpackForm "" "bob")
      (tick (withItems <[1 := Item.resolve 1 (itemDataOf foundBackpackForm "" "bob")]>
               (answered boardDownAfterOne)))
    = (Throw ServiceError, w').
Proof. eexists _, _. split; vm_compute; reflexivity. Qed.

(** ** PUT /notifications/:id/read *)

Lemma markRead_accepted (id : DocId) (uid : string) (w : World) (n : Notification.t) :
  notifications w !! id = Some n ->
  Notification.user_id n = uid ->
  accepts 2 w = true ->
  markRead id uid w =
  (Success "Notification marked as read",
   tick (withNotifications
           <[id := Notification.resolvePatch (clock w) (Notification.setRead ServerTimestamp n)]>
           (answered (answered w)))).
Proof.
  intros Hn Hu Hup. apply accepts_S in Hup as [H1 Hup]. apply accepts_S in Hup as [H2 _].
  unfold markRead, route, bind. rewrite getNotification_eq, H1, Hn, Hu.
  rewrite String.eqb_refl. cbn [negb].
  rewrite updateNotification_eq, H2. world_simpl. rewrite Hn. reflexivity.
Qed.

(** C8, counterexample: Alice marks her notification read twice; the second
    call overwrites [read_at] with the time of its own write. *)
Lemma markRead_overwrites_read_at :
  let first := markRead 0 "alice" matchedBoard in
  let second := markRead 0 "alice" first.2 in
  statusCode first.1 = 200 /\ statusCode second.1 = 200 /\
  Notification.read_at <$> notifications first.2 !! 0 = Some (Some (At 4)) /\
  Notification.read_at <$> notifications second.2 !! 0 = Some (Some (At 5)) /\
  Notification.read_at <$> notifications second.2 !! 0 <>
    Notification.read_at <$> notifications first.2 !! 0.
Proof. repeat split; try (vm_compute; reflexivity). vm_compute. discriminate. Qed.

(** C8, amended: marking one's own notification read twice in succession,
    the store taking the calls, succeeds both times and leaves [is_read]
    true; each call writes [read_at], so after the second call [read_at] is
    the server time of the second write, one tick after the first. *)
Theorem markRead_twice (id : DocId) (uid : string) (w : World) (n : Notification.t) :
  notifications w !! id = Some n ->
  Notification.user_id n = uid ->
  accepts 4 w = true ->
  let first := markRead id uid w in
  let second := markRead id uid first.2 in
  statusCode first.1 = 200 /\ statusCode second.1 = 200 /\
  exists n1 n2 : Notification.t,
    notifications first.2 !! id = Some n1 /\
    notifications second.2 !! id = Some n2 /\
    Notification.is_read n1 = true /\ Notification.is_read n2 = true /\
    Notification.read_at n1 = Some (At (clock w)) /\
    Notification.read_at n2 = Some (At (S (clock w))) /\
    Notification.user_id n2 = uid /\
    Notification.match_id n2 = Notification.match_id n /\
    Notification.message n2 = Notification.message n.
Proof.
  intros Hn Hu Hup. cbv zeta.
  assert (H2 : accepts 2 w = true).
  { apply accepts_S in Hup as [H1 Hup]. apply accepts_S in Hup as [H2 _].
    apply accepts_S. split; [assumption|]. apply accepts_S. split; [assumption|].
    reflexivity. }
  rewrite (markRead_accepted id uid w n Hn Hu H2). cbn [fst snd].
  set (n1 := Notification.resolvePatch (clock w) (Notification.setRead ServerTimestamp n)).
  set (w1 := tick (withNotifications <[id := n1]> (answered (answered w)))).
  assert (Hn1 : notifications w1 !! id = Some n1) by apply lookup_insert_eq.
  assert (Hup1 : accepts 2 w1 = true).
  { apply accepts_S in Hup as [_ Hup]. apply accepts_S in Hup as [_ Hup]. exact Hup. }
  rewrite (markRead_accepted id uid w1 n1 Hn1 Hu Hup1). cbn [fst snd].
  split; [reflexivity|]. split; [reflexivity|].
  eexists n1, _. split; [exact Hn1|].
  split; [apply lookup_insert_eq|].
  repeat split; try reflexivity. exact Hu.
Qed.

Lemma markRead_twice_witness :
  let first := markRead 0 "alice" matchedBoard in
  let second := markRead 0 "alice" first.2 in
  statusCode first.1 = 200 /\ statusCode second.1 = 200 /\
  exists n1 n2 : Notification.t,
    notifications first.2 !! 0 = Some n1 /\
    notifications second.2 !! 0 = Some n2 /\
    Notification.is_read n1 = true /\ Notification.is_read n2 = true /\
    Notification.read_at n1 = Some (At 4) /\
    Notification.read_at n2 = Some (At 5) /\
    Notification.user_id n2 = "alice" /\
    Notification.match_id n2 = 0 /\
    Notification.message n2 = Notification.message aliceNotification.
Proof.
  exact (markRead_twice 0 "alice" matchedBoard aliceNotification eq_refl eq_refl eq_refl).
Defined.

(** ** PUT /matches/:id/status *)

Lemma accepts_le (n k : nat) (w : World) :
  k <= n -> accepts n w = true -> accepts k w = true.
Proof.
  revert k w. induction n as [|n IH]; intros k w Hle Hup.
  - now replace k with 0 by lia.
  - destruct k as [|k]; [reflexivity|].
    apply accepts_S in Hup as [H1 Hup]. apply accepts_S. split; [assumption|].
    apply IH; [lia|assumption].
Qed.

(** A request with a status of the list, on a match there is, by a user who
    posted one of its items, the store taking the three reads and the write
    of the match: the match is written first, then, for Confirmed, the two
    items. *)
Lemma updateMatchStatus_authorized id s uid w m :
  In s matchStatuses ->
  matches w !! id = Some m ->
  userOwnsItem m uid w = true ->
  accepts 4 w = true ->
  updateMatchStatus id (Some s) uid w =
  if String.eqb s "Confirmed" then
    match returnItems m (statusWritten id s m w) with
    | (Return _, w') => (Success "Match status updated successfully", w')
    | (Throw _, w') => (Failure 500 "Failed to update match status", w')
    end
  else (Success "Match status updated successfully", statusWritten id s m w).
Proof.
  intros Hs Hm Hown Hup.
  apply accepts_S in Hup as [H1 Hup]. apply accepts_S in Hup as [H2 Hup].
  apply accepts_S in Hup as [H3 Hup]. apply accepts_S in Hup as [H4 _].
  unfold updateMatchStatus, route, bind.
  assert (Hin : arrayIncludes ["Pending"; "Confirmed"; "Rejected"] s = true)
    by now apply arrayIncludes_In.
  rewrite Hin. cbn [negb]. rewrite getMatch_eq, H1, Hm.
  unfold promiseAll2. rewrite getItem_eq, H2, getItem_eq. world_simpl. rewrite H3.
  cbn [fst snd]. unfold userOwnsItem in Hown. rewrite Hown. cbn [negb].
  rewrite updateMatch_eq. world_simpl. rewrite H4, Hm.
  change (str (Some s)) with s.
  unfold statusWritten, returnItems, promiseAll2, ret. world_simpl.
  destruct (String.eqb s "Confirmed"); [|reflexivity].
  cbv beta iota.
  destruct (updateItem (Match.lost_item_id m) _ _) as [ra wa].
  destruct (updateItem (Match.found_item_id m) _ wa) as [rb wb].
  destruct ra, rb; reflexivity.
Qed.

(** What one [update] of an item does to the world: either the call is
    accepted and the document is there, and it is patched, or the update
    is rejected and no document changes. *)
Lemma updateItem_cases (a : DocId) (patch : Item.t -> Item.t) (w : World) :
  matches (updateItem a patch w).2 = matches w /\
  notifications (updateItem a patch w).2 = notifications w /\
  outages (updateItem a patch w).2 = outages (answered w) /\
  ((exists i, (updateItem a patch w).1 = Return tt /\ nextFails w = false /\
              items w !! a = Some i /\
              items (updateItem a patch w).2 =
                <[a := patch i]> (items w)) \/
   (exists e, (updateItem a patch w).1 = Throw e /\
              (nextFails w = true \/ items w !! a = None) /\
              items (updateItem a patch w).2 = items w)).
Proof.
  rewrite updateItem_eq. destruct (nextFails w) eqn:Hf.
  { repeat split. right. exists ServiceError. repeat split. now left. }
  destruct (items w !! a) as [i|] eqn:Hi.
  - repeat split. left. exists i. repeat split.
  - repeat split. right. exists NotFound. repeat split. now right.
Qed.

Lemma returned_insert (its : gmap DocId Item.t) (a k : DocId) (i : Item.t) :
  Item.status <$> its !! k = Some "Returned" ->
  Item.status <$> <[a := Item.setStatus "Returned" i]> its !! k
    = Some "Returned".
Proof.
  intros Hk. destruct (decide (a = k)) as [->|Hne].
  - now rewrite lookup_insert_eq.
  - now rewrite lookup_insert_ne.
Qed.

(** Marking an item Returned leaves the items that are Returned so. *)
Lemma updateItem_keeps_returned (a k : DocId) (w : World) :
  Item.status <$> items w !! k = Some "Returned" ->
  Item.status <$> items (updateItem a (Item.setStatus "Returned") w).2 !! k
    = Some "Returned".
Proof.
  intros Hk.
  destruct (updateItem_cases a (Item.setStatus "Returned") w)
    as (_ & _ & _ & [(i & _ & _ & _ & ->) | (e & _ & _ & ->)]);
    [now apply returned_insert|assumption].
Qed.

Lemma returnItems_world (m : Match.t) (w : World) :
  (returnItems m w).2 =
  (updateItem (Match.found_item_id m) (Item.setStatus "Returned")
     (updateItem (Match.lost_item_id m) (Item.setStatus "Returned") w).2).2.
Proof.
  unfold returnItems, promiseAll2.
  destruct (updateItem (Match.lost_item_id m) _ w) as [ra wa].
  cbn [snd].
  destruct (updateItem (Match.found_item_id m) _ wa) as [rb wb].
  destruct ra, rb; reflexivity.
Qed.

Lemma returnItems_matches (m : Match.t) (w : World) :
  matches (returnItems m w).2 = matches w.
Proof.
  rewrite returnItems_world.
  destruct (updateItem_cases (Match.found_item_id m) (Item.setStatus "Returned")
              (updateItem (Match.lost_item_id m) (Item.setStatus "Returned") w).2)
    as (-> & _).
  now destruct (updateItem_cases (Match.lost_item_id m) (Item.setStatus "Returned") w)
    as (-> & _).
Qed.

Lemma returnItems_keeps_returned (m : Match.t) (k : DocId) (w : World) :
  Item.status <$> items w !! k = Some "Returned" ->
  Item.status <$> items (returnItems m w).2 !! k = Some "Returned".
Proof.
  intros Hk. rewrite returnItems_world.
  now apply updateItem_keeps_returned, updateItem_keeps_returned.
Qed.

Lemma getItems_eq (a b : DocId) (w : World) :
  promiseAll2 (getItem a) (getItem b) w =
  if nextFails w || nextFails (answered w)
  then (Throw ServiceError, answered (answered w))
  else (Return (items w !! a, items w !! b), answered (answered w)).
Proof.
  unfold promiseAll2. rewrite getItem_eq.
  destruct (nextFails w); cbv beta iota; rewrite getItem_eq; world_simpl;
    destruct (nextFails (answered w)); reflexivity.
Qed.

(** What a call of the route does to the matches, whatever the store does:
    nothing, or it writes the requested status, one of the list, on the
    match of the request, for a user who posted one of its items. *)
Lemma updateMatchStatus_matches (id : DocId) (st : option string) (uid : string)
  (w : World) :
  matches (updateMatchStatus id st uid w).2 = matches w \/
  exists s m,
    st = Some s /\ In s matchStatuses /\ matches w !! id = Some m /\
    userOwnsItem m uid w = true /\
    matches (updateMatchStatus id st uid w).2 =
      <[id := Match.resolvePatch (clock w) (Match.setStatus s ServerTimestamp m)]> (matches w).
Proof.
  unfold updateMatchStatus, route, bind.
  destruct st as [s|]; [|now left].
  destruct (arrayIncludes ["Pending"; "Confirmed"; "Rejected"] s) eqn:Hin; [|now left].
  cbn [negb]. rewrite getMatch_eq.
  destruct (nextFails w); [now left|].
  destruct (matches w !! id) as [m|] eqn:Hm; [|now left].
  rewrite getItems_eq. world_simpl.
  destruct (nextFails (answered w) || nextFails (answered (answered w))); [now left|].
  cbn [fst snd].
  destruct (postedBy (items w !! Match.lost_item_id m) uid
            || postedBy (items w !! Match.found_item_id m) uid) eqn:Hown; [|now left].
  cbn [negb]. rewrite updateMatch_eq. world_simpl. rewrite Hm.
  destruct (nextFails (answered (answered (answered w)))); [now left|].
  change (str (Some s)) with s. right. exists s, m.
  split; [reflexivity|]. split; [now apply arrayIncludes_In|].
  split; [reflexivity|]. split; [exact Hown|].
  destruct (String.eqb s "Confirmed").
  - fold (returnItems m). fold (statusWritten id s m w).
    pose proof (returnItems_matches m (statusWritten id s m w)) as Hr.
    destruct (returnItems m (statusWritten id s m w)) as [[?|?] wr];
      unfold ret; cbn [snd] in *; rewrite Hr; reflexivity.
  - reflexivity.
Qed.

(** What a call of the route does to the items: nothing, or, for a
    Confirmed that got as far as writing the match, the two updates of
    lines 514-517. *)
Lemma updateMatchStatus_items (id : DocId) (st : option string) (uid : string)
  (w : World) :
  items (updateMatchStatus id st uid w).2 = items w \/
  exists m,
    matches w !! id = Some m /\ st = Some "Confirmed" /\
    items (updateMatchStatus id st uid w).2 =
      items (returnItems m (statusWritten id "Confirmed" m w)).2.
Proof.
  unfold updateMatchStatus, route, bind.
  destruct st as [s|]; [|now left].
  destruct (arrayIncludes ["Pending"; "Confirmed"; "Rejected"] s) eqn:Hin; [|now left].
  cbn [negb]. rewrite getMatch_eq.
  destruct (nextFails w); [now left|].
  destruct (matches w !! id) as [m|] eqn:Hm; [|now left].
  rewrite getItems_eq. world_simpl.
  destruct (nextFails (answered w) || nextFails (answered (answered w))); [now left|].
  cbn [fst snd].
  destruct (postedBy (items w !! Match.lost_item_id m) uid
            || postedBy (items w !! Match.found_item_id m) uid) eqn:Hown; [|now left].
  cbn [negb]. rewrite updateMatch_eq. world_simpl. rewrite Hm.
  destruct (nextFails (answered (answered (answered w)))); [now left|].
  change (str (Some s)) with s.
  destruct (String.eqb_spec s "Confirmed") as [->|Hne]; [|now left].
  right. exists m. split; [reflexivity|]. split; [reflexivity|].
  fold (returnItems m). fold (statusWritten id "Confirmed" m w).
  destruct (returnItems m (statusWritten id "Confirmed" m w)) as [[?|?] wr];
    reflexivity.
Qed.

Lemma updateMatchStatus_keeps_returned id st uid w (k : DocId) :
  Item.status <$> items w !! k = Some "Returned" ->
  Item.status <$> items (updateMatchStatus id st uid w).2 !! k = Some "Returned".
Proof.
  intros Hk.
  destruct (updateMatchStatus_items id st uid w) as [-> | (m & _ & _ & ->)];
    [assumption|].
  now apply returnItems_keeps_returned.
Qed.

(** With both documents there and the store taking the two updates, both
    items become Returned. *)
Lemma returnItems_accepted (m : Match.t) (w : World) (iL iF : Item.t) :
  items w !! Match.lost_item_id m = Some iL ->
  items w !! Match.found_item_id m = Some iF ->
  accepts 2 w = true ->
  exists w',
    returnItems m w = (Return (tt, tt), w') /\
    matches w' = matches w /\
    Item.status <$> items w' !! Match.lost_item_id m = Some "Returned" /\
    Item.status <$> items w' !! Match.found_item_id m = Some "Returned".
Proof.
  intros Hl Hf Hup.
  apply accepts_S in Hup as [H1 Hup]. apply accepts_S in Hup as [H2 _].
  pose proof (returnItems_matches m w) as Hms.
  pose proof (returnItems_world m w) as Hw.
  unfold returnItems, promiseAll2 in *.
  rewrite updateItem_eq, H1, Hl in *. cbv beta iota in *. cbn [snd] in Hw.
  set (w1 := tick (withItems _ (answered w))) in *.
  assert (Hl1 : Item.status <$> items w1 !! Match.lost_item_id m = Some "Returned").
  { subst w1. world_simpl. now rewrite lookup_insert_eq. }
  assert (Hf1 : is_Some (items w1 !! Match.found_item_id m)).
  { subst w1. world_simpl.
    destruct (decide (Match.lost_item_id m = Match.found_item_id m)) as [->|Hne].
    - rewrite lookup_insert_eq. by eexists.
    - rewrite lookup_insert_ne by assumption. by eexists. }
  destruct Hf1 as [i1 Hf1].
  pose proof (updateItem_keeps_returned (Match.found_item_id m) (Match.lost_item_id m)
                w1 Hl1) as Hkeep.
  rewrite updateItem_eq in *.
  assert (Hnf : nextFails w1 = false) by exact H2.
  rewrite Hnf, Hf1 in *. cbn [snd] in *.
  eexists. split; [reflexivity|]. split; [exact Hms|]. split; [exact Hkeep|].
  world_simpl. now rewrite lookup_insert_eq.
Qed.

Lemma resolve_setStatus (t : nat) (s : string) (m : Match.t) :
  Match.status (Match.resolvePatch t (Match.setStatus s ServerTimestamp m)) = s /\
  Match.lost_item_id (Match.resolvePatch t (Match.setStatus s ServerTimestamp m))
    = Match.lost_item_id m /\
  Match.found_item_id (Match.resolvePatch t (Match.setStatus s ServerTimestamp m))
    = Match.found_item_id m /\
  Match.confidence_score (Match.resolvePatch t (Match.setStatus s ServerTimestamp m))
    = Match.confidence_score m /\
  Match.updated_at (Match.resolvePatch t (Match.setStatus s ServerTimestamp m))
    = Some (At t).
Proof. repeat split. Qed.

(** The status is written when the request is authorized and the store
    takes the three reads and the write, whatever happens to the items. *)
Lemma updateMatchStatus_written id s uid w m :
  In s matchStatuses ->
  matches w !! id = Some m ->
  userOwnsItem m uid w = true ->
  accepts 4 w = true ->
  matches (updateMatchStatus id (Some s) uid w).2 =
  <[id := Match.resolvePatch (clock w) (Match.setStatus s ServerTimestamp m)]> (matches w).
Proof.
  intros Hin Hm Hown Hup.
  rewrite (updateMatchStatus_authorized id s uid w m Hin Hm Hown Hup).
  destruct (String.eqb s "Confirmed"); [|reflexivity].
  pose proof (returnItems_matches m (statusWritten id s m w)) as Hr.
  destruct (returnItems m (statusWritten id s m w)) as [[?|?] wr];
    cbn [snd] in *; rewrite Hr; reflexivity.
Qed.

(** A call leaves every match with a status of the list, when it had one. *)
Lemma updateMatchStatus_status_in_list (id : DocId) (st : option string)
  (uid : string) (w : World) (id' : DocId) (m : Match.t) :
  matches w !! id' = Some m -> In (Match.status m) matchStatuses ->
  exists m', matches (updateMatchStatus id st uid w).2 !! id' = Some m' /\
             In (Match.status m') matchStatuses.
Proof.
  intros Hm Hin.
  destruct (updateMatchStatus_matches id st uid w)
    as [-> | (s & m0 & _ & Hs & _ & _ & ->)]; [now exists m|].
  destruct (decide (id = id')) as [<-|Hne].
  - eexists. split; [apply lookup_insert_eq|exact Hs].
  - exists m. now rewrite lookup_insert_ne.
Qed.

(** C2, counterexample: on the board where the match is Confirmed, Alice
    asks for Pending, then Bob for Rejected; both calls succeed and the
    status leaves Confirmed, then Pending. *)
Lemma updateMatchStatus_leaves_Confirmed :
  let first := updateMatchStatus 0 (Some "Pending") "alice" confirmedBoard in
  let second := updateMatchStatus 0 (Some "Rejected") "bob" first.2 in
  Match.status <$> matches confirmedBoard !! 0 = Some "Confirmed" /\
  statusCode first.1 = 200 /\
  Match.status <$> matches first.2 !! 0 = Some "Pending" /\
  statusCode second.1 = 200 /\
  Match.status <$> matches second.2 !! 0 = Some "Rejected".
Proof. repeat split; vm_compute; reflexivity. Qed.

(** C2, amended: the route does not look at the status a match has. A call
    leaves every match in the store with its item ids and score, and with
    its status, unless it is the match of the request, the requested status
    is Pending, Confirmed or Rejected and the user posted one of its items:
    then the status may become the requested one, whatever it was, and it
    does when the store takes the three reads and the write. No status is
    terminal. *)
Theorem updateMatchStatus_transitions (id : DocId) (st : option string)
  (uid : string) (w : World) (id' : DocId) (m : Match.t) :
  matches w !! id' = Some m ->
  exists m',
    matches (updateMatchStatus id st uid w).2 !! id' = Some m' /\
    Match.lost_item_id m' = Match.lost_item_id m /\
    Match.found_item_id m' = Match.found_item_id m /\
    Match.confidence_score m' = Match.confidence_score m /\
    (Match.status m' = Match.status m \/
     (id' = id /\ st = Some (Match.status m') /\ In (Match.status m') matchStatuses /\
      userOwnsItem m uid w = true)) /\
    (forall s, id' = id -> st = Some s -> In s matchStatuses ->
               userOwnsItem m uid w = true -> accepts 4 w = true ->
               Match.status m' = s).
Proof.
  intros Hm.
  destruct (updateMatchStatus_matches id st uid w)
    as [Hsame | (s & m0 & -> & Hin & Hm0 & Hown & Hnew)].
  - exists m. rewrite Hsame. split; [assumption|]. repeat split; [now left|].
    intros s -> -> Hin Hown Hup.
    pose proof (updateMatchStatus_written id s uid w m Hin Hm Hown Hup) as Hw.
    rewrite Hsame in Hw. symmetry in Hw.
    assert (Hl : matches w !! id =
                 Some (Match.resolvePatch (clock w) (Match.setStatus s ServerTimestamp m)))
      by (rewrite <- Hw at 1; apply lookup_insert_eq).
    rewrite Hm in Hl. injection Hl as Hl. rewrite Hl at 1. reflexivity.
  - rewrite Hnew. destruct (decide (id = id')) as [<-|Hne].
    + rewrite Hm in Hm0. injection Hm0 as <-.
      eexists. split; [apply lookup_insert_eq|].
      repeat split; [right; repeat split; assumption|].
      now intros s' _ [= <-] _ _ _.
    + exists m. rewrite lookup_insert_ne by assumption.
      split; [assumption|]. repeat split; [now left|].
      intros s' Heq. congruence.
Qed.

Lemma updateMatchStatus_transitions_witness :
  exists m',
    matches (updateMatchStatus 0 (Some "Pending") "alice" confirmedBoard).2 !! 0 = Some m' /\
    Match.lost_item_id m' = 0 /\ Match.found_item_id m' = 1 /\
    Match.confidence_score m' = 80 /\ Match.status m' = "Pending".
Proof.
  destruct (updateMatchStatus_transitions 0 (Some "Pending") "alice" confirmedBoard 0
              (Match.mk 0 1 80 "Confirmed" (At 2) (Some (At 4))) eq_refl)
    as (m' & Hm' & Hl & Hf & Hc & _ & Hs).
  exists m'. repeat split; try assumption.
  apply Hs; try reflexivity. simpl. tauto.
Defined.

Lemma confirmedState_stable (id : DocId) (m : Match.t) (uid : string) (w : World) :
  confirmedState id m w ->
  confirmedState id m (updateMatchStatus id (Some "Confirmed") uid w).2.
Proof.
  intros (Hm & Hl & Hf). split; [|split].
  - destruct (updateMatchStatus_matches id (Some "Confirmed") uid w)
      as [-> | (s & m0 & [= <-] & _ & _ & _ & ->)]; [assumption|].
    now rewrite lookup_insert_eq.
  - now apply updateMatchStatus_keeps_returned.
  - now apply updateMatchStatus_keeps_returned.
Qed.

(** When the two updates of lines 514-517 both resolve, both items are
    Returned. *)
Lemma returnItems_success (m : Match.t) (w w' : World) (x : unit * unit) :
  returnItems m w = (Return x, w') ->
  matches w' = matches w /\
  Item.status <$> items w' !! Match.lost_item_id m = Some "Returned" /\
  Item.status <$> items w' !! Match.found_item_id m = Some "Returned".
Proof.
  intros Hrun. pose proof (returnItems_matches m w) as Hms.
  rewrite Hrun in Hms. cbn [snd] in Hms. split; [exact Hms|].
  unfold returnItems, promiseAll2 in Hrun.
  destruct (updateItem_cases (Match.lost_item_id m) (Item.setStatus "Returned") w)
    as (_ & _ & _ & Hc1).
  pose proof (updateItem_keeps_returned (Match.found_item_id m) (Match.lost_item_id m)
                (updateItem (Match.lost_item_id m) (Item.setStatus "Returned") w).2)
    as Hkeep.
  destruct (updateItem (Match.lost_item_id m) (Item.setStatus "Returned") w)
    as [ra wa]. cbn [fst snd] in *.
  destruct (updateItem_cases (Match.found_item_id m) (Item.setStatus "Returned") wa)
    as (_ & _ & _ & Hc2).
  destruct (updateItem (Match.found_item_id m) (Item.setStatus "Returned") wa)
    as [rb wb]. cbn [fst snd] in *.
  destruct Hc1 as [(i1 & -> & _ & _ & Hi1) | (e1 & -> & _)]; [|discriminate].
  destruct Hc2 as [(i2 & -> & _ & _ & Hi2) | (e2 & -> & _)]; [|discriminate].
  injection Hrun as _ <-. split.
  - apply Hkeep. rewrite Hi1. now rewrite lookup_insert_eq.
  - rewrite Hi2. now rewrite lookup_insert_eq.
Qed.

(** A request for Confirmed that is answered 200 has found the match,
    written it, and seen both item updates resolve. *)
Lemma confirm_success_inv (id : DocId) (uid : string) (w : World) :
  statusCode (updateMatchStatus id (Some "Confirmed") uid w).1 = 200 ->
  exists (m : Match.t) (x : unit * unit),
    matches w !! id = Some m /\
    userOwnsItem m uid w = true /\
    returnItems m (statusWritten id "Confirmed" m w) =
      (Return x, (updateMatchStatus id (Some "Confirmed") uid w).2).
Proof.
  unfold updateMatchStatus, route, bind.
  cbn [arrayIncludes existsb String.eqb Ascii.eqb Bool.eqb orb negb].
  rewrite getMatch_eq.
  destruct (nextFails w); [discriminate|].
  destruct (matches w !! id) as [m|] eqn:Hm; [|discriminate].
  rewrite getItems_eq. world_simpl.
  destruct (nextFails (answered w) || nextFails (answered (answered w)));
    [discriminate|].
  cbn [fst snd].
  destruct (postedBy (items w !! Match.lost_item_id m) uid
            || postedBy (items w !! Match.found_item_id m) uid) eqn:Hown; [|discriminate].
  cbn [negb]. rewrite updateMatch_eq. world_simpl. rewrite Hm.
  destruct (nextFails (answered (answered (answered w)))); [discriminate|].
  change (str (Some "Confirmed")) with "Confirmed".
  cbn [String.eqb Ascii.eqb Bool.eqb].
  fold (returnItems m). fold (statusWritten id "Confirmed" m w).
  destruct (returnItems m (statusWritten id "Confirmed" m w)) as [[x|e] wr] eqn:Hrun;
    [|discriminate].
  intros _. exists m, x. split; [reflexivity|]. split; [exact Hown|].
  rewrite Hrun. reflexivity.
Qed.

(** With the two items in the store, a user who posted one of them and a
    store that takes the six calls, the request for Confirmed is answered
    200. *)
Lemma confirm_succeeds (id : DocId) (uid : string) (w : World)
  (m : Match.t) (lostItem foundItem : Item.t) :
  matches w !! id = Some m ->
  items w !! Match.lost_item_id m = Some lostItem ->
  items w !! Match.found_item_id m = Some foundItem ->
  userOwnsItem m uid w = true ->
  accepts 6 w = true ->
  statusCode (updateMatchStatus id (Some "Confirmed") uid w).1 = 200.
Proof.
  intros Hm Hl Hf Hown Hup.
  assert (Hin : In "Confirmed" matchStatuses) by (simpl; tauto).
  assert (H4 : accepts 4 w = true) by (apply (accepts_le 6); [lia|assumption]).
  rewrite (updateMatchStatus_authorized id "Confirmed" uid w m Hin Hm Hown H4).
  cbn [String.eqb Ascii.eqb Bool.eqb].
  destruct (returnItems_accepted m (statusWritten id "Confirmed" m w) lostItem foundItem)
    as (w' & -> & _); [exact Hl|exact Hf| |reflexivity].
  do 4 (apply accepts_S in Hup as [_ Hup]). exact Hup.
Qed.

(** C5: a request for Confirmed that succeeds (answer 200) leaves the match
    Confirmed and both items of the match Returned, whatever their status
    was; a second request for Confirmed on the same match, whatever its
    outcome, leaves the match Confirmed and both items Returned. *)
Theorem confirm_returns_items (id : DocId) (uid : string) (w : World) :
  let first := updateMatchStatus id (Some "Confirmed") uid w in
  let second := updateMatchStatus id (Some "Confirmed") uid first.2 in
  statusCode first.1 = 200 ->
  exists m : Match.t,
    matches w !! id = Some m /\
    userOwnsItem m uid w = true /\
    confirmedState id m first.2 /\
    confirmedState id m second.2.
Proof.
  cbv zeta. intros Hcode.
  destruct (confirm_success_inv id uid w Hcode) as (m & x & Hm & Hown & Hrun).
  assert (Hin : In "Confirmed" matchStatuses) by (simpl; tauto).
  destruct (returnItems_success m _ _ x Hrun) as (Hms & Hl & Hf).
  assert (Hstate : confirmedState id m (updateMatchStatus id (Some "Confirmed") uid w).2).
  { split; [|split; assumption].
    rewrite Hms. unfold statusWritten. world_simpl. now rewrite lookup_insert_eq. }
  exists m. split; [exact Hm|]. split; [exact Hown|]. split; [exact Hstate|].
  now apply confirmedState_stable.
Qed.

Lemma confirm_returns_items_witness :
  let first := updateMatchStatus 0 (Some "Confirmed") "bob" matchedBoard in
  let second := updateMatchStatus 0 (Some "Confirmed") "bob" first.2 in
  statusCode first.1 = 200 /\
  exists m : Match.t,
    matches matchedBoard !! 0 = Some m /\
    userOwnsItem m "bob" matchedBoard = true /\
    confirmedState 0 m first.2 /\
    confirmedState 0 m second.2.
Proof.
  assert (Hcode : statusCode (updateMatchStatus 0 (Some "Confirmed") "bob" matchedBoard).1
                  = 200).
  { exact (confirm_succeeds 0 "bob" matchedBoard pendingMatch backpackItem
             storedFoundBackpack eq_refl eq_refl eq_refl eq_refl eq_refl). }
  split; [exact Hcode|].
  exact (confirm_returns_items 0 "bob" matchedBoard Hcode).
Defined.

Lemma rejectsCall_0 (w : World) : rejectsCall 0 w = nextFails w.
Proof.
  unfold rejectsCall, nextFails. destruct (outages w) as [|[] os]; reflexivity.
Qed.

Lemma rejectsCall_S (k : nat) (w : World) :
  rejectsCall (S k) w = rejectsCall k (answered w).
Proof.
  unfold rejectsCall. world_simpl.
  destruct (outages w) as [|b os]; [now destruct k|reflexivity].
Qed.

(** C10: the match is written before the items. When the request for
    Confirmed is authorized and the store takes the three reads and the
    write of the match, but one of the two item updates fails (the lost or
    the found item is not in the store, or the store rejects the fifth or
    the sixth call), the answer is 500, the match is Confirmed all the same,
    and at most one of the two item updates has been applied. *)
Theorem confirm_partial_failure (id : DocId) (uid : string) (w : World) (m : Match.t) :
  matches w !! id = Some m ->
  userOwnsItem m uid w = true ->
  accepts 4 w = true ->
  items w !! Match.lost_item_id m = None \/
  items w !! Match.found_item_id m = None \/
  rejectsCall 4 w = true \/ rejectsCall 5 w = true ->
  let answer := updateMatchStatus id (Some "Confirmed") uid w in
  answer.1 = Failure 500 "Failed to update match status" /\
  Match.status <$> matches answer.2 !! id = Some "Confirmed" /\
  (items answer.2 = items w \/
   (exists i, items w !! Match.lost_item_id m = Some i /\
      items answer.2 =
        <[Match.lost_item_id m := Item.setStatus "Returned" i]> (items w)) \/
   (exists i, items w !! Match.found_item_id m = Some i /\
      items answer.2 =
        <[Match.found_item_id m := Item.setStatus "Returned" i]> (items w))).
Proof.
  intros Hm Hown Hup Hcause. cbv zeta.
  assert (Hin : In "Confirmed" matchStatuses) by (simpl; tauto).
  pose proof (updateMatchStatus_written id "Confirmed" uid w m Hin Hm Hown Hup) as Hw.
  rewrite (updateMatchStatus_authorized id "Confirmed" uid w m Hin Hm Hown Hup) in *.
  cbn [String.eqb Ascii.eqb Bool.eqb] in *.
  set (w3 := statusWritten id "Confirmed" m w) in *.
  assert (Hi3 : items w3 = items w) by reflexivity.
  assert (Hr4 : nextFails w3 = rejectsCall 4 w).
  { rewrite !rejectsCall_S, rejectsCall_0. reflexivity. }
  assert (Hr5 : nextFails (answered w3) = rejectsCall 5 w).
  { rewrite !rejectsCall_S, rejectsCall_0. reflexivity. }
  clearbody w3.
  unfold returnItems, promiseAll2 in *.
  destruct (updateItem_cases (Match.lost_item_id m) (Item.setStatus "Returned") w3)
    as (_ & _ & Ho1 & Hc1).
  destruct (updateItem (Match.lost_item_id m) (Item.setStatus "Returned") w3)
    as [ra wa]. cbn [fst snd] in *.
  destruct (updateItem_cases (Match.found_item_id m) (Item.setStatus "Returned") wa)
    as (_ & _ & _ & Hc2).
  destruct (updateItem (Match.found_item_id m) (Item.setStatus "Returned") wa)
    as [rb wb]. cbn [fst snd] in *.
  rewrite (nextFails_outages (answered w3) wa Ho1) in Hc2.
  assert (Hmatch : Match.status <$> matches wb !! id = Some "Confirmed").
  { replace (matches wb) with
      (<[id := Match.resolvePatch (clock w) (Match.setStatus "Confirmed" ServerTimestamp m)]>
         (matches w)).
    - now rewrite lookup_insert_eq.
    - rewrite <- Hw. destruct ra, rb; reflexivity. }
  destruct Hc1 as [(i1 & -> & Hf1 & Hl1 & Hi1) | (e1 & -> & Hwhy1 & Hi1)];
    destruct Hc2 as [(i2 & -> & Hf2 & Hl2 & Hi2) | (e2 & -> & Hwhy2 & Hi2)];
    cbn [fst snd].
  - (* both updates applied: none of the causes holds *)
    exfalso. rewrite Hi3 in Hl1. rewrite Hi1, Hi3 in Hl2.
    destruct Hcause as [Hc | [Hc | [Hc | Hc]]].
    + congruence.
    + destruct (decide (Match.lost_item_id m = Match.found_item_id m)) as [Heq|Hne].
      * rewrite <- Heq in Hc. congruence.
      * rewrite lookup_insert_ne in Hl2 by assumption. congruence.
    + rewrite <- Hr4 in Hc. congruence.
    + rewrite <- Hr5 in Hc. congruence.
  - split; [reflexivity|]. split; [exact Hmatch|].
    right. left. exists i1. rewrite Hi2, Hi1, Hi3. split; [|reflexivity].
    now rewrite <- Hi3.
  - split; [reflexivity|]. split; [exact Hmatch|].
    right. right. exists i2. rewrite Hi2, Hi1, Hi3. split; [|reflexivity].
    now rewrite Hi1, Hi3 in Hl2.
  - split; [reflexivity|]. split; [exact Hmatch|].
    left. now rewrite Hi2, Hi1.
Qed.

Lemma confirm_partial_failure_witness :
  let answer := updateMatchStatus 0 (Some "Confirmed") "bob" boardWithoutLostItem in
  answer.1 = Failure 500 "Failed to update match status" /\
  Match.status <$> matches answer.2 !! 0 = Some "Confirmed" /\
  Item.status <$> items answer.2 !! 1 = Some "Returned" /\
  items answer.2 !! 0 = None.
Proof.
  destruct (confirm_partial_failure 0 "bob" boardWithoutLostItem pendingMatch
              eq_refl eq_refl eq_refl (or_introl eq_refl)) as (Hcode & Hmatch & _).
  split; [exact Hcode|]. split; [exact Hmatch|].
  split; vm_compute; reflexivity.
Defined.

(** * Further properties of the routes *)

(** ** The score *)

Lemma titleFactor_values (a b : option string) :
  titleFactor a b = Return 0 \/ titleFactor a b = Return 40 \/
  (titleFactor a b = Throw TypeError /\ (a = None \/ b = None)).
Proof.
  destruct a as [x|], b as [y|]; simpl; auto.
  destruct (includes (toLowerCase x) (toLowerCase y) ||
            includes (toLowerCase y) (toLowerCase x)); auto.
Qed.

Lemma descriptionFactor_values (a b : option string) :
  exists k, k <= 6 /\ descriptionFactor a b = 5 * k.
Proof.
  unfold descriptionFactor. destruct (truthy a && truthy b); [|exists 0; lia].
  cbv zeta.
  set (n := List.length _).
  exists (Nat.min n 6). lia.
Qed.

Lemma locationFactor_values (a b : option string) :
  locationFactor a b = 0 \/ locationFactor a b = 10 \/ locationFactor a b = 20.
Proof.
  unfold locationFactor. destruct (truthy a && truthy b); auto.
  destruct (String.eqb _ _); auto.
  destruct (_ || _); auto.
Qed.

(** X1: the confidence score, when there is one, is a multiple of 5 and at
    most 90 (40 for the titles, 30 for the words, 20 for the place); the
    scoring throws only a TypeError, and only when a title is absent. *)
Theorem confidenceScore_range (existingItem newItemData : Item.t) :
  match confidenceScore existingItem newItemData with
  | Return s => s <= 90 /\ exists k, s = 5 * k
  | Throw e =>
      e = TypeError /\
      (Item.title existingItem = None \/ Item.title newItemData = None)
  end.
Proof.
  unfold confidenceScore.
  destruct (descriptionFactor_values (Item.description existingItem)
              (Item.description newItemData)) as (k & Hk & ->).
  destruct (titleFactor_values (Item.title existingItem) (Item.title newItemData))
    as [-> | [-> | [-> Hnone]]]; [| |now split];
    destruct (locationFactor_values (Item.location existingItem)
                (Item.location newItemData)) as [-> | [-> | ->]];
    (split; [lia|]).
  - exists k; lia.
  - exists (k + 2); lia.
  - exists (k + 4); lia.
  - exists (8 + k); lia.
  - exists (8 + k + 2); lia.
  - exists (8 + k + 4); lia.
Qed.

Lemma prefix_refl (s : string) : String.prefix s s = true.
Proof.
  induction s as [|c s IH]; [reflexivity|].
  simpl. destruct (ascii_dec c c); [assumption|congruence].
Qed.

Lemma includes_refl (s : string) : includes s s = true.
Proof.
  destruct s as [|c s]; [reflexivity|].
  cbn [includes]. now rewrite prefix_refl.
Qed.

(** X2: two items whose titles are the same up to the case of the letters
    score 40 or more whatever their descriptions and locations, so the
    iteration for such a candidate, the store taking its two writes, makes
    a match. *)
Theorem same_title_matches newItemId newItemData (doc : DocId * Item.t)
  (w : World) (existingTitle title : string) :
  Item.title doc.2 = Some existingTitle ->
  Item.title newItemData = Some title ->
  toLowerCase existingTitle = toLowerCase title ->
  accepts 2 w = true ->
  exists s info w',
    confidenceScore doc.2 newItemData = Return s /\ 40 <= s /\
    scanCandidate newItemId newItemData doc w = (Return (Some info), w') /\
    MatchInfo.matched_item_id info = doc.1 /\
    MatchInfo.confidence_score info = s /\
    size (matches w') = S (size (matches w)).
Proof.
  intros He Ht Heq Hup.
  assert (Hs : exists s, confidenceScore doc.2 newItemData = Return s /\ 40 <= s).
  { unfold confidenceScore, titleFactor. rewrite He, Ht, Heq, includes_refl.
    cbn [orb]. eexists. split; [reflexivity|lia]. }
  destruct Hs as (s & Hs & Hle). exists s.
  rewrite (scanCandidate_eq newItemId newItemData doc w s Hs ltac:(lia)).
  apply accepts_S in Hup as [-> Hup]. autorewrite with world.
  apply accepts_S in Hup as [Hup _]. autorewrite with world in Hup. rewrite Hup.
  eexists _, _. split; [exact Hs|]. split; [assumption|].
  split; [reflexivity|]. split; [reflexivity|]. split; [reflexivity|].
  world_simpl. apply map_size_insert_None, fresh_match_id.
Qed.

Lemma same_title_matches_witness :
  exists s info w',
    confidenceScore backpackItem
      (sampleItem (Some "BLUE BACKPACK") None None "Found" "bob") = Return s /\ 40 <= s /\
    scanCandidate 2 (sampleItem (Some "BLUE BACKPACK") None None "Found" "bob")
      (0, backpackItem) boardWithBackpack = (Return (Some info), w') /\
    MatchInfo.matched_item_id info = 0 /\
    MatchInfo.confidence_score info = s /\
    size (matches w') = S (size (matches boardWithBackpack)).
Proof.
  exact (same_title_matches 2 (sampleItem (Some "BLUE BACKPACK") None None "Found" "bob")
           (0, backpackItem) boardWithBackpack "Blue Backpack" "BLUE BACKPACK"
           eq_refl eq_refl eq_refl eq_refl).
Defined.

(** X3: the place alone never makes a match. When neither title contains
    the other and the descriptions share no word (or one is empty), the
    score is at most 20 and the iteration writes nothing, whatever the
    locations are. *)
Theorem location_alone_never_matches newItemId newItemData (doc : DocId * Item.t)
  (w : World) :
  titleFactor (Item.title doc.2) (Item.title newItemData) = Return 0 ->
  descriptionFactor (Item.description doc.2) (Item.description newItemData) = 0 ->
  exists s, confidenceScore doc.2 newItemData = Return s /\ s <= 20 /\
            scanCandidate newItemId newItemData doc w = (Return None, w).
Proof.
  intros Ht Hd.
  assert (Hs : exists s, confidenceScore doc.2 newItemData = Return s /\ s <= 20).
  { unfold confidenceScore. rewrite Ht, Hd. eexists. split; [reflexivity|].
    destruct (locationFactor_values (Item.location doc.2) (Item.location newItemData))
      as [-> | [-> | ->]]; lia. }
  destruct Hs as (s & Hs & Hle). exists s. split; [assumption|]. split; [assumption|].
  apply (scanCandidate_below _ _ _ _ s Hs). lia.
Qed.

Lemma location_alone_never_matches_witness :
  exists s,
    confidenceScore backpackItem
      (sampleItem (Some "keys") (Some "") (Some "LIBRARY") "Found" "bob") = Return s /\
    s <= 20 /\
    scanCandidate 2 (sampleItem (Some "keys") (Some "") (Some "LIBRARY") "Found" "bob")
      (0, backpackItem) boardWithBackpack = (Return None, boardWithBackpack).
Proof.
  exact (location_alone_never_matches 2
           (sampleItem (Some "keys") (Some "") (Some "LIBRARY") "Found" "bob")
           (0, backpackItem) boardWithBackpack eq_refl eq_refl).
Defined.

(** ** The store under the remote calls *)

Lemma sameStore_refl (w : World) : sameStore w w.
Proof. repeat split. Qed.

Lemma sameStore_trans (w1 w2 w3 : World) :
  sameStore w1 w2 -> sameStore w2 w3 -> sameStore w1 w3.
Proof.
  unfold sameStore. intros (? & ? & ? & ? & ?) (? & ? & ? & ? & ?).
  repeat split; congruence.
Qed.

Lemma sameStore_answered (w : World) : sameStore w (answered w).
Proof. repeat split. Qed.

Lemma sameStore_extends (w w' : World) : sameStore w w' -> extends w w'.
Proof. intros (Hi & Hm & Hn & _). unfold extends. rewrite Hi, Hm, Hn. done. Qed.

Lemma remoteCall_sameStore (w : World) : sameStore w (remoteCall w).2.
Proof. rewrite remoteCall_eq. apply sameStore_answered. Qed.

Lemma getItem_sameStore (id : DocId) (w : World) : sameStore w (getItem id w).2.
Proof. rewrite getItem_eq. destruct (nextFails w); apply sameStore_answered. Qed.

Lemma getItems_sameStore (a b : DocId) (w : World) :
  sameStore w (promiseAll2 (getItem a) (getItem b) w).2.
Proof.
  rewrite getItems_eq.
  destruct (nextFails w || nextFails (answered w)); repeat split.
Qed.

(** The outcomes of the iteration for one candidate: nothing is written; or
    the match is written and the write of the notification is rejected; or
    both are written and the match is reported. *)
Lemma scanCandidate_cases newItemId newItemData (doc : DocId * Item.t)
  (w : World) (r : Outcome (option MatchInfo.t)) (w' : World) :
  scanCandidate newItemId newItemData doc w = (r, w') ->
  items w' = items w /\ bucket w' = bucket w /\
  ((matches w' = matches w /\ notifications w' = notifications w /\
    forall info, r <> Return (Some info)) \/
   exists s,
     confidenceScore doc.2 newItemData = Return s /\ 30 <= s /\
     matches w' =
       <[fresh (dom (matches w)) := newMatch newItemId newItemData doc s (clock w)]>
         (matches w) /\
     ((notifications w' = notifications w /\ r = Throw ServiceError) \/
      (notifications w' =
         <[fresh (dom (notifications w)) :=
             newNotification newItemData doc (fresh (dom (matches w))) (S (clock w))]>
           (notifications w) /\
       r = Return (Some (MatchInfo.mk (fresh (dom (matches w))) s doc.1
                           (Item.title doc.2) (Item.description doc.2)))))).
Proof.
  destruct (confidenceScore doc.2 newItemData) as [s|e] eqn:Hs.
  2:{ unfold scanCandidate, bind, lift. rewrite Hs. intros [= <- <-].
      repeat split. left. repeat split. intros info [=]. }
  destruct (Nat.lt_ge_cases s 30) as [Hlt|Hle].
  { rewrite (scanCandidate_below newItemId newItemData doc w s Hs Hlt).
    intros [= <- <-]. repeat split. left. repeat split. intros info [=]. }
  rewrite (scanCandidate_eq _ _ _ _ _ Hs Hle). autorewrite with world.
  destruct (nextFails w).
  { intros [= <- <-]. repeat split. left. repeat split. intros info [=]. }
  destruct (nextFails (answered w)); intros [= <- <-].
  - repeat split. right. exists s. repeat split; try assumption. now left.
  - repeat split. right. exists s. repeat split; try assumption. now right.
Qed.

(** ** generateMatches: what it reports *)

(** A property of the reported matches that every iteration establishes
    for the match it pushes, and that later writes do not undo, holds of
    all the matches the scan returns. *)
Lemma scanDocs_Forall (P : World -> MatchInfo.t -> Prop) newItemId newItemData
  (w0 : World) (docs : list (DocId * Item.t)) :
  (forall wa wb info, extends wa wb -> P wa info -> P wb info) ->
  (forall doc wa info wb,
     doc ∈ docs -> extends w0 wa ->
     scanCandidate newItemId newItemData doc wa = (Return (Some info), wb) ->
     P wb info) ->
  forall acc w r w',
    scanDocs newItemId newItemData docs acc w = (r, w') ->
    extends w0 w -> Forall (P w) acc ->
    forall ms, r = Return ms -> Forall (P w') ms.
Proof.
  intros Hstable. induction docs as [|doc rest IH]; intros Hnew acc w r w' Hrun Hext Hacc.
  - injection Hrun as <- <-. now intros ms [= <-].
  - simpl in Hrun. unfold bind in Hrun.
    destruct (scanCandidate newItemId newItemData doc w) as [[pushed|e] w1] eqn:Hc.
    + pose proof (proj1 (scanCandidate_extends _ _ _ _ _ _ Hc)) as Hstep.
      apply (IH (fun d wa info wb Hd => Hnew d wa info wb (list_elem_of_further _ _ _ Hd))
                _ _ _ _ Hrun); [by eapply extends_trans|].
      assert (Hacc' : Forall (P w1) acc).
      { eapply Forall_impl; [exact Hacc|]. intros info. now apply Hstable. }
      destruct pushed as [info|]; [|assumption].
      apply Forall_app. split; [assumption|]. constructor; [|constructor].
      apply (Hnew doc w info w1); [apply list_elem_of_here|assumption|assumption].
    + injection Hrun as <- <-. intros ms [=].
Qed.

Lemma linked_extends newItemId newItemData (w w' : World) (info : MatchInfo.t) :
  extends w w' -> linked newItemId newItemData w info ->
  linked newItemId newItemData w' info.
Proof.
  intros (Hm & Hn & Hi) (m & c & nid & n & H1 & H2 & H3 & H4 & H5 & H6 & H7 & H8 & H9
                          & H10 & H11 & H12 & H13).
  exists m, c, nid, n. rewrite Hi.
  repeat split; try assumption; eapply lookup_weaken; eassumption.
Qed.

Lemma generateMatches_linked (newItemId : DocId) (newItemData : Item.t) (w : World) :
  exists (ms : list MatchInfo.t) (w' : World),
    generateMatches newItemId newItemData w = (Return ms, w') /\
    extends w w' /\
    Forall (fun info => linked newItemId newItemData w' info /\
                        matches w !! MatchInfo.match_id info = None) ms.
Proof.
  rewrite generateMatches_eq. unfold matchScan, bind. cbv zeta. rewrite queryItems_eq.
  destruct (nextFails w).
  { eexists _, _. split; [reflexivity|]. split; [apply extends_answered|constructor]. }
  destruct (scanDocs newItemId newItemData (candidates newItemData w) [] (answered w))
    as [r w'] eqn:Hrun.
  pose proof (scanDocs_only_adds _ _ _ _ _ _ _ Hrun) as Hext.
  assert (Hall : forall ms, r = Return ms ->
            Forall (fun info => linked newItemId newItemData w' info /\
                                matches w !! MatchInfo.match_id info = None) ms).
  { apply (scanDocs_Forall
             (fun wa info => linked newItemId newItemData wa info /\
                             matches w !! MatchInfo.match_id info = None)
             newItemId newItemData w (candidates newItemData w))
      with (acc := []) (w := answered w);
      [| |exact Hrun|apply extends_answered|constructor].
    - intros wa wb info Hab [Hl Hn]. split; [by eapply linked_extends|assumption].
    - intros doc wa info wb Hdoc Hwa Hc.
      apply candidates_spec in Hdoc as (Hitem & Hcat & Hst).
      destruct (scanCandidate_cases _ _ _ _ _ _ Hc)
        as (Hi & _ & [(_ & _ & Hno) | (s & Hs & Hle & Hm & [(_ & Hr) | (Hn & Hr)])]);
        [now destruct (Hno info)|discriminate|].
      injection Hr as ->. cbn [MatchInfo.match_id MatchInfo.matched_item_id
                                MatchInfo.confidence_score].
      split.
      + exists (newMatch newItemId newItemData doc s (clock wa)), doc.2,
          (fresh (dom (notifications wa))),
          (newNotification newItemData doc (fresh (dom (matches wa))) (S (clock wa))).
        rewrite Hm, Hn, Hi, !lookup_insert_eq. destruct Hwa as (_ & _ & ->).
        repeat split; assumption.
      + eapply extends_new; [exact Hwa|apply fresh_match_id]. }
  destruct r as [ms|e]; eexists _, _; (split; [reflexivity|]);
    (split; [exact Hext|]); [now apply Hall|constructor].
Qed.

(** X4: [generateMatches] always returns a list. It does not touch the
    items and neither changes nor removes a match or a notification the
    store had. Each match it reports is in the store under a new id: it
    is Pending, has the reported score, of 30 or more, and pairs the new
    item with a stored item of the same category and of the opposite
    status (the new item on the lost side when it is Lost, on the found
    side when it is Found); an unread notification for that match is
    addressed to the poster of that stored item. *)
Theorem generateMatches_links (newItemId : DocId) (newItemData : Item.t) (w : World) :
  exists (ms : list MatchInfo.t) (w' : World),
    generateMatches newItemId newItemData w = (Return ms, w') /\
    extends w w' /\
    Forall (fun info => linked newItemId newItemData w' info /\
                        matches w !! MatchInfo.match_id info = None) ms.
Proof. exact (generateMatches_linked newItemId newItemData w). Qed.

(** ** What each route does to the store *)

(** The upload writes in the bucket only. *)
Lemma uploadImageToStorage_store (file : UploadedFile) (folder : string) (w : World) :
  items (uploadImageToStorage file folder w).2 = items w /\
  matches (uploadImageToStorage file folder w).2 = matches w /\
  notifications (uploadImageToStorage file folder w).2 = notifications w /\
  clock (uploadImageToStorage file folder w).2 = clock w.
Proof.
  unfold uploadImageToStorage, bind, random1E9, ret.
  destruct (entropy w) as [|r rest]; rewrite remoteCall_eq; autorewrite with world;
    (destruct (nextFails w); [repeat split|]); cbv beta iota;
    rewrite remoteCall_eq; autorewrite with world;
    match goal with |- context [if ?b then _ else _] => destruct b end;
    repeat split.
Qed.

Lemma lostOrFound (s : string) :
  arrayIncludes ["Lost"; "Found"] s = true -> s = "Lost" \/ s = "Found".
Proof. rewrite arrayIncludes_In. simpl. intuition. Qed.

(** POST /items on the store: nothing is written in the collections, or
    the form was valid, the item is written under a new id, with the time
    of the store, and the matches are generated for it. *)
Lemma createItem_store (body : ItemForm) (file : option UploadedFile) (uid : string)
  (w : World) :
  (items (createItem body file uid w).2 = items w /\
   matches (createItem body file uid w).2 = matches w /\
   notifications (createItem body file uid w).2 = notifications w /\
   forall id data n ms, (createItem body file uid w).1 <> Created id data n ms) \/
  exists (image_url : string) (w1 : World),
    truthy (form_title body) = true /\
    truthy (form_category body) = true /\
    (form_status body = Some "Lost" \/ form_status body = Some "Found") /\
    items w1 = <[fresh (dom (items w)) :=
                   Item.resolve (clock w) (itemDataOf body image_url uid)]> (items w) /\
    matches w1 = matches w /\ notifications w1 = notifications w /\
    createItem body file uid w =
      let r := generateMatches (fresh (dom (items w)))
                 (itemDataOf body image_url uid) w1 in
      (match r.1 with
       | Return ms =>
           Created (fresh (dom (items w))) (itemDataOf body image_url uid)
                   (List.length ms) ms
       | Throw _ => Failure 500 "Failed to create item"
       end, r.2).
Proof.
  unfold createItem, route, bind.
  destruct (truthy (form_title body)) eqn:Ht; cbn [negb orb];
    [|left; repeat split; discriminate].
  destruct (truthy (form_category body)) eqn:Hc; cbn [negb orb];
    [|left; repeat split; discriminate].
  destruct (truthy (form_status body)) eqn:Hs; cbn [negb orb];
    [|left; repeat split; discriminate].
  destruct (arrayIncludes ["Lost"; "Found"] (str (form_status body))) eqn:Hin;
    cbn [negb]; [|left; repeat split; discriminate].
  assert (Hst : form_status body = Some "Lost" \/ form_status body = Some "Found").
  { apply lostOrFound in Hin. apply truthy_Some in Hs as (s & Hs & _).
    rewrite Hs in *. cbn in Hin. destruct Hin; subst; auto. }
  assert (Hup : exists r w0,
    match file with
    | Some f =>
        tryCatch (fun w => match uploadImageToStorage f "items" w with
                           | (Return url, w') => ret (inr url) w'
                           | (Throw e, w') => (Throw e, w')
                           end)
                 (fun _ => ret (inl (Failure 400 "Failed to upload image")))
    | None => ret (inr "")
    end w = (Return r, w0) /\
    items w0 = items w /\ matches w0 = matches w /\
    notifications w0 = notifications w /\ clock w0 = clock w /\
    (forall resp, r = inl resp -> resp = Failure 400 "Failed to upload image")).
  { destruct file as [f|].
    - unfold tryCatch, ret.
      pose proof (uploadImageToStorage_store f "items" w) as (Hi & Hm & Hn & Hck).
      destruct (uploadImageToStorage f "items" w) as [[url|e] w0]; cbn [snd] in *;
        eexists _, _; (split; [reflexivity|]); repeat split; try assumption;
        intros resp [=]; congruence.
    - exists (inr ""), w. repeat split. intros resp [=]. }
  destruct Hup as (r & w0 & Hrun & Hi & Hm & Hn & Hck & Hresp).
  unfold bind in Hrun. rewrite Hrun.
  destruct r as [resp|image_url].
  { left. cbn [snd fst]. unfold ret. cbn [snd fst]. repeat split; try assumption.
    rewrite (Hresp resp eq_refl). discriminate. }
  fold (itemDataOf body image_url uid).
  unfold createItemRef. rewrite setItem_eq.
  destruct (nextFails w0).
  { left. cbn [snd fst]. repeat split; try assumption. discriminate. }
  right. exists image_url, (tick (withItems
           <[fresh (dom (items w0)) :=
               Item.resolve (clock w0) (itemDataOf body image_url uid)]> (answered w0))).
  world_simpl. rewrite Hi, Hck.
  repeat split; try assumption.
  destruct (generateMatches _ _ _) as [[ms|e] w']; reflexivity.
Qed.

(** PUT /notifications/:id/read on the store: nothing is written, or the
    notification is the user's and it is marked read at the time of the
    store. *)
Lemma markRead_store (id : DocId) (uid : string) (w : World) :
  items (markRead id uid w).2 = items w /\
  matches (markRead id uid w).2 = matches w /\
  (notifications (markRead id uid w).2 = notifications w \/
   exists n,
     notifications w !! id = Some n /\ Notification.user_id n = uid /\
     notifications (markRead id uid w).2 =
       <[id := Notification.resolvePatch (clock w) (Notification.setRead ServerTimestamp n)]>
         (notifications w)).
Proof.
  unfold markRead, route, bind. rewrite getNotification_eq.
  destruct (nextFails w); [repeat split; now left|].
  destruct (notifications w !! id) as [n|] eqn:Hn; [|repeat split; now left].
  destruct (String.eqb_spec (Notification.user_id n) uid) as [Hu|Hu]; cbn [negb];
    [|repeat split; now left].
  rewrite updateNotification_eq. world_simpl. rewrite Hn.
  destruct (nextFails (answered w)); [repeat split; now left|].
  repeat split. right. exists n. repeat split; assumption.
Qed.

Lemma returnItems_notifications (m : Match.t) (w : World) :
  notifications (returnItems m w).2 = notifications w.
Proof.
  rewrite returnItems_world.
  destruct (updateItem_cases (Match.found_item_id m) (Item.setStatus "Returned")
              (updateItem (Match.lost_item_id m) (Item.setStatus "Returned") w).2)
    as (_ & -> & _).
  now destruct (updateItem_cases (Match.lost_item_id m) (Item.setStatus "Returned") w)
    as (_ & -> & _).
Qed.

Lemma updateMatchStatus_notifications (id : DocId) (st : option string)
  (uid : string) (w : World) :
  notifications (updateMatchStatus id st uid w).2 = notifications w.
Proof.
  unfold updateMatchStatus, route, bind.
  destruct st as [s|]; [|reflexivity].
  destruct (arrayIncludes ["Pending"; "Confirmed"; "Rejected"] s); [|reflexivity].
  cbn [negb]. rewrite getMatch_eq.
  destruct (nextFails w); [reflexivity|].
  destruct (matches w !! id) as [m|] eqn:Hm; [|reflexivity].
  rewrite getItems_eq. world_simpl.
  destruct (nextFails (answered w) || nextFails (answered (answered w))); [reflexivity|].
  cbn [fst snd].
  destruct (postedBy (items w !! Match.lost_item_id m) uid
            || postedBy (items w !! Match.found_item_id m) uid); [|reflexivity].
  cbn [negb]. rewrite updateMatch_eq. world_simpl. rewrite Hm.
  destruct (nextFails (answered (answered (answered w)))); [reflexivity|].
  change (str (Some s)) with s.
  destruct (String.eqb s "Confirmed"); [|reflexivity].
  fold (returnItems m). fold (statusWritten id s m w).
  pose proof (returnItems_notifications m (statusWritten id s m w)) as Hr.
  destruct (returnItems m (statusWritten id s m w)) as [[?|?] wr];
    unfold ret; cbn [snd] in *; rewrite Hr; reflexivity.
Qed.

(** The reading routes write nothing. *)
Lemma listItems_sameStore (status category : option string) (w : World) :
  sameStore w (listItems status category w).2.
Proof.
  unfold listItems, listingRoute, bind. rewrite remoteCall_eq.
  destruct (nextFails w); apply sameStore_answered.
Qed.

Lemma listNotifications_sameStore (uid : string) (is_read : option string) (w : World) :
  sameStore w (listNotifications uid is_read w).2.
Proof.
  unfold listNotifications, listingRoute, bind. rewrite remoteCall_eq.
  destruct (nextFails w); apply sameStore_answered.
Qed.

Lemma collectMatches_sameStore (allMatches : list (DocId * Match.t))
  (acc : list MatchView.t) (w : World) :
  sameStore w (collectMatches allMatches acc w).2.
Proof.
  revert acc w. induction allMatches as [|d rest IH]; intros acc w.
  - apply sameStore_refl.
  - cbn [collectMatches]. unfold bind.
    pose proof (getItems_sameStore (Match.lost_item_id d.2) (Match.found_item_id d.2) w)
      as Hg.
    destruct (promiseAll2 _ _ w) as [[docs|e] w1]; cbn [snd] in *; [|exact Hg].
    eapply sameStore_trans; [exact Hg|apply IH].
Qed.

Lemma queryItemsPostedBy_eq (uid : string) (w : World) :
  queryItemsPostedBy uid w =
  if nextFails w then (Throw ServiceError, answered w)
  else (Return (List.filter (fun d => String.eqb (Item.posted_by d.2) uid)
                            (map_to_list (items w))), answered w).
Proof. unfold queryItemsPostedBy, bind. rewrite remoteCall_eq. now destruct (nextFails w). Qed.

Lemma queryMatchesIn_eq (field : Match.t -> DocId) (ids : list DocId) (w : World) :
  queryMatchesIn field ids w =
  if nextFails w || (inFilterLimit <? List.length ids)%nat
  then (Throw ServiceError, answered w)
  else (Return (List.filter (fun d => existsb (Nat.eqb (field d.2)) ids)
                            (map_to_list (matches w))), answered w).
Proof.
  unfold queryMatchesIn, bind. rewrite remoteCall_eq.
  destruct (nextFails w); [reflexivity|].
  now destruct (inFilterLimit <? List.length ids)%nat.
Qed.

Lemma listMatches_sameStore (uid : string) (w : World) :
  sameStore w (listMatches uid w).2.
Proof.
  unfold listMatches, listingRoute, bind. rewrite queryItemsPostedBy_eq.
  destruct (nextFails w); [apply sameStore_answered|].
  destruct (List.length _ =? 0)%nat; [apply sameStore_answered|].
  rewrite queryMatchesIn_eq.
  destruct (nextFails (answered w) || _); [repeat split|].
  rewrite queryMatchesIn_eq.
  destruct (nextFails (answered (answered w)) || _); [repeat split|].
  match goal with
  | |- context [collectMatches ?l ?acc ?w1] =>
      pose proof (collectMatches_sameStore l acc w1) as Hc;
      destruct (collectMatches l acc w1) as [[ms|e] w2]
  end; cbn [snd] in *;
    (eapply sameStore_trans; [|exact Hc]); repeat split.
Qed.

(** ** Invariants of the store *)

Lemma confidenceScore_le_90 (a b : Item.t) (s : nat) :
  confidenceScore a b = Return s -> s <= 90.
Proof.
  unfold confidenceScore.
  destruct (descriptionFactor_values (Item.description a) (Item.description b))
    as (k & Hk & ->).
  destruct (titleFactor_values (Item.title a) (Item.title b))
    as [-> | [-> | [-> _]]]; [| |discriminate];
    destruct (locationFactor_values (Item.location a) (Item.location b))
      as [-> | [-> | ->]]; intros [= <-]; lia.
Qed.

Lemma consistent_collections (w w' : World) :
  items w' = items w -> matches w' = matches w ->
  notifications w' = notifications w -> consistent w -> consistent w'.
Proof. unfold consistent. now intros -> -> ->. Qed.

Lemma consistent_sameStore (w w' : World) :
  sameStore w w' -> consistent w -> consistent w'.
Proof. intros (Hi & Hm & Hn & _). now apply consistent_collections. Qed.

Lemma opposite_differs (s : string) :
  (if String.eqb s "Lost" then "Found" else "Lost") <> s.
Proof.
  destruct (String.eqb_spec s "Lost") as [->|Hne]; [discriminate|congruence].
Qed.

(** An iteration of the scan keeps the store consistent, when the new item
    is in the store with its status, Lost or Found, and the candidate is a
    stored item of the opposite status. *)
Lemma scanCandidate_consistent newItemId newItemData (doc : DocId * Item.t)
  (w : World) (r : Outcome (option MatchInfo.t)) (w' : World) (newItem : Item.t) :
  items w !! newItemId = Some newItem ->
  Item.status newItem = Item.status newItemData ->
  Item.status newItemData = "Lost" \/ Item.status newItemData = "Found" ->
  items w !! doc.1 = Some doc.2 ->
  Item.status doc.2 =
    (if String.eqb (Item.status newItemData) "Lost" then "Found" else "Lost") ->
  scanCandidate newItemId newItemData doc w = (r, w') ->
  consistent w -> consistent w'.
Proof.
  intros Hnew Hst Hlf Hdoc Hopp Hc (Hm & Hn & Hi).
  destruct (scanCandidate_cases _ _ _ _ _ _ Hc)
    as (Hitems & _ & [(Hms & Hns & _) | (s & Hs & Hle & Hms & Hcase)]).
  { apply (consistent_collections w); [assumption..|]. now split. }
  assert (Hne : newItemId <> doc.1).
  { intros Heq. rewrite Heq, Hdoc in Hnew. injection Hnew as <-.
    rewrite Hst in Hopp. symmetry in Hopp. now apply opposite_differs in Hopp. }
  assert (Hm' : forall id m, matches w' !! id = Some m ->
            30 <= Match.confidence_score m <= 90 /\
            In (Match.status m) matchStatuses /\
            is_Some (items w' !! Match.lost_item_id m) /\
            is_Some (items w' !! Match.found_item_id m) /\
            Match.lost_item_id m <> Match.found_item_id m).
  { intros id m. rewrite Hms, Hitems.
    destruct (decide (fresh (dom (matches w)) = id)) as [<-|Hid].
    - rewrite lookup_insert_eq. intros [= <-]. unfold newMatch.
      cbn [Match.confidence_score Match.status Match.lost_item_id Match.found_item_id].
      split; [split; [assumption|now apply confidenceScore_le_90 in Hs]|].
      split; [simpl; tauto|].
      destruct Hlf as [-> | ->]; cbn [String.eqb Ascii.eqb Bool.eqb];
        (split; [by eexists|]); (split; [by eexists|]); congruence.
    - rewrite lookup_insert_ne by assumption. apply Hm. }
  assert (Hsub : forall id, is_Some (matches w !! id) -> is_Some (matches w' !! id)).
  { intros id [m Hid]. exists m. rewrite Hms.
    rewrite lookup_insert_ne; [assumption|].
    intros <-. rewrite fresh_match_id in Hid. discriminate. }
  split; [exact Hm'|]. split; [|now rewrite Hitems].
  destruct Hcase as [(Hns & _) | (Hns & _)]; intros id n; rewrite Hns.
  - intros Hid. eapply Hsub, Hn, Hid.
  - destruct (decide (fresh (dom (notifications w)) = id)) as [<-|Hid].
    + rewrite lookup_insert_eq. intros [= <-].
      cbn [newNotification Notification.match_id]. rewrite Hms, lookup_insert_eq.
      by eexists.
    + rewrite lookup_insert_ne by assumption. intros Hl. eapply Hsub, Hn, Hl.
Qed.

Lemma scanDocs_consistent newItemId newItemData (newItem : Item.t)
  (docs : list (DocId * Item.t)) (acc : list MatchInfo.t) (w : World)
  (r : Outcome (list MatchInfo.t)) (w' : World) :
  items w !! newItemId = Some newItem ->
  Item.status newItem = Item.status newItemData ->
  Item.status newItemData = "Lost" \/ Item.status newItemData = "Found" ->
  Forall (fun doc => items w !! doc.1 = Some doc.2 /\
                     Item.status doc.2 =
                       (if String.eqb (Item.status newItemData) "Lost"
                        then "Found" else "Lost")) docs ->
  scanDocs newItemId newItemData docs acc w = (r, w') ->
  consistent w -> consistent w'.
Proof.
  intros Hnew Hst Hlf. revert acc w Hnew.
  induction docs as [|doc rest IH]; intros acc w Hnew Hdocs Hrun Hcons.
  - now injection Hrun as <- <-.
  - apply Forall_cons in Hdocs as [[Hdoc Hopp] Hrest].
    simpl in Hrun. unfold bind in Hrun.
    destruct (scanCandidate newItemId newItemData doc w) as [[pushed|e] w1] eqn:Hc.
    + pose proof (scanCandidate_consistent _ _ _ _ _ _ _ Hnew Hst Hlf Hdoc Hopp Hc Hcons)
        as Hcons1.
      destruct (scanCandidate_cases _ _ _ _ _ _ Hc) as (Hitems & _).
      eapply (IH _ w1); [now rewrite Hitems| |exact Hrun|exact Hcons1].
      eapply Forall_impl; [exact Hrest|]. intros d. now rewrite Hitems.
    + injection Hrun as <- <-.
      exact (scanCandidate_consistent _ _ _ _ _ _ _ Hnew Hst Hlf Hdoc Hopp Hc Hcons).
Qed.

Lemma generateMatches_consistent newItemId newItemData (newItem : Item.t) (w : World) :
  items w !! newItemId = Some newItem ->
  Item.status newItem = Item.status newItemData ->
  Item.status newItemData = "Lost" \/ Item.status newItemData = "Found" ->
  consistent w -> consistent (generateMatches newItemId newItemData w).2.
Proof.
  intros Hnew Hst Hlf Hcons.
  rewrite generateMatches_eq. unfold matchScan, bind. cbv zeta. rewrite queryItems_eq.
  destruct (nextFails w); [exact (consistent_sameStore _ _ (sameStore_answered w) Hcons)|].
  destruct (scanDocs newItemId newItemData (candidates newItemData w) [] (answered w))
    as [r w'] eqn:Hrun.
  assert (Hc : consistent w').
  { apply (scanDocs_consistent newItemId newItemData newItem
             (candidates newItemData w) [] (answered w) r w' Hnew Hst Hlf);
      [|exact Hrun|exact (consistent_sameStore _ _ (sameStore_answered w) Hcons)].
    apply Forall_forall. intros doc Hdoc.
    apply candidates_spec in Hdoc as (H1 & _ & H3). now split. }
  now destruct r.
Qed.

Lemma createItem_consistent (body : ItemForm) (file : option UploadedFile)
  (uid : string) (w : World) :
  consistent w -> consistent (createItem body file uid w).2.
Proof.
  intros Hcons.
  destruct (createItem_store body file uid w)
    as [(Hi & Hm & Hn & _) |
        (url & w1 & _ & _ & Hst & Hi & Hm & Hn & ->)];
    [now apply (consistent_collections w)|].
  cbv zeta. cbn [snd].
  assert (Hstatus : Item.status (itemDataOf body url uid) = "Lost" \/
                    Item.status (itemDataOf body url uid) = "Found").
  { unfold itemDataOf. cbn [Item.status]. destruct Hst as [-> | ->]; auto. }
  apply (generateMatches_consistent _ _
           (Item.resolve (clock w) (itemDataOf body url uid)));
    [rewrite Hi; apply lookup_insert_eq|reflexivity|exact Hstatus|].
  destruct Hcons as (Hcm & Hcn & Hci).
  split; [|split].
  - intros id m. rewrite Hm, Hi. intros Hid.
    destruct (Hcm id m Hid) as (H1 & H2 & H3 & H4 & H5).
    split; [assumption|]. split; [assumption|].
    split; [apply lookup_insert_is_Some'; now right|].
    split; [apply lookup_insert_is_Some'; now right|assumption].
  - intros id n. rewrite Hn, Hm. apply Hcn.
  - intros id i. rewrite Hi.
    destruct (decide (fresh (dom (items w)) = id)) as [<-|Hid].
    + rewrite lookup_insert_eq. intros [= <-].
      change (Item.status (Item.resolve (clock w) (itemDataOf body url uid)))
        with (Item.status (itemDataOf body url uid)).
      unfold itemStatuses. destruct Hstatus as [-> | ->]; simpl; tauto.
    + rewrite lookup_insert_ne by assumption. apply Hci.
Qed.

Lemma markRead_consistent (id : DocId) (uid : string) (w : World) :
  consistent w -> consistent (markRead id uid w).2.
Proof.
  intros Hcons.
  destruct (markRead_store id uid w) as (Hi & Hm & [Hn | (n & Hl & _ & Hn)]);
    [now apply (consistent_collections w)|].
  destruct Hcons as (Hcm & Hcn & Hci).
  split; [now rewrite Hm, Hi|]. split; [|now rewrite Hi].
  intros k n'. rewrite Hn, Hm.
  destruct (decide (id = k)) as [<-|Hk].
  - rewrite lookup_insert_eq. intros [= <-]. exact (Hcn id n Hl).
  - rewrite lookup_insert_ne by assumption. apply Hcn.
Qed.

Lemma itemStep_refl (i : Item.t) : itemStep i i.
Proof. repeat split. now left. Qed.

Lemma itemStep_trans (i1 i2 i3 : Item.t) :
  itemStep i1 i2 -> itemStep i2 i3 -> itemStep i1 i3.
Proof.
  unfold itemStep.
  intros (? & ? & ? & ? & ? & ? & ? & ? & Hs) (? & ? & ? & ? & ? & ? & ? & ? & Hs').
  repeat split; try congruence.
  destruct Hs' as [Hs'|Hs']; [|now right].
  destruct Hs as [Hs|Hs]; [left|right]; congruence.
Qed.

Lemma itemStep_returned (i : Item.t) :
  itemStep i (Item.setStatus "Returned" i).
Proof. repeat split. now right. Qed.

Lemma itemsEvolve_refl (its : gmap DocId Item.t) : itemsEvolve its its.
Proof.
  intros k. destruct (its !! k); constructor. apply itemStep_refl.
Qed.

Lemma itemsEvolve_trans (a b c : gmap DocId Item.t) :
  itemsEvolve a b -> itemsEvolve b c -> itemsEvolve a c.
Proof.
  intros Hab Hbc k. specialize (Hab k). specialize (Hbc k).
  destruct Hab as [i1 i2 H12|]; inversion Hbc as [? i3 H23|]; subst; constructor.
  by eapply itemStep_trans.
Qed.

Lemma updateItem_itemsEvolve (a : DocId) (w : World) :
  itemsEvolve (items w) (items (updateItem a (Item.setStatus "Returned") w).2).
Proof.
  destruct (updateItem_cases a (Item.setStatus "Returned") w)
    as (_ & _ & _ & [(i & _ & _ & Hi & ->) | (e & _ & _ & ->)]);
    [|apply itemsEvolve_refl].
  intros k. destruct (decide (a = k)) as [<-|Hne].
  - rewrite lookup_insert_eq, Hi. constructor. apply itemStep_returned.
  - rewrite lookup_insert_ne by assumption. apply itemsEvolve_refl.
Qed.

Lemma returnItems_itemsEvolve (m : Match.t) (w : World) :
  itemsEvolve (items w) (items (returnItems m w).2).
Proof.
  rewrite returnItems_world.
  eapply itemsEvolve_trans; apply updateItem_itemsEvolve.
Qed.

Lemma updateMatchStatus_itemsEvolve (id : DocId) (st : option string) (uid : string)
  (w : World) :
  itemsEvolve (items w) (items (updateMatchStatus id st uid w).2).
Proof.
  destruct (updateMatchStatus_items id st uid w) as [-> | (m & _ & _ & ->)];
    [apply itemsEvolve_refl|].
  exact (returnItems_itemsEvolve m (statusWritten id "Confirmed" m w)).
Qed.

Lemma updateMatchStatus_consistent (id : DocId) (st : option string) (uid : string)
  (w : World) :
  consistent w -> consistent (updateMatchStatus id st uid w).2.
Proof.
  intros (Hcm & Hcn & Hci).
  pose proof (updateMatchStatus_itemsEvolve id st uid w) as Hev.
  pose proof (updateMatchStatus_notifications id st uid w) as Hn.
  assert (Hsome : forall k, is_Some (items w !! k) ->
                            is_Some (items (updateMatchStatus id st uid w).2 !! k)).
  { intros k [i Hk]. specialize (Hev k). rewrite Hk in Hev.
    inversion Hev; subst. by eexists. }
  assert (Hms : forall k m', matches (updateMatchStatus id st uid w).2 !! k = Some m' ->
                  exists m, matches w !! k = Some m /\
                            Match.confidence_score m' = Match.confidence_score m /\
                            Match.lost_item_id m' = Match.lost_item_id m /\
                            Match.found_item_id m' = Match.found_item_id m /\
                            (Match.status m' = Match.status m \/
                             In (Match.status m') matchStatuses)).
  { intros k m'.
    destruct (updateMatchStatus_matches id st uid w)
      as [-> | (s & m & _ & Hs & Hm & _ & ->)].
    - intros Hk. exists m'. repeat split; auto.
    - destruct (decide (id = k)) as [<-|Hne].
      + rewrite lookup_insert_eq. intros [= <-]. exists m. repeat split; auto.
      + rewrite lookup_insert_ne by assumption. intros Hk. exists m'.
        repeat split; auto. }
  split; [|split].
  - intros k m' Hk. destruct (Hms k m' Hk) as (m & Hm & -> & -> & -> & Hst).
    destruct (Hcm k m Hm) as (H1 & H2 & H3 & H4 & H5).
    split; [assumption|]. split; [destruct Hst as [-> | ?]; assumption|].
    split; [now apply Hsome|]. split; [now apply Hsome|assumption].
  - intros k n. rewrite Hn. intros Hk. destruct (Hcn k n Hk) as [m Hm].
    destruct (updateMatchStatus_matches id st uid w)
      as [-> | (s & m0 & _ & _ & _ & _ & ->)]; [by eexists|].
    apply lookup_insert_is_Some'. right. by eexists.
  - intros k i' Hk. specialize (Hev k). rewrite Hk in Hev.
    inversion Hev as [i ? (_ & _ & _ & _ & _ & _ & _ & _ & Hst) Hi|]; subst.
    symmetry in Hi. destruct Hst as [-> | ->]; [exact (Hci k i Hi)|].
    unfold itemStatuses. simpl. tauto.
Qed.

(** X5: the routes keep the store consistent. After any sequence of
    requests on a consistent store, every match has a score from 30 to 90 and
    a status among Pending, Confirmed, Rejected, and pairs two different
    items that are in the store; every notification is for a match that is
    in the store; every item is Lost, Found or Returned. *)
Theorem consistent_preserved (rs : list Request) (w : World) :
  consistent w -> consistent (serveAll rs w).
Proof.
  revert w. induction rs as [|r rs IH]; intros w Hcons; [exact Hcons|].
  cbn [serveAll List.fold_left]. apply IH.
  destruct r as [body file uid | id uid | id st uid | st cat | uid rd | uid];
    cbn [serve].
  - now apply createItem_consistent.
  - now apply markRead_consistent.
  - now apply updateMatchStatus_consistent.
  - exact (consistent_sameStore _ _ (listItems_sameStore st cat w) Hcons).
  - exact (consistent_sameStore _ _ (listNotifications_sameStore uid rd w) Hcons).
  - exact (consistent_sameStore _ _ (listMatches_sameStore uid w) Hcons).
Qed.

Lemma consistent_emptyBoard (entropy : list nat) (outages : list bool) :
  consistent (emptyBoard entropy outages).
Proof.
  split; [|split]; intros id x; cbn [emptyBoard matches notifications items];
    rewrite lookup_empty; discriminate.
Qed.

Lemma consistent_preserved_witness :
  consistent
    (serveAll [PostItem (Build_ItemForm (Some "Blue Backpack") None (Some "Bags") None
                                        (Some "Library") (Some "Lost")) None "alice";
               PostItem foundBackpackForm None "bob";
               PutMatchStatus 0 (Some "Confirmed") "alice";
               PutNotificationRead 0 "alice"]
              (emptyBoard [] [])).
Proof.
  apply consistent_preserved. apply consistent_emptyBoard.
Defined.

Lemma matchStep_refl (m : Match.t) : matchStep m m.
Proof. repeat split. now left. Qed.

Lemma matchStep_trans (m1 m2 m3 : Match.t) :
  matchStep m1 m2 -> matchStep m2 m3 -> matchStep m1 m3.
Proof.
  unfold matchStep. intros (? & ? & ? & ? & Hs) (? & ? & ? & ? & Hs').
  repeat split; try congruence.
  destruct Hs' as [Hs'|Hs']; [|now right].
  destruct Hs as [Hs|Hs]; [left|right]; congruence.
Qed.

Lemma notificationStep_refl (n : Notification.t) : notificationStep n n.
Proof. repeat split. auto. Qed.

Lemma notificationStep_trans (n1 n2 n3 : Notification.t) :
  notificationStep n1 n2 -> notificationStep n2 n3 -> notificationStep n1 n3.
Proof.
  unfold notificationStep. intros (? & ? & ? & ? & Hr) (? & ? & ? & ? & Hr').
  repeat split; try congruence. auto.
Qed.

Lemma evolves_refl (w : World) : evolves w w.
Proof.
  split; [|split]; intros id x Hx; exists x; (split; [assumption|]).
  - apply itemStep_refl.
  - apply matchStep_refl.
  - apply notificationStep_refl.
Qed.

Lemma evolves_trans (w1 w2 w3 : World) :
  evolves w1 w2 -> evolves w2 w3 -> evolves w1 w3.
Proof.
  intros (Hi & Hm & Hn) (Hi' & Hm' & Hn'). split; [|split]; intros id x Hx.
  - destruct (Hi id x Hx) as (y & Hy & Hxy). destruct (Hi' id y Hy) as (z & Hz & Hyz).
    exists z. split; [assumption|]. by eapply itemStep_trans.
  - destruct (Hm id x Hx) as (y & Hy & Hxy). destruct (Hm' id y Hy) as (z & Hz & Hyz).
    exists z. split; [assumption|]. by eapply matchStep_trans.
  - destruct (Hn id x Hx) as (y & Hy & Hxy). destruct (Hn' id y Hy) as (z & Hz & Hyz).
    exists z. split; [assumption|]. by eapply notificationStep_trans.
Qed.

Lemma evolves_subseteq (w w' : World) :
  items w ⊆ items w' -> matches w ⊆ matches w' ->
  notifications w ⊆ notifications w' -> evolves w w'.
Proof.
  intros Hi Hm Hn. split; [|split]; intros id x Hx; exists x;
    (split; [eapply lookup_weaken; eassumption|]).
  - apply itemStep_refl.
  - apply matchStep_refl.
  - apply notificationStep_refl.
Qed.

Lemma createItem_evolves (body : ItemForm) (file : option UploadedFile)
  (uid : string) (w : World) :
  evolves w (createItem body file uid w).2.
Proof.
  destruct (createItem_store body file uid w)
    as [(Hi & Hm & Hn & _) | (url & w1 & _ & _ & _ & Hi & Hm & Hn & ->)].
  - apply evolves_subseteq; [rewrite Hi|rewrite Hm|rewrite Hn]; done.
  - cbv zeta. cbn [snd].
    destruct (generateMatches_total (fresh (dom (items w))) (itemDataOf body url uid) w1)
      as (ms & w' & -> & (Hms & Hns & Hits)).
    cbn [snd]. apply evolves_subseteq.
    + rewrite Hits, Hi. apply insert_subseteq, fresh_item_id.
    + now rewrite <- Hm.
    + now rewrite <- Hn.
Qed.

Lemma markRead_evolves (id : DocId) (uid : string) (w : World) :
  evolves w (markRead id uid w).2.
Proof.
  destruct (markRead_store id uid w) as (Hi & Hm & [Hn | (n & Hl & _ & Hn)]).
  - apply evolves_subseteq; [rewrite Hi|rewrite Hm|rewrite Hn]; done.
  - split; [|split]; intros k x Hx.
    + exists x. rewrite Hi. split; [assumption|apply itemStep_refl].
    + exists x. rewrite Hm. split; [assumption|apply matchStep_refl].
    + rewrite Hn. destruct (decide (id = k)) as [<-|Hne].
      * rewrite lookup_insert_eq. rewrite Hl in Hx. injection Hx as <-.
        eexists. split; [reflexivity|]. repeat split.
      * rewrite lookup_insert_ne by assumption.
        exists x. split; [assumption|apply notificationStep_refl].
Qed.

Lemma updateMatchStatus_evolves (id : DocId) (st : option string) (uid : string)
  (w : World) :
  evolves w (updateMatchStatus id st uid w).2.
Proof.
  split; [|split]; intros k x Hx.
  - pose proof (updateMatchStatus_itemsEvolve id st uid w k) as Hev.
    rewrite Hx in Hev. inversion Hev; subst. by eexists.
  - destruct (updateMatchStatus_matches id st uid w)
      as [-> | (s & m & _ & Hs & Hm & _ & ->)].
    + exists x. split; [assumption|apply matchStep_refl].
    + destruct (decide (id = k)) as [<-|Hne].
      * rewrite lookup_insert_eq. rewrite Hm in Hx. injection Hx as <-.
        eexists. split; [reflexivity|]. repeat split. now right.
      * rewrite lookup_insert_ne by assumption.
        exists x. split; [assumption|apply matchStep_refl].
  - rewrite updateMatchStatus_notifications.
    exists x. split; [assumption|apply notificationStep_refl].
Qed.

Lemma sameStore_evolves (w w' : World) : sameStore w w' -> evolves w w'.
Proof.
  intros (Hi & Hm & Hn & _).
  apply evolves_subseteq; [rewrite Hi|rewrite Hm|rewrite Hn]; done.
Qed.

(** X6: no route deletes a document. After any sequence of requests every
    item, match and notification of the store is still there, under its id.
    An item keeps every field but its status (title, description,
    category, contact, location, image, poster and date), and its status
    unless it has become Returned; a match keeps its two items, its score
    and its time of creation; a notification keeps its addressee, message,
    match and time of creation, and once read it stays read. *)
Theorem documents_persist (rs : list Request) (w : World) :
  evolves w (serveAll rs w).
Proof.
  revert w. induction rs as [|r rs IH]; intros w; [apply evolves_refl|].
  cbn [serveAll List.fold_left].
  apply (evolves_trans w (serve r w)); [|apply IH].
  destruct r as [body file uid | id uid | id st uid | st cat | uid rd | uid];
    cbn [serve].
  - apply createItem_evolves.
  - apply markRead_evolves.
  - apply updateMatchStatus_evolves.
  - apply sameStore_evolves, listItems_sameStore.
  - apply sameStore_evolves, listNotifications_sameStore.
  - apply sameStore_evolves, listMatches_sameStore.
Qed.

(** ** Who changes an item *)

Lemma updateMatchStatus_items_owner (id : DocId) (st : option string) (uid : string)
  (w : World) :
  items (updateMatchStatus id st uid w).2 = items w \/
  exists m,
    matches w !! id = Some m /\ st = Some "Confirmed" /\
    userOwnsItem m uid w = true /\
    items (updateMatchStatus id st uid w).2 =
      items (returnItems m (statusWritten id "Confirmed" m w)).2.
Proof.
  unfold updateMatchStatus, route, bind.
  destruct st as [s|]; [|now left].
  destruct (arrayIncludes ["Pending"; "Confirmed"; "Rejected"] s) eqn:Hin; [|now left].
  cbn [negb]. rewrite getMatch_eq.
  destruct (nextFails w); [now left|].
  destruct (matches w !! id) as [m|] eqn:Hm; [|now left].
  rewrite getItems_eq. world_simpl.
  destruct (nextFails (answered w) || nextFails (answered (answered w))); [now left|].
  cbn [fst snd].
  destruct (postedBy (items w !! Match.lost_item_id m) uid
            || postedBy (items w !! Match.found_item_id m) uid) eqn:Hown; [|now left].
  cbn [negb]. rewrite updateMatch_eq. world_simpl. rewrite Hm.
  destruct (nextFails (answered (answered (answered w)))); [now left|].
  change (str (Some s)) with s.
  destruct (String.eqb_spec s "Confirmed") as [->|Hne]; [|now left].
  right. exists m. split; [reflexivity|]. split; [reflexivity|]. split; [exact Hown|].
  fold (returnItems m). fold (statusWritten id "Confirmed" m w).
  destruct (returnItems m (statusWritten id "Confirmed" m w)) as [[?|?] wr];
    reflexivity.
Qed.

Lemma updateItem_at (a k : DocId) (w : World) (i : Item.t) :
  items w !! k = Some i ->
  items (updateItem a (Item.setStatus "Returned") w).2 !! k = Some i \/
  (a = k /\ exists i', items (updateItem a (Item.setStatus "Returned") w).2 !! k = Some i' /\
                       itemStep i i' /\ Item.status i' = "Returned").
Proof.
  intros Hk.
  destruct (updateItem_cases a (Item.setStatus "Returned") w)
    as (_ & _ & _ & [(i0 & _ & _ & Hi & ->) | (e & _ & _ & ->)]); [|now left].
  destruct (decide (a = k)) as [<-|Hne].
  - right. split; [reflexivity|]. rewrite Hk in Hi. injection Hi as <-.
    rewrite lookup_insert_eq. eexists. split; [reflexivity|].
    split; [apply itemStep_returned|reflexivity].
  - left. now rewrite lookup_insert_ne.
Qed.

Lemma returnItems_at (m : Match.t) (k : DocId) (w : World) (i : Item.t) :
  items w !! k = Some i ->
  items (returnItems m w).2 !! k = Some i \/
  ((k = Match.lost_item_id m \/ k = Match.found_item_id m) /\
   exists i', items (returnItems m w).2 !! k = Some i' /\
              itemStep i i' /\ Item.status i' = "Returned").
Proof.
  intros Hk. rewrite returnItems_world.
  set (w1 := (updateItem (Match.lost_item_id m) (Item.setStatus "Returned") w).2).
  destruct (updateItem_at (Match.lost_item_id m) k w i Hk)
    as [H1 | (Ha & i1 & H1 & Hs1 & Hr1)]; fold w1 in H1.
  - destruct (updateItem_at (Match.found_item_id m) k w1 i H1)
      as [H2 | (Hb & i2 & H2 & Hs2 & Hr2)]; [now left|].
    right. split; [now right|]. by exists i2.
  - destruct (updateItem_at (Match.found_item_id m) k w1 i1 H1)
      as [H2 | (Hb & i2 & H2 & Hs2 & Hr2)].
    + right. split; [now left|]. by exists i1.
    + right. split; [now left|]. exists i2. split; [assumption|].
      split; [by eapply itemStep_trans|assumption].
Qed.

(** X7: the only request that changes a stored item is a request for
    Confirmed on a match, by a user who posted one of the items of that
    match, and it changes no other item than the two of the match, whose
    status becomes Returned. Every other request leaves every stored item
    as it is. *)
Theorem items_change_only_by_confirmation (r : Request) (w : World) (k : DocId)
  (i : Item.t) :
  items w !! k = Some i ->
  items (serve r w) !! k = Some i \/
  exists (matchId : DocId) (uid : string) (m : Match.t) (i' : Item.t),
    r = PutMatchStatus matchId (Some "Confirmed") uid /\
    matches w !! matchId = Some m /\
    userOwnsItem m uid w = true /\
    (k = Match.lost_item_id m \/ k = Match.found_item_id m) /\
    items (serve r w) !! k = Some i' /\
    itemStep i i' /\ Item.status i' = "Returned".
Proof.
  intros Hk.
  destruct r as [body file uid | id uid | id st uid | st cat | uid rd | uid];
    cbn [serve].
  - left.
    destruct (createItem_store body file uid w)
      as [(-> & _) | (url & w1 & _ & _ & _ & Hi & _ & _ & ->)]; [assumption|].
    cbv zeta. cbn [snd].
    destruct (generateMatches_total (fresh (dom (items w))) (itemDataOf body url uid) w1)
      as (ms & w' & Hg & (_ & _ & Hits)).
    rewrite Hg. cbn [snd]. rewrite Hits, Hi, lookup_insert_ne; [assumption|].
    intros Heq. rewrite <- Heq, fresh_item_id in Hk. discriminate.
  - left. destruct (markRead_store id uid w) as (-> & _). assumption.
  - destruct (updateMatchStatus_items_owner id st uid w)
      as [-> | (m & Hm & -> & Hown & ->)]; [now left|].
    destruct (returnItems_at m k (statusWritten id "Confirmed" m w) i Hk)
      as [H | (Hside & i' & H & Hstep & Hret)]; [now left|].
    right. exists id, uid, m, i'.
    split; [reflexivity|]. split; [assumption|]. split; [assumption|].
    split; [assumption|]. split; [assumption|]. split; assumption.
  - left. destruct (listItems_sameStore st cat w) as (-> & _). assumption.
  - left. destruct (listNotifications_sameStore uid rd w) as (-> & _). assumption.
  - left. destruct (listMatches_sameStore uid w) as (-> & _). assumption.
Qed.

Lemma items_change_only_by_confirmation_witness :
  items (serve (PutMatchStatus 0 (Some "Rejected") "bob") matchedBoard) !! 0
    = Some backpackItem /\
  Item.status <$> items (serve (PutMatchStatus 0 (Some "Confirmed") "bob") matchedBoard) !! 0
    = Some "Returned".
Proof.
  split.
  - destruct (items_change_only_by_confirmation
                (PutMatchStatus 0 (Some "Rejected") "bob") matchedBoard 0 backpackItem
                eq_refl) as [H | (mid & uid & m & i' & Hr & _)];
      [exact H|discriminate].
  - vm_compute. reflexivity.
Defined.

(** ** POST /items: a failed upload *)

Lemma uploadImageToStorage_rejected (f : UploadedFile) (folder : string) (w : World) :
  nextFails w = true \/ nextFails (answered w) = true ->
  exists e w',
    uploadImageToStorage f folder w = (Throw e, w') /\
    (nextFails w = true -> bucket w' = bucket w) /\
    (nextFails w = false ->
     exists o, bucket w' = bucket w ++ [o] /\ object_public o = false /\
               object_content o = buffer f /\ object_contentType o = mimetype f).
Proof.
  intros Hrej. unfold uploadImageToStorage, bind, random1E9, ret.
  destruct (entropy w) as [|r rest]; rewrite remoteCall_eq; autorewrite with world.
  - destruct (nextFails w) eqn:H0.
    + eexists _, _. split; [reflexivity|]. split; [reflexivity|discriminate].
    + cbv beta iota. rewrite remoteCall_eq. autorewrite with world.
      change (nextFails (answered _)) with (nextFails (answered w)).
      destruct Hrej as [Hrej|Hrej]; [discriminate|]. rewrite Hrej.
      eexists _, _. split; [reflexivity|]. split; [discriminate|].
      intros _. eexists. repeat split.
  - destruct (nextFails w) eqn:H0.
    + eexists _, _. split; [reflexivity|]. split; [reflexivity|discriminate].
    + cbv beta iota. rewrite remoteCall_eq. autorewrite with world.
      change (nextFails (answered _)) with (nextFails (answered w)).
      destruct Hrej as [Hrej|Hrej]; [discriminate|]. rewrite Hrej.
      eexists _, _. split; [reflexivity|]. split; [discriminate|].
      intros _. eexists. repeat split.
Qed.

(** X8: when the image cannot be uploaded, the item is not created. For a
    valid form with a file, if the bucket rejects the write of the file or
    the call that makes it public, the answer is 400 and no item, match or
    notification is written. In the second case the file has been written
    and stays in the bucket, not public, without an item that refers to
    it. *)
Theorem createItem_upload_failure (body : ItemForm) (f : UploadedFile)
  (uid : string) (w : World) :
  truthy (form_title body) = true ->
  truthy (form_category body) = true ->
  form_status body = Some "Lost" \/ form_status body = Some "Found" ->
  rejectsCall 0 w = true \/ rejectsCall 1 w = true ->
  exists w',
    createItem body (Some f) uid w = (Failure 400 "Failed to upload image", w') /\
    items w' = items w /\ matches w' = matches w /\
    notifications w' = notifications w /\
    (rejectsCall 0 w = true -> bucket w' = bucket w) /\
    (rejectsCall 0 w = false ->
     exists o, bucket w' = bucket w ++ [o] /\ object_public o = false /\
               object_content o = buffer f /\ object_contentType o = mimetype f).
Proof.
  intros Ht Hc Hs Hrej. unfold createItem, route, bind. rewrite Ht, Hc.
  assert (Hst : truthy (form_status body) = true /\
                arrayIncludes ["Lost"; "Found"] (str (form_status body)) = true)
    by (destruct Hs as [-> | ->]; split; reflexivity).
  destruct Hst as [-> ->]. cbn [negb orb].
  rewrite rejectsCall_S, !rejectsCall_0 in Hrej. rewrite rejectsCall_0.
  destruct (uploadImageToStorage_rejected f "items" w Hrej) as (e & w' & Hrun & Hb0 & Hb1).
  pose proof (uploadImageToStorage_store f "items" w) as (Hi & Hm & Hn & _).
  unfold tryCatch, ret. rewrite Hrun in *. cbn [snd] in *.
  exists w'. repeat split; assumption.
Qed.

Lemma createItem_upload_failure_witness :
  exists w',
    createItem foundBackpackForm (Some (Build_UploadedFile "bag.png" "image/png" "PNG"))
      "bob" boardDownAfterOne = (Failure 400 "Failed to upload image", w') /\
    items w' = items boardDownAfterOne /\ matches w' = matches boardDownAfterOne /\
    notifications w' = notifications boardDownAfterOne /\
    (rejectsCall 0 boardDownAfterOne = true -> bucket w' = bucket boardDownAfterOne) /\
    (rejectsCall 0 boardDownAfterOne = false ->
     exists o, bucket w' = bucket boardDownAfterOne ++ [o] /\ object_public o = false /\
               object_content o = "PNG" /\ object_contentType o = "image/png").
Proof.
  exact (createItem_upload_failure foundBackpackForm
           (Build_UploadedFile "bag.png" "image/png" "PNG") "bob" boardDownAfterOne
           eq_refl eq_refl (or_intror eq_refl) (or_intror eq_refl)).
Defined.

(** ** Requests that are refused *)

(** X9: nobody but its addressee can mark a notification read. A request
    by another user writes nothing, whatever the store does; it is answered
    403 when the store hands out the notification (500 when the read is
    rejected). *)
Theorem markRead_by_another_user (id : DocId) (uid : string) (w : World)
  (n : Notification.t) :
  notifications w !! id = Some n ->
  Notification.user_id n <> uid ->
  sameStore w (markRead id uid w).2 /\
  (markRead id uid w).1 =
    if nextFails w then Failure 500 "Failed to update notification"
    else Failure 403 "Unauthorized to update this notification".
Proof.
  intros Hn Hu. unfold markRead, route, bind. rewrite getNotification_eq.
  destruct (nextFails w); [split; [apply sameStore_answered|reflexivity]|].
  rewrite Hn. apply String.eqb_neq in Hu. rewrite Hu. cbn [negb].
  split; [apply sameStore_answered|reflexivity].
Qed.

Lemma markRead_by_another_user_witness :
  sameStore matchedBoard (markRead 0 "bob" matchedBoard).2 /\
  (markRead 0 "bob" matchedBoard).1 =
    Failure 403 "Unauthorized to update this notification".
Proof.
  refine (markRead_by_another_user 0 "bob" matchedBoard aliceNotification eq_refl _).
  discriminate.
Defined.

(** X10: a user who posted neither item of a match cannot change it. The
    request, whatever the status it asks for, writes nothing; it is
    answered 403 when the store takes the three reads. *)
Theorem updateMatchStatus_by_stranger (id : DocId) (s : string) (uid : string)
  (w : World) (m : Match.t) :
  In s matchStatuses ->
  matches w !! id = Some m ->
  userOwnsItem m uid w = false ->
  sameStore w (updateMatchStatus id (Some s) uid w).2 /\
  (accepts 3 w = true ->
   (updateMatchStatus id (Some s) uid w).1 =
     Failure 403 "Unauthorized to update this match").
Proof.
  intros Hs Hm Hown. unfold updateMatchStatus, route, bind.
  assert (Hin : arrayIncludes ["Pending"; "Confirmed"; "Rejected"] s = true)
    by now apply arrayIncludes_In.
  rewrite Hin. cbn [negb]. rewrite getMatch_eq.
  destruct (nextFails w) eqn:H0.
  { split; [apply sameStore_answered|]. intros Hup.
    apply accepts_S in Hup as [Hup _]. congruence. }
  rewrite Hm, getItems_eq. world_simpl.
  destruct (nextFails (answered w) || nextFails (answered (answered w))) eqn:H12.
  { split; [repeat split|]. intros Hup.
    apply accepts_S in Hup as [_ Hup]. apply accepts_S in Hup as [H1 Hup].
    apply accepts_S in Hup as [H2 _]. rewrite H1, H2 in H12. discriminate. }
  cbn [fst snd]. unfold userOwnsItem in Hown. rewrite Hown. cbn [negb].
  split; [repeat split|reflexivity].
Qed.

Lemma updateMatchStatus_by_stranger_witness :
  sameStore matchedBoard (updateMatchStatus 0 (Some "Confirmed") "carol" matchedBoard).2 /\
  (updateMatchStatus 0 (Some "Confirmed") "carol" matchedBoard).1 =
    Failure 403 "Unauthorized to update this match".
Proof.
  destruct (updateMatchStatus_by_stranger 0 "Confirmed" "carol" matchedBoard pendingMatch)
    as [Hsame Hcode]; [simpl; tauto|reflexivity|reflexivity|].
  split; [exact Hsame|exact (Hcode eq_refl)].
Defined.

(** X11: a status that is not exactly Pending, Confirmed or Rejected (or no
    status at all) is answered 400 before anything is read: the world is
    untouched. With a status of the list, an id that is the id of no match
    is answered 404, and nothing is written. *)
Theorem updateMatchStatus_bad_request (id : DocId) (st : option string)
  (uid : string) (w : World) :
  ((forall s, st = Some s -> ~ In s matchStatuses) ->
   updateMatchStatus id st uid w =
     (Failure 400 "Status must be Pending, Confirmed, or Rejected", w)) /\
  (forall s, st = Some s -> In s matchStatuses -> matches w !! id = None ->
     sameStore w (updateMatchStatus id st uid w).2 /\
     (nextFails w = false ->
      (updateMatchStatus id st uid w).1 = Failure 404 "Match not found")).
Proof.
  split.
  - intros Hbad. unfold updateMatchStatus, route, bind.
    destruct st as [s|]; [|reflexivity].
    destruct (arrayIncludes ["Pending"; "Confirmed"; "Rejected"] s) eqn:Hin;
      [|reflexivity].
    apply arrayIncludes_In in Hin. now destruct (Hbad s eq_refl).
  - intros s -> Hs Hm. unfold updateMatchStatus, route, bind.
    assert (Hin : arrayIncludes ["Pending"; "Confirmed"; "Rejected"] s = true)
      by now apply arrayIncludes_In.
    rewrite Hin. cbn [negb]. rewrite getMatch_eq.
    destruct (nextFails w); [split; [apply sameStore_answered|discriminate]|].
    rewrite Hm. split; [apply sameStore_answered|reflexivity].
Qed.

Lemma updateMatchStatus_bad_request_witness :
  updateMatchStatus 0 (Some "confirmed") "alice" matchedBoard =
    (Failure 400 "Status must be Pending, Confirmed, or Rejected", matchedBoard) /\
  (updateMatchStatus 7 (Some "Confirmed") "alice" matchedBoard).1 =
    Failure 404 "Match not found".
Proof.
  destruct (updateMatchStatus_bad_request 0 (Some "confirmed") "alice" matchedBoard)
    as [H400 _].
  destruct (updateMatchStatus_bad_request 7 (Some "Confirmed") "alice" matchedBoard)
    as [_ H404].
  split.
  - apply H400. intros s [= <-]. simpl. intros [H | [H | [H | []]]]; discriminate.
  - apply (H404 "Confirmed" eq_refl); [simpl; tauto|reflexivity|reflexivity].
Defined.

(** ** The reading routes *)

Lemma insertDesc_perm {A} (key : A -> nat * DocId) (x : A) (l : list A) :
  insertDesc key x l ≡ₚ x :: l.
Proof.
  induction l as [|y l IH]; [reflexivity|].
  cbn [insertDesc]. destruct (comesBefore (key x) (key y)); [reflexivity|].
  rewrite IH. apply perm_swap.
Qed.

Lemma orderByDesc_perm {A} (key : A -> nat * DocId) (l : list A) :
  orderByDesc key l ≡ₚ l.
Proof.
  induction l as [|x l IH]; [reflexivity|].
  unfold orderByDesc in *. cbn [List.fold_right].
  rewrite insertDesc_perm. now rewrite IH.
Qed.

Lemma comesBefore_total (a b : nat * DocId) :
  comesBefore a b = false -> comesBefore b a = true.
Proof.
  unfold comesBefore. intros H.
  apply orb_false_iff in H as [H1 H2]. apply Nat.ltb_ge in H1.
  apply orb_true_iff.
  destruct (Nat.eq_dec a.1 b.1) as [Heq|Hne].
  - right. rewrite Heq, Nat.eqb_refl in *. cbn [andb] in *.
    apply Nat.leb_gt in H2. apply Nat.leb_le. lia.
  - left. apply Nat.ltb_lt. lia.
Qed.

Lemma insertDesc_sorted {A} (key : A -> nat * DocId) (x : A) (l : list A) :
  Sorted (fun a b => comesBefore (key a) (key b) = true) l ->
  Sorted (fun a b => comesBefore (key a) (key b) = true) (insertDesc key x l).
Proof.
  induction l as [|y l IH]; intros Hl; cbn [insertDesc].
  - repeat constructor.
  - destruct (comesBefore (key x) (key y)) eqn:Hxy.
    + constructor; [assumption|]. now constructor.
    + apply Sorted_inv in Hl as [Hl Hhd]. constructor; [now apply IH|].
      destruct l as [|z l]; cbn [insertDesc].
      * constructor. now apply comesBefore_total.
      * destruct (comesBefore (key x) (key z)).
        -- constructor. now apply comesBefore_total.
        -- constructor. now apply HdRel_inv in Hhd.
Qed.

Lemma orderByDesc_sorted {A} (key : A -> nat * DocId) (l : list A) :
  Sorted (fun a b => comesBefore (key a) (key b) = true) (orderByDesc key l).
Proof.
  induction l as [|x l IH]; [constructor|].
  unfold orderByDesc in *. cbn [List.fold_right]. now apply insertDesc_sorted.
Qed.

Lemma comesBefore_time (a b : nat * DocId) : comesBefore a b = true -> b.1 <= a.1.
Proof.
  unfold comesBefore. intros H. apply orb_true_iff in H as [H|H].
  - apply Nat.ltb_lt in H. lia.
  - apply andb_true_iff in H as [H _]. apply Nat.eqb_eq in H. lia.
Qed.

Lemma Sorted_weaken {A} (R S : A -> A -> Prop) (l : list A) :
  (forall a b, R a b -> S a b) -> Sorted R l -> Sorted S l.
Proof.
  intros HRS. induction 1 as [|x l Hl IH Hhd]; constructor; [assumption|].
  destruct Hhd; constructor. now apply HRS.
Qed.

Lemma NoDup_fst_filter {A} (f : DocId * A -> bool) (l : list (DocId * A)) :
  NoDup l.*1 -> NoDup (List.filter f l).*1.
Proof.
  induction l as [|d l IH]; [intros; constructor|].
  cbn [fmap list_fmap List.filter]. intros Hnd. apply NoDup_cons in Hnd as [Hd Hl].
  destruct (f d); [|now apply IH].
  cbn [fmap list_fmap]. apply NoDup_cons. split; [|now apply IH].
  intros Hin. apply Hd. apply list_elem_of_fmap in Hin as (y & Hy & Hin).
  apply list_elem_of_fmap. exists y. split; [assumption|].
  apply list_elem_of_In in Hin. apply filter_In in Hin as [Hin _].
  now apply list_elem_of_In.
Qed.

Lemma optionalEquals_spec (param : option string) (field : string) :
  optionalEquals param field = true <-> (truthy param = true -> field = str param).
Proof.
  unfold optionalEquals. destruct (truthy param).
  - rewrite String.eqb_eq. tauto.
  - split; [discriminate|reflexivity].
Qed.

(** X12: GET /items, the store answering: the answer lists exactly the
    items of the store that have the requested status and the requested
    category, a parameter that is absent or empty asking for nothing; each
    item is listed once, the count is the length of the list, and the
    list runs from the latest date to the earliest. Nothing is written. *)
Theorem listItems_lists (status category : option string) (w : World) :
  nextFails w = false ->
  exists data,
    listItems status category w = (Listed data (List.length data), answered w) /\
    (forall id i,
       In (id, i) data <->
       items w !! id = Some i /\
       (truthy status = true -> Item.status i = str status) /\
       (truthy category = true -> Item.category i = str category)) /\
    NoDup data.*1 /\
    Sorted (fun a b => timeOf (Item.date b.2) <= timeOf (Item.date a.2)) data.
Proof.
  intros Hup. unfold listItems, listingRoute, bind, ret.
  rewrite remoteCall_eq, Hup. cbv beta iota. world_simpl.
  eexists. split; [reflexivity|]. split; [|split].
  - intros id i. rewrite <- list_elem_of_In, orderByDesc_perm, list_elem_of_In, filter_In.
    rewrite <- list_elem_of_In, elem_of_map_to_list. cbn [fst snd].
    rewrite andb_true_iff, !optionalEquals_spec. tauto.
  - rewrite orderByDesc_perm. apply NoDup_fst_filter, NoDup_fst_map_to_list.
  - eapply Sorted_weaken; [|apply orderByDesc_sorted].
    intros a b Hab. apply comesBefore_time in Hab. exact Hab.
Qed.

Lemma listItems_lists_witness :
  exists data,
    listItems (Some "Lost") (Some "") matchedBoard =
      (Listed data (List.length data), answered matchedBoard) /\
    (forall id i,
       In (id, i) data <->
       items matchedBoard !! id = Some i /\
       (truthy (Some "Lost") = true -> Item.status i = "Lost") /\
       (truthy (Some "") = true -> Item.category i = "")) /\
    NoDup data.*1 /\
    Sorted (fun a b => timeOf (Item.date b.2) <= timeOf (Item.date a.2)) data.
Proof.
  exact (listItems_lists (Some "Lost") (Some "") matchedBoard eq_refl).
Defined.

Lemma listNotifications_spec (uid : string) (is_read : option string) (w : World) :
  nextFails w = false ->
  exists data,
    listNotifications uid is_read w = (Listed data (List.length data), answered w) /\
    (forall id n,
       In (id, n) data <->
       notifications w !! id = Some n /\
       Notification.user_id n = uid /\
       (forall s, is_read = Some s -> Notification.is_read n = String.eqb s "true")) /\
    NoDup data.*1 /\
    Sorted (fun a b => timeOf (Notification.created_at b.2)
                       <= timeOf (Notification.created_at a.2)) data.
Proof.
  intros Hup. unfold listNotifications, listingRoute, bind, ret.
  rewrite remoteCall_eq, Hup. cbv beta iota. world_simpl.
  eexists. split; [reflexivity|]. split; [|split].
  - intros id n. rewrite <- list_elem_of_In, orderByDesc_perm, list_elem_of_In, filter_In.
    rewrite <- list_elem_of_In, elem_of_map_to_list. cbn [fst snd].
    rewrite andb_true_iff, String.eqb_eq.
    destruct is_read as [s|].
    + rewrite Bool.eqb_true_iff. split.
      * intros (H1 & H2 & H3). repeat split; try assumption. now intros s' [= <-].
      * intros (H1 & H2 & H3). repeat split; try assumption. now apply H3.
    + split; [|tauto]. intros (H1 & H2 & _). repeat split; try assumption.
      intros s [=].
  - rewrite orderByDesc_perm. apply NoDup_fst_filter, NoDup_fst_map_to_list.
  - eapply Sorted_weaken; [|apply orderByDesc_sorted].
    intros a b Hab. apply comesBefore_time in Hab. exact Hab.
Qed.

(** X13: GET /notifications, the store answering: a user is shown the
    notifications addressed to that user and no other. With the parameter
    [is_read] the answer has the read ones when the parameter is exactly
    ['true'], and the unread ones for any other value; each notification is
    listed once, from the latest to the earliest. *)
Theorem listNotifications_lists (uid : string) (is_read : option string) (w : World) :
  nextFails w = false ->
  exists data,
    listNotifications uid is_read w = (Listed data (List.length data), answered w) /\
    (forall id n,
       In (id, n) data <->
       notifications w !! id = Some n /\
       Notification.user_id n = uid /\
       (forall s, is_read = Some s -> Notification.is_read n = String.eqb s "true")) /\
    NoDup data.*1 /\
    Sorted (fun a b => timeOf (Notification.created_at b.2)
                       <= timeOf (Notification.created_at a.2)) data.
Proof. exact (listNotifications_spec uid is_read w). Qed.

Lemma listNotifications_lists_witness :
  exists data,
    listNotifications "alice" (Some "no") matchedBoard =
      (Listed data (List.length data), answered matchedBoard) /\
    (forall id n,
       In (id, n) data <->
       notifications matchedBoard !! id = Some n /\
       Notification.user_id n = "alice" /\
       (forall s, Some "no" = Some s -> Notification.is_read n = String.eqb s "true")) /\
    NoDup data.*1 /\
    Sorted (fun a b => timeOf (Notification.created_at b.2)
                       <= timeOf (Notification.created_at a.2)) data.
Proof.
  exact (listNotifications_lists "alice" (Some "no") matchedBoard eq_refl).
Defined.

Lemma userItemIds_spec (uid : string) (w : World) (k : DocId) :
  In k (userItemIds uid w) <->
  exists i, items w !! k = Some i /\ Item.posted_by i = uid.
Proof.
  unfold userItemIds. rewrite in_map_iff. split.
  - intros ([k' i] & <- & Hin). apply filter_In in Hin as [Hin Hp].
    apply list_elem_of_In, elem_of_map_to_list in Hin. apply String.eqb_eq in Hp.
    by exists i.
  - intros (i & Hk & Hp). exists (k, i). split; [reflexivity|].
    apply filter_In. split; [now apply list_elem_of_In, elem_of_map_to_list|].
    now apply String.eqb_eq.
Qed.

Lemma inQuery_spec (field : Match.t -> DocId) (ids : list DocId) (w : World)
  (d : DocId * Match.t) :
  In d (List.filter (fun d => existsb (Nat.eqb (field d.2)) ids) (map_to_list (matches w)))
  <-> matches w !! d.1 = Some d.2 /\ In (field d.2) ids.
Proof.
  rewrite filter_In, <- list_elem_of_In. destruct d as [k m].
  rewrite elem_of_map_to_list, existsb_exists. cbn [fst snd]. split.
  - intros (Hk & x & Hx & Heq). apply Nat.eqb_eq in Heq. now subst.
  - intros (Hk & Hin). split; [assumption|]. exists (field m).
    split; [assumption|apply Nat.eqb_refl].
Qed.

(** The loop pushes only what [viewOf] shows of the documents it is given. *)
Lemma collectMatches_views (w0 : World) (P : MatchView.t -> Prop)
  (allMatches : list (DocId * Match.t)) :
  (forall d v, In d allMatches -> viewOf w0 d = Some v -> P v) ->
  forall acc w r w',
    sameStore w0 w ->
    collectMatches allMatches acc w = (r, w') ->
    Forall P acc ->
    forall ms, r = Return ms -> Forall P ms.
Proof.
  induction allMatches as [|d rest IH]; intros HP acc w r w' Hsame Hrun Hacc.
  - injection Hrun as <- <-. now intros ms [= <-].
  - cbn [collectMatches] in Hrun. unfold bind in Hrun.
    pose proof (getItems_sameStore (Match.lost_item_id d.2) (Match.found_item_id d.2) w)
      as Hg.
    rewrite getItems_eq in Hrun, Hg.
    destruct (nextFails w || nextFails (answered w)); cbn [snd] in Hg.
    { injection Hrun as <- <-. intros ms [=]. }
    apply (IH (fun d' v Hd => HP d' v (or_intror Hd)) _ _ _ _
              (sameStore_trans _ _ _ Hsame Hg) Hrun).
    destruct Hsame as (Hi & _).
    pose proof (HP d) as HPd. unfold viewOf in HPd. rewrite <- Hi in HPd.
    destruct (items w !! Match.lost_item_id d.2) as [l|]; [|assumption].
    destruct (items w !! Match.found_item_id d.2) as [f|]; [|assumption].
    apply Forall_app. split; [assumption|]. constructor; [|constructor].
    apply HPd; [now left|reflexivity].
Qed.

(** X14: GET /matches shows a user only matches of that user. Whatever the
    store does, every match in the answer is a match of the store, with
    the two items it pairs, both still in the store, and one of them at
    least was posted by the user. *)
Theorem listMatches_only_own (uid : string) (w : World) :
  Forall (visibleTo uid w) (listedData (listMatches uid w).1).
Proof.
  unfold listMatches, listingRoute, bind. rewrite queryItemsPostedBy_eq.
  destruct (nextFails w); [constructor|].
  fold (userItemIds uid w).
  destruct (List.length (userItemIds uid w) =? 0)%nat; [constructor|].
  rewrite queryMatchesIn_eq.
  destruct (nextFails (answered w) || _); [constructor|].
  rewrite queryMatchesIn_eq.
  destruct (nextFails (answered (answered w)) || _); [constructor|].
  world_simpl.
  match goal with
  | |- context [collectMatches ?l ?acc ?w1] =>
      pose proof (collectMatches_views w (visibleTo uid w) l) as Hviews;
      destruct (collectMatches l acc w1) as [[ms|e] w2] eqn:Hrun
  end; [|constructor].
  cbn [fst listedData ret].
  eapply Hviews; [|
    |exact Hrun|constructor|reflexivity]; [|repeat split].
  intros d v Hd Hv.
  assert (Hview := Hv). unfold viewOf in Hv.
  destruct (items w !! Match.lost_item_id d.2) as [l|] eqn:Hl; [|discriminate].
  destruct (items w !! Match.found_item_id d.2) as [f|] eqn:Hf; [|discriminate].
  injection Hv as <-. unfold visibleTo. cbn [MatchView.id MatchView.matchData].
  apply in_app_or in Hd.
  assert (Hd' : matches w !! d.1 = Some d.2 /\
                (In (Match.lost_item_id d.2) (userItemIds uid w) \/
                 In (Match.found_item_id d.2) (userItemIds uid w))).
  { destruct Hd as [Hd|Hd]; apply inQuery_spec in Hd as [Hm Hin]; auto. }
  destruct Hd' as [Hm Hown].
  split; [now destruct d|]. split; [assumption|].
  exists l, f. split; [assumption|]. split; [assumption|].
  destruct Hown as [Hin|Hin]; apply userItemIds_spec in Hin as (i & Hi & Hp);
    [left|right]; congruence.
Qed.

Lemma remoteCall_up (w : World) : outages w = [] -> remoteCall w = (Return tt, w).
Proof. intros H. unfold remoteCall. now rewrite H. Qed.

Lemma getItems_up (a b : DocId) (w : World) :
  outages w = [] ->
  promiseAll2 (getItem a) (getItem b) w = (Return (items w !! a, items w !! b), w).
Proof.
  intros H. unfold promiseAll2, getItem, bind. now rewrite !(remoteCall_up w H).
Qed.

Lemma collectMatches_up (allMatches : list (DocId * Match.t))
  (acc : list MatchView.t) (w : World) :
  outages w = [] ->
  collectMatches allMatches acc w = (Return (acc ++ omap (viewOf w) allMatches), w).
Proof.
  intros Hup. revert acc. induction allMatches as [|d rest IH]; intros acc.
  - cbn. now rewrite app_nil_r.
  - cbn [collectMatches]. unfold bind. rewrite (getItems_up _ _ w Hup), IH.
    cbn [omap list_omap]. unfold viewOf at 2.
    destruct (items w !! Match.lost_item_id d.2); [|reflexivity].
    destruct (items w !! Match.found_item_id d.2); [|reflexivity].
    now rewrite <- app_assoc.
Qed.

(** The views of one match among the views of the documents of a query:
    one if the query finds the match, none otherwise. *)
Lemma views_of_match (w : World) (g : DocId * Match.t -> bool)
  (l : list (DocId * Match.t)) (k : DocId) (m : Match.t) (v : MatchView.t) :
  NoDup l.*1 -> In (k, m) l -> viewOf w (k, m) = Some v ->
  List.length (List.filter (fun v => Nat.eqb (MatchView.id v) k)
                 (omap (viewOf w) (List.filter g l)))
  = if g (k, m) then 1 else 0.
Proof.
  assert (Hid : forall d v', viewOf w d = Some v' -> MatchView.id v' = d.1).
  { intros d v'. unfold viewOf.
    destruct (items w !! _); [|discriminate]. destruct (items w !! _); [|discriminate].
    now intros [= <-]. }
  assert (Hnone : forall l', k ∉ l'.*1 ->
            List.filter (fun v => Nat.eqb (MatchView.id v) k)
              (omap (viewOf w) (List.filter g l')) = []).
  { induction l' as [|d l' IH]; [reflexivity|].
    cbn [fmap list_fmap List.filter]. intros Hk.
    apply not_elem_of_cons in Hk as [Hd Hl'].
    destruct (g d); [|now apply IH]. cbn [omap list_omap].
    destruct (viewOf w d) as [v'|] eqn:Hv'; [|now apply IH].
    cbn [List.filter]. rewrite (Hid d v' Hv').
    destruct (Nat.eqb_spec d.1 k); [congruence|now apply IH]. }
  induction l as [|d l IH]; [intros _ []|].
  cbn [fmap list_fmap]. intros Hnd Hin Hv. apply NoDup_cons in Hnd as [Hd Hl].
  destruct Hin as [->|Hin].
  - cbn [List.filter fst] in *. destruct (g (k, m)).
    + cbn [omap list_omap]. rewrite Hv. cbn [List.filter].
      rewrite (Hid _ _ Hv). cbn [fst]. rewrite Nat.eqb_refl.
      cbn [List.length]. now rewrite (Hnone l Hd).
    + now rewrite (Hnone l Hd).
  - assert (Hne : d.1 <> k).
    { intros Heq. apply Hd. rewrite Heq. apply list_elem_of_fmap. exists (k, m).
      split; [reflexivity|now apply list_elem_of_In]. }
    cbn [List.filter]. destruct (g d); [|now apply IH].
    cbn [omap list_omap]. destruct (viewOf w d) as [v'|] eqn:Hv'; [|now apply IH].
    cbn [List.filter]. rewrite (Hid d v' Hv').
    destruct (Nat.eqb_spec d.1 k); [congruence|now apply IH].
Qed.

Lemma existsb_In_nat (x : nat) (l : list nat) : existsb (Nat.eqb x) l = true <-> In x l.
Proof.
  rewrite existsb_exists. split.
  - intros (y & Hy & Heq). apply Nat.eqb_eq in Heq. now subst.
  - intros Hx. exists x. split; [assumption|apply Nat.eqb_refl].
Qed.

Lemma owns_userItemIds (uid : string) (w : World) (k : DocId) (i : Item.t) :
  items w !! k = Some i ->
  existsb (Nat.eqb k) (userItemIds uid w) = String.eqb (Item.posted_by i) uid.
Proof.
  intros Hk. apply eq_true_iff_eq. rewrite existsb_In_nat, userItemIds_spec, String.eqb_eq.
  split; [intros (i' & Hi' & Hp); congruence|intros Hp; by exists i].
Qed.

(** X15: how often GET /matches shows a match, the store being up and the
    user having no more items than an [in] filter takes values. A match
    both items of which are in the store is shown once for each of its two
    items that the user posted: not at all to a user who posted neither,
    once to a user who posted one, and twice to a user who posted both the
    lost and the found item. *)
Theorem listMatches_shows_per_side (uid : string) (w : World) (k : DocId)
  (m : Match.t) (lostItem foundItem : Item.t) :
  outages w = [] ->
  List.length (userItemIds uid w) <= inFilterLimit ->
  matches w !! k = Some m ->
  items w !! Match.lost_item_id m = Some lostItem ->
  items w !! Match.found_item_id m = Some foundItem ->
  listingCode (listMatches uid w).1 = 200 /\
  List.length (List.filter (fun v => Nat.eqb (MatchView.id v) k)
                 (listedData (listMatches uid w).1))
  = (if String.eqb (Item.posted_by lostItem) uid then 1 else 0)
    + (if String.eqb (Item.posted_by foundItem) uid then 1 else 0).
Proof.
  intros Hup Hlim Hm Hl Hf.
  pose proof (owns_userItemIds uid w _ _ Hl) as Hol.
  pose proof (owns_userItemIds uid w _ _ Hf) as Hof.
  apply Nat.ltb_ge in Hlim.
  unfold listMatches, listingRoute, bind, queryItemsPostedBy, queryMatchesIn, bind.
  rewrite !(remoteCall_up w Hup). fold (userItemIds uid w).
  destruct (List.length (userItemIds uid w) =? 0)%nat eqn:Hlen.
  { apply Nat.eqb_eq in Hlen. apply nil_length_inv in Hlen.
    rewrite Hlen in Hol, Hof. cbn in Hol, Hof. rewrite <- Hol, <- Hof.
    split; reflexivity. }
  do 2 (rewrite ?(remoteCall_up w Hup), ?Hlim; cbv beta iota).
  rewrite collectMatches_up by assumption.
  cbn [fst listingCode listedData ret app]. split; [reflexivity|].
  assert (Hv : viewOf w (k, m) =
               Some (MatchView.mk k m (summaryOf (Match.lost_item_id m) lostItem)
                       (summaryOf (Match.found_item_id m) foundItem))).
  { unfold viewOf. cbn [fst snd]. now rewrite Hl, Hf. }
  assert (Hin : In (k, m) (map_to_list (matches w)))
    by now apply list_elem_of_In, elem_of_map_to_list.
  rewrite omap_app, List.filter_app, length_app.
  rewrite (views_of_match w _ _ k m _ (NoDup_fst_map_to_list _) Hin Hv).
  rewrite (views_of_match w _ _ k m _ (NoDup_fst_map_to_list _) Hin Hv).
  cbn [snd]. now rewrite Hol, Hof.
Qed.

Lemma listMatches_shows_per_side_witness :
  listingCode (listMatches "alice" ownBoard).1 = 200 /\
  List.length (List.filter (fun v => Nat.eqb (MatchView.id v) 0)
                 (listedData (listMatches "alice" ownBoard).1)) = 2.
Proof.
  apply (listMatches_shows_per_side "alice" ownBoard 0 pendingMatch backpackItem
           alicesFoundBackpack); [reflexivity|vm_compute; lia|reflexivity..].
Defined.

(** X19: GET /matches fails for a user with many items. The ids of all the
    items of the user go into one [in] filter (lines 399-416); when there
    are more of them than the filter takes, the store rejects the query
    and the answer is 500, whatever matches the user has. Nothing is
    written. *)
Theorem listMatches_over_limit (uid : string) (w : World) :
  inFilterLimit < List.length (userItemIds uid w) ->
  (listMatches uid w).1 = NotListed 500 "Failed to fetch matches" /\
  sameStore w (listMatches uid w).2.
Proof.
  intros Hover. split; [|apply listMatches_sameStore].
  unfold listMatches, listingRoute, bind. rewrite queryItemsPostedBy_eq.
  destruct (nextFails w); [reflexivity|].
  fold (userItemIds uid w).
  destruct (Nat.eqb_spec (List.length (userItemIds uid w)) 0) as [Hz|_]; [lia|].
  rewrite queryMatchesIn_eq.
  apply Nat.ltb_lt in Hover. rewrite Hover, orb_true_r. reflexivity.
Qed.

Lemma listMatches_over_limit_witness :
  (listMatches "alice" crowdedBoard).1 = NotListed 500 "Failed to fetch matches" /\
  sameStore crowdedBoard (listMatches "alice" crowdedBoard).2.
Proof.
  apply (listMatches_over_limit "alice" crowdedBoard). vm_compute. lia.
Defined.

(** ** GET /users/:id *)

Lemma filter_length_perm {A} (f : A -> bool) (l l' : list A) :
  l ≡ₚ l' -> List.length (List.filter f l) = List.length (List.filter f l').
Proof.
  induction 1 as [|x l l' _ IH|x y l|l1 l2 l3 _ IH1 _ IH2]; cbn [List.filter].
  - reflexivity.
  - destruct (f x); cbn [List.length]; now rewrite IH.
  - destruct (f x), (f y); reflexivity.
  - now rewrite IH1.
Qed.

Lemma itemsPostedBy_insert (id : string) (its : gmap DocId Item.t) (k : DocId)
  (i : Item.t) (w w' : World) :
  items w !! k = None -> items w' = <[k := i]> (items w) ->
  itemsPostedBy id w' =
  itemsPostedBy id w + (if String.eqb (Item.posted_by i) id then 1 else 0).
Proof.
  intros Hk Hw'. unfold itemsPostedBy. rewrite Hw'.
  rewrite (filter_length_perm _ _ _ (map_to_list_insert (items w) k i Hk)).
  cbn [List.filter snd]. destruct (String.eqb (Item.posted_by i) id);
    cbn [List.length]; lia.
Qed.

(** X16: GET /users/:id counts the items the user posted, and a successful
    POST /items adds one to the count of its poster and nothing to the
    count of anybody else. When [createItem] answers 201 for [uid], the
    number of items posted by [id] grows by one if [id] is [uid] and not
    at all otherwise; and GET /users/:id, the store taking its two reads
    and [id] having a profile, answers with that number as
    [items_count]. *)
Theorem items_count_after_post {Profile : Type} (users : string -> option Profile)
  (body : ItemForm) (file : option UploadedFile) (uid id : string) (w : World)
  (itemRef : DocId) (itemData : Item.t) (n : nat) (ms : list MatchInfo.t) :
  (createItem body file uid w).1 = Created itemRef itemData n ms ->
  let w' := (createItem body file uid w).2 in
  itemsPostedBy id w' = itemsPostedBy id w + (if String.eqb uid id then 1 else 0) /\
  (forall p, users id = Some p -> id <> "" -> accepts 2 w' = true ->
     (getUserProfile users id w').1 =
       ProfileFound id p (itemsPostedBy id w + (if String.eqb uid id then 1 else 0))).
Proof.
  intros Hcreated. cbv zeta.
  assert (Hcount : itemsPostedBy id (createItem body file uid w).2 =
                   itemsPostedBy id w + (if String.eqb uid id then 1 else 0)).
  { destruct (createItem_store body file uid w)
      as [(_ & _ & _ & Hno) | (url & w1 & _ & _ & _ & Hi & _ & _ & Hrun)].
    { now destruct (Hno itemRef itemData n ms). }
    rewrite Hrun. cbv zeta. cbn [snd].
    destruct (generateMatches_total (fresh (dom (items w))) (itemDataOf body url uid) w1)
      as (ms' & w' & Hg & (_ & _ & Hits)).
    rewrite Hg. cbn [snd].
    apply (itemsPostedBy_insert id (items w) (fresh (dom (items w)))
             (Item.resolve (clock w) (itemDataOf body url uid)));
      [apply fresh_item_id|now rewrite Hits]. }
  split; [exact Hcount|].
  intros p Hp Hid Hup. rewrite <- Hcount.
  apply accepts_S in Hup as [H1 Hup]. apply accepts_S in Hup as [H2 _].
  unfold getUserProfile, bind, ret.
  apply String.eqb_neq in Hid. rewrite Hid.
  rewrite remoteCall_eq, H1, Hp, queryItemsPostedBy_eq, H2. reflexivity.
Qed.

Lemma items_count_after_post_witness :
  let users := fun u : string => if String.eqb u "bob" then Some "Bob" else None in
  let w' := (createItem foundBackpackForm None "bob" boardWithBackpack).2 in
  itemsPostedBy "bob" w' = 1 /\ itemsPostedBy "alice" w' = 1 /\
  (getUserProfile users "bob" w').1 = ProfileFound "bob" "Bob" 1.
Proof.
  cbv zeta.
  destruct (items_count_after_post
              (fun u : string => if String.eqb u "bob" then Some "Bob" else None)
              foundBackpackForm None "bob" "bob" boardWithBackpack 1
              (itemDataOf foundBackpackForm "" "bob") 1
              [MatchInfo.mk 0 80 0 (Some "Blue Backpack") (Some "blue bag with a zip")]
              eq_refl) as [Hbob Hprofile].
  destruct (items_count_after_post
              (fun u : string => if String.eqb u "bob" then Some "Bob" else None)
              foundBackpackForm None "bob" "alice" boardWithBackpack 1
              (itemDataOf foundBackpackForm "" "bob") 1
              [MatchInfo.mk 0 80 0 (Some "Blue Backpack") (Some "blue bag with a zip")]
              eq_refl) as [Halice _].
  split; [exact Hbob|]. split; [exact Halice|].
  apply (Hprofile "Bob" eq_refl); [discriminate|reflexivity].
Defined.

(** ** From a post to the notification of the other poster *)

(** X17: the poster of a matched item gets to see the notification. When
    POST /items answers 201 with a list of matches, then for each match of
    the list the matched item is in the store, and GET /notifications of
    its poster with [is_read=false], the store answering, lists a
    notification for that match. *)
Theorem matched_poster_is_notified (body : ItemForm) (file : option UploadedFile)
  (uid : string) (w : World) (itemRef : DocId) (itemData : Item.t) (n : nat)
  (ms : list MatchInfo.t) (info : MatchInfo.t) :
  (createItem body file uid w).1 = Created itemRef itemData n ms ->
  In info ms ->
  nextFails (createItem body file uid w).2 = false ->
  exists (candidate : Item.t) (notificationId : DocId) (notified : Notification.t),
    items (createItem body file uid w).2 !! MatchInfo.matched_item_id info
      = Some candidate /\
    In (notificationId, notified)
       (listedData (listNotifications (Item.posted_by candidate) (Some "false")
                      (createItem body file uid w).2).1) /\
    Notification.match_id notified = MatchInfo.match_id info /\
    is_Some (matches (createItem body file uid w).2 !! MatchInfo.match_id info).
Proof.
  intros Hcreated Hin Hup.
  destruct (createItem_store body file uid w)
    as [(_ & _ & _ & Hno) | (url & w1 & _ & _ & _ & _ & _ & _ & Hrun)].
  { now destruct (Hno itemRef itemData n ms). }
  rewrite Hrun in *. cbv zeta in *. clear Hrun.
  destruct (generateMatches_linked (fresh (dom (items w))) (itemDataOf body url uid) w1)
    as (ms' & w' & Hg & _ & Hall).
  rewrite Hg in *. cbn [fst snd] in *. injection Hcreated as _ _ _ <-.
  rewrite Forall_forall in Hall.
  destruct (Hall info (proj2 (list_elem_of_In _ _) Hin))
    as ((m & c & nid & nt & Hm & Hc & _ & _ & _ & _ & _ & _ & _ & Hn & Hmid & Huser & Hread)
        & _).
  exists c, nid, nt. split; [exact Hc|]. split; [|split; [exact Hmid|by eexists]].
  destruct (listNotifications_spec (Item.posted_by c) (Some "false") w' Hup)
    as (data & -> & Hdata & _).
  cbn [fst listedData]. apply Hdata. split; [exact Hn|]. split; [exact Huser|].
  intros s [= <-]. exact Hread.
Qed.

Lemma matched_poster_is_notified_witness :
  exists (candidate : Item.t) (notificationId : DocId) (notified : Notification.t),
    items (createItem foundBackpackForm None "bob" boardWithBackpack).2 !! 0
      = Some candidate /\
    In (notificationId, notified)
       (listedData (listNotifications (Item.posted_by candidate) (Some "false")
                      (createItem foundBackpackForm None "bob" boardWithBackpack).2).1) /\
    Notification.match_id notified = 0 /\
    is_Some (matches (createItem foundBackpackForm None "bob" boardWithBackpack).2 !! 0).
Proof.
  exact (matched_poster_is_notified foundBackpackForm None "bob" boardWithBackpack 1
           (itemDataOf foundBackpackForm "" "bob") 1
           [MatchInfo.mk 0 80 0 (Some "Blue Backpack") (Some "blue bag with a zip")]
           (MatchInfo.mk 0 80 0 (Some "Blue Backpack") (Some "blue bag with a zip"))
           eq_refl (or_introl eq_refl) eq_refl).
Defined.

(** ** authenticateUser *)

Lemma splitOnFrom_whole (sep t : string) :
  includes t sep = false -> splitOnFrom sep 0 t = [t].
Proof.
  induction t as [|c t IH]; [reflexivity|].
  cbn [includes splitOnFrom]. intros H. apply orb_false_iff in H as [Hp Hi].
  rewrite Hp, (IH Hi). reflexivity.
Qed.

Lemma prefix_append (s t : string) : String.prefix s (s ^^ t) = true.
Proof.
  induction s as [|c s IH]; [now destruct t|].
  simpl. destruct (ascii_dec c c); [assumption|congruence].
Qed.

Lemma splitOnFrom_skip (sep u t : string) :
  splitOnFrom sep (String.length u) (u ^^ t) = splitOnFrom sep 0 t.
Proof. induction u as [|a u IH]; [reflexivity|]. simpl. exact IH. Qed.

(** A text that begins with the separator and has no other occurrence of
    it is split in the empty string and the rest. *)
Lemma splitOn_prefix (c : ascii) (sep' t : string) :
  includes t (String c sep') = false ->
  splitOn (String c sep') (String c sep' ^^ t) = [""; t].
Proof.
  intros Hfree. unfold splitOn.
  pose proof (prefix_append (String c sep') t) as Hp.
  simpl in Hp |- *. rewrite Hp, Nat.sub_0_r, splitOnFrom_skip.
  now rewrite (splitOnFrom_whole (String c sep') t Hfree).
Qed.

(** X18: the token that is verified. For a header that is [Bearer],
    a space and a token in which [Bearer] and a space do not occur again,
    the middleware verifies exactly that token: it calls [next] with the
    uid, email and email_verified of the decoded token, or answers 401 with
    the message of the error code. A header that is absent or does not
    begin with [Bearer] and a space, with these very letters, is answered
    401 whatever the verification would say. *)
Theorem authenticateUser_bearer (verifyIdToken : string -> string + DecodedToken)
  (token : string) :
  includes token "Bearer " = false ->
  authenticateUser verifyIdToken (Some ("Bearer " ^^ token)) =
    match verifyIdToken token with
    | inr decodedToken =>
        Next (Build_User (token_uid decodedToken) (token_email decodedToken)
                         (token_email_verified decodedToken))
    | inl code => Unauthorized (authMessage code)
    end /\
  (forall header,
     String.prefix "Bearer " header = false ->
     authenticateUser verifyIdToken (Some header) =
       Unauthorized "Access token required. Please provide a valid Bearer token.") /\
  authenticateUser verifyIdToken None =
    Unauthorized "Access token required. Please provide a valid Bearer token.".
Proof.
  intros Hfree. split; [|split].
  - unfold authenticateUser.
    change (str (Some ("Bearer " ^^ token))) with ("Bearer " ^^ token).
    rewrite (prefix_append "Bearer " token).
    rewrite (splitOn_prefix "B" "earer " token Hfree).
    reflexivity.
  - intros header Hp. unfold authenticateUser.
    change (str (Some header)) with header. rewrite Hp.
    now rewrite orb_true_r.
  - reflexivity.
Qed.

Lemma authenticateUser_bearer_witness :
  let verify := fun t : string =>
                  if String.eqb t "abc.def.ghi"
                  then inr (Build_DecodedToken "alice" (Some "alice@example.org") (Some true))
                  else inl "auth/invalid-id-token" in
  authenticateUser verify (Some "Bearer abc.def.ghi") =
    Next (Build_User "alice" (Some "alice@example.org") (Some true)) /\
  authenticateUser verify (Some "bearer abc.def.ghi") =
    Unauthorized "Access token required. Please provide a valid Bearer token.".
Proof.
  cbv zeta.
  destruct (authenticateUser_bearer
              (fun t : string =>
                 if String.eqb t "abc.def.ghi"
                 then inr (Build_DecodedToken "alice" (Some "alice@example.org") (Some true))
                 else inl "auth/invalid-id-token")
              "abc.def.ghi" eq_refl) as (Hok & Hbad & _).
  split; [exact Hok|]. apply Hbad. reflexivity.
Defined.
